(** * ShieldEye SurfaceScan: the scan pipeline, embedded and verified

  A shallow embedding of the parts of the TypeScript sources that the
  specification's testable properties talk about:

  - [RiskCalculator] (src/shared/src/utils.ts),
  - the vulnerability cache helpers of src/api/src/database.ts,
  - [validateTargetUrl] (security/url-validator) and the scan routes
    [createScan] / [getScanStatus] of src/api/src/routes/scans.ts,
  - the analysis worker's [processAnalysisTask]
    (src/analyzer/src/worker.ts),
  - [minimalAnalyzeAndPersist] (src/api/src/minimal/analyzer.ts),
  - the version, fingerprint and retry utilities of the shared package,
    the retry loops of the worker and of the database layer,
  - the reporting and deletion routes, the minimal router, the tables of
    finding severities and the circuit breaker of the middleware.

  Conventions.  JavaScript numbers are modelled by rationals [Q] (risk
  scores) or by integers [Z] (millisecond clocks, counters).  The library
  score is given twice: [RiskCalculator64] computes it as the code does,
  in IEEE 754 binary64 with every product, quotient and sum rounded to the
  nearest double, and is what the minimal analyzer stores for a library;
  [RiskCalculator] is the same program in exact arithmetic, used for its
  order and its range.  JavaScript strings are
  modelled by [string], one [ascii] per code unit (HTTP header values and
  host names are Latin-1).  Asynchronous calls are sequential state
  passing over an explicit store. *)

From Stdlib Require Import ZArith QArith Qminmax Qround List String Ascii Bool Lia Lqa.
From Stdlib Require Import Permutation Qpower.
From Stdlib Require Floats.SpecFloat.
Import ListNotations.

Local Open Scope Z_scope.

(* ------------------------------------------------------------------ *)
(** * JavaScript primitives shared by the models *)
(* ------------------------------------------------------------------ *)

Module JS.

(** [Math.round(x)]: the integer nearest to [x], ties towards +infinity. *)
Definition Math_round (x : Q) : Z := Qfloor (x + (1 # 2)).

(** [Math.ceil(x)]. *)
Definition Math_ceil (x : Q) : Z := Qceiling x.

(** [Math.max(...xs)] on a non-empty argument list [x :: xs]. *)
Definition Math_max (x : Q) (xs : list Q) : Q := fold_left Qmax xs x.

(** Number of elements as a JavaScript number. *)
Definition count {A} (l : list A) : Q := inject_Z (Z.of_nat (List.length l)).

End JS.

(* ------------------------------------------------------------------ *)
(** * Risk calculator (src/shared/src/utils.ts) *)
(* ------------------------------------------------------------------ *)

Module RiskCalculator.

Local Open Scope Q_scope.

(** The argument type of [calculateLibraryRisk]:
    [{ cvssScore?: number; severity: string }]. *)
Record VulnInput := mkVuln {
  cvssScore : option Q;
  severity  : string
}.

(** [v.cvssScore || 0] *)
Definition cvssOrZero (v : VulnInput) : Q :=
  match cvssScore v with
  | Some q => if Qeq_bool q 0 then 0 else q
  | None => 0
  end.

(** [v.severity === 'CRITICAL' || (v.cvssScore && v.cvssScore >= 9.0)] *)
Definition isCritical (v : VulnInput) : bool :=
  String.eqb (severity v) "CRITICAL"
  || match cvssScore v with
     | Some q => negb (Qeq_bool q 0) && Qle_bool 9 q
     | None => false
     end.

Definition calculateLibraryRisk
    (vulnerabilities : list VulnInput) (confidence : Q)
    (hasPublicExploit : bool) : Q :=
  match vulnerabilities with
  | [] => 0
  | v :: vs =>
      let maxCvss := JS.Math_max (cvssOrZero v) (map cvssOrZero vs) in
      let criticalCount := JS.count (filter isCritical vulnerabilities) in
      let baseScore := maxCvss * 10 in
      let baseScore := baseScore * (confidence / 100) in
      let baseScore := baseScore + criticalCount * 15 in
      let baseScore := if hasPublicExploit then baseScore * (3 # 2) else baseScore in
      Qmin 100 (Qmax 0 baseScore)
  end.

Definition calculateGlobalRisk (libraryRisks : list Q) (criticalFindings : Q) : Q :=
  match libraryRisks with
  | [] => 0
  | r :: rs =>
      let maxRisk := JS.Math_max r rs in
      let avgRisk := fold_left Qplus libraryRisks 0 / JS.count libraryRisks in
      let highRiskCount := JS.count (filter (fun risk => Qle_bool 70 risk) libraryRisks) in
      let globalRisk := maxRisk * (4 # 10) + avgRisk * (3 # 10) + highRiskCount * 5 in
      let globalRisk := globalRisk + criticalFindings * 10 in
      Qmin 100 (Qmax 0 globalRisk)
  end.

(** ** The specification's wording of the library score (section 4.8) *)

(** A vulnerability is critical when it is labelled so or when its score
    is at least 9 (section 3 derives the label from the score). *)
Definition spec_critical (v : VulnInput) : bool :=
  match cvssScore v with
  | Some q => String.eqb (severity v) "CRITICAL" || Qle_bool 9 q
  | None => String.eqb (severity v) "CRITICAL"
  end.

(** Greatest score of a list, a missing score counting as 0. *)
Fixpoint spec_maxCvss (vs : list VulnInput) : Q :=
  match vs with
  | [] => 0
  | [v] => match cvssScore v with Some q => q | None => 0 end
  | v :: rest =>
      Qmax (match cvssScore v with Some q => q | None => 0 end) (spec_maxCvss rest)
  end.

Fixpoint spec_criticalCount (vs : list VulnInput) : Z :=
  match vs with
  | [] => 0%Z
  | v :: rest => ((if spec_critical v then 1 else 0) + spec_criticalCount rest)%Z
  end.

Definition clamp (lo hi x : Q) : Q :=
  if Qlt_le_dec x lo then lo else if Qlt_le_dec hi x then hi else x.

End RiskCalculator.

(* ------------------------------------------------------------------ *)
(** * IEEE 754 binary64, the arithmetic of JavaScript numbers *)
(* ------------------------------------------------------------------ *)

(** A finite double is modelled by the rational it denotes, and an
    arithmetic operation by the exact operation followed by rounding to
    the nearest double, ties to the even significand.  Comparisons,
    [Math.max], [Math.min] and [Math.round] are exact and need no rounding.
    Not represented: NaN, the infinities (a result of magnitude 2^1024 or
    more), the sign of zero and division by zero. *)
Module Binary64.

Local Open Scope Q_scope.

(** 2^e *)
Definition pow2 (e : Z) : Q := Qpower 2 e.

(** The integer e with 2^e <= x < 2^(e+1), for x > 0. *)
Definition ilog2 (x : Q) : Z :=
  let e := (Z.log2 (Qnum x) - Z.log2 (Zpos (Qden x)))%Z in
  if Qle_bool (pow2 e) x then e else (e - 1)%Z.

(** The nearest integer, of two nearest ones the even one. *)
Definition nearest_even (y : Q) : Z :=
  let f := Qfloor y in
  match Qcompare (y - inject_Z f) (1 # 2) with
  | Lt => f
  | Gt => (f + 1)%Z
  | Eq => if Z.even f then f else (f + 1)%Z
  end.

(** The double nearest to x > 0: a multiple of 2^(e-52), where e is the
    binary exponent of x and at least -1022 (below that the doubles are
    the subnormal multiples of 2^-1074). *)
Definition round_pos (x : Q) : Q :=
  let e := Z.max (ilog2 x) (-1022) in
  let ulp := pow2 (e - 52) in
  inject_Z (nearest_even (x / ulp)) * ulp.

(** The double nearest to x.  It is also the value of a decimal literal
    and of [parseFloat] on a decimal text. *)
Definition round (x : Q) : Q :=
  let x := Qred x in
  match Qnum x with
  | Z0 => 0
  | Zpos _ => Qred (round_pos x)
  | Zneg _ => Qred (- round_pos (- x))
  end.

(** [a * b], [a / b] and [a + b] on doubles. *)
Definition mul (a b : Q) : Q := round (a * b).
Definition div (a b : Q) : Q := round (a / b).
Definition add (a b : Q) : Q := round (a + b).

(** The doubles end below 2^1024.  Where a rounded result reaches that
    magnitude the code has an infinity, and from there possibly NaN; these
    the model has not, so that it speaks for the code where the results
    are [finite]. *)
Definition finite (x : Q) : Prop := - pow2 1024 < x /\ x < pow2 1024.

(** Of magnitude at most M. *)
Definition bounded (M x : Q) : Prop := - M <= x /\ x <= M.

End Binary64.

(** The reference semantics of binary64 in the Standard Library
    ([SpecFloat] at precision 53 and maximal exponent 1024), against which
    [Binary64] is checked on samples. *)
Module Binary64Reference.

Local Open Scope Q_scope.

Definition of_Z (z : Z) : SpecFloat.spec_float :=
  SpecFloat.binary_normalize 53 1024 z 0 false.

Definition fmul := SpecFloat.SFmul 53 1024.
Definition fdiv := SpecFloat.SFdiv 53 1024.
Definition fadd := SpecFloat.SFadd 53 1024.

(** The rational a finite float denotes. *)
Definition to_Q (f : SpecFloat.spec_float) : option Q :=
  match f with
  | SpecFloat.S754_zero _ => Some 0
  | SpecFloat.S754_finite s m e =>
      Some ((if s then -1 else 1) * inject_Z (Zpos m) * Binary64.pow2 e)
  | _ => None
  end.

Definition same (f : SpecFloat.spec_float) (q : Q) : bool :=
  match to_Q f with
  | Some x => Qeq_bool x q
  | None => false
  end.

(** (a/b) * (c/d), (a/b) + (c/d) and (a/b) / (c/d), computed both ways. *)
Definition agree_mul (a b c d : Z) : bool :=
  same (fmul (fdiv (of_Z a) (of_Z b)) (fdiv (of_Z c) (of_Z d)))
       (Binary64.mul (Binary64.div (inject_Z a) (inject_Z b))
                     (Binary64.div (inject_Z c) (inject_Z d))).

Definition agree_add (a b c d : Z) : bool :=
  same (fadd (fdiv (of_Z a) (of_Z b)) (fdiv (of_Z c) (of_Z d)))
       (Binary64.add (Binary64.div (inject_Z a) (inject_Z b))
                     (Binary64.div (inject_Z c) (inject_Z d))).

Definition agree_div (a b c d : Z) : bool :=
  same (fdiv (fdiv (of_Z a) (of_Z b)) (fdiv (of_Z c) (of_Z d)))
       (Binary64.div (Binary64.div (inject_Z a) (inject_Z b))
                     (Binary64.div (inject_Z c) (inject_Z d))).

Definition on_samples (t : Z -> Z -> Z -> Z -> bool) : bool :=
  forallb (fun a =>
    forallb (fun b =>
      forallb (fun c =>
        forallb (fun d => t a b c d) [3; 10; 100; 1024; 123457]%Z)
        [1; 7; 70; 80; 99; -13]%Z)
      [3; 7; 10; 100; 1000]%Z)
    (map Z.of_nat (seq 1 12)).

(** The same with the first operand m * 2^e, down to the subnormal
    doubles and up to the large ones. *)
Definition of_scaled (m e : Z) : SpecFloat.spec_float :=
  SpecFloat.binary_normalize 53 1024 m e false.

Definition scaled (m e : Z) : Q := inject_Z m * Binary64.pow2 e.

Definition agree_scaled (m e c d : Z) : bool :=
  same (fmul (of_scaled m e) (fdiv (of_Z c) (of_Z d)))
       (Binary64.mul (scaled m e) (Binary64.div (inject_Z c) (inject_Z d)))
  && same (fdiv (of_scaled m e) (of_Z d))
          (Binary64.div (scaled m e) (inject_Z d))
  && same (fadd (of_scaled m e) (fdiv (of_scaled c e) (of_Z d)))
          (Binary64.add (scaled m e) (Binary64.div (scaled c e) (inject_Z d))).

Definition on_scaled_samples : bool :=
  forallb (fun m =>
    forallb (fun e =>
      forallb (fun c =>
        forallb (fun d => agree_scaled m e c d) [3; 10; 123457]%Z)
        [1; 7; -13]%Z)
      [-1074; -1060; -1023; -1022; 0; 960]%Z)
    [1; 3; 9007199254740991; -11]%Z.

(** The library score of one advisory of score cvss/10 at the given
    confidence, without exploit, in the reference arithmetic:
    [cvss * 10 * (confidence / 100) + criticalCount * 15]. *)
Definition reference_score (cvss confidence criticalCount : Z) : SpecFloat.spec_float :=
  fadd (fmul (fmul (fdiv (of_Z cvss) (of_Z 10)) (of_Z 10))
             (fdiv (of_Z confidence) (of_Z 100)))
       (fmul (of_Z criticalCount) (of_Z 15)).

End Binary64Reference.

(* ------------------------------------------------------------------ *)
(** * Risk calculator in binary64 (src/shared/src/utils.ts) *)
(* ------------------------------------------------------------------ *)

Module RiskCalculator64.

Import RiskCalculator.
Local Open Scope Q_scope.

(** [calculateLibraryRisk] with the arithmetic of the code: the arguments
    are doubles, and [maxCvss * 10], [confidence / 100], the two products
    with them, the sum and the product with 1.5 are each rounded. *)
Definition calculateLibraryRisk
    (vulnerabilities : list VulnInput) (confidence : Q)
    (hasPublicExploit : bool) : Q :=
  match vulnerabilities with
  | [] => 0
  | v :: vs =>
      let maxCvss := JS.Math_max (cvssOrZero v) (map cvssOrZero vs) in
      let criticalCount := JS.count (filter isCritical vulnerabilities) in
      let baseScore := Binary64.mul maxCvss 10 in
      let baseScore := Binary64.mul baseScore (Binary64.div confidence 100) in
      let baseScore := Binary64.add baseScore (Binary64.mul criticalCount 15) in
      let baseScore :=
        if hasPublicExploit then Binary64.mul baseScore (3 # 2) else baseScore in
      Qmin 100 (Qmax 0 baseScore)
  end.

(** The results of the arithmetic operations of [calculateLibraryRisk], in
    the order of the code. *)
Definition operations
    (vulnerabilities : list VulnInput) (confidence : Q)
    (hasPublicExploit : bool) : list Q :=
  match vulnerabilities with
  | [] => []
  | v :: vs =>
      let maxCvss := JS.Math_max (cvssOrZero v) (map cvssOrZero vs) in
      let criticalCount := JS.count (filter isCritical vulnerabilities) in
      let scaled := Binary64.mul maxCvss 10 in
      let factor := Binary64.div confidence 100 in
      let product := Binary64.mul scaled factor in
      let bonus := Binary64.mul criticalCount 15 in
      let sum := Binary64.add product bonus in
      [scaled; factor; product; bonus; sum]
      ++ (if hasPublicExploit then [Binary64.mul sum (3 # 2)] else [])
  end.

(** Arguments with which every operation stays within the doubles: scores
    and a confidence of magnitude at most 2^500, in an array, which has
    fewer than 2^32 elements. *)
Definition moderate (x : Q) : Prop := Binary64.bounded (Binary64.pow2 500) x.

Definition in_range (vulnerabilities : list VulnInput) (confidence : Q) : Prop :=
  Forall (fun v => moderate (cvssOrZero v)) vulnerabilities
  /\ moderate confidence
  /\ (Z.of_nat (List.length vulnerabilities) < 2 ^ 32)%Z.

(** ** The specification's wording of the library score (section 4.8),
    evaluated in doubles:
    base = max(cvssScore) x 10; scale by confidence/100;
    add 15 x criticalCount; multiply by 1.5 with a public exploit;
    clamp to [0, 100]. *)
Definition spec_libraryRisk (vs : list VulnInput) (confidence : Q) (exploit : bool) : Q :=
  let base := Binary64.mul (spec_maxCvss vs) 10 in
  let scaled := Binary64.mul base (Binary64.div confidence 100) in
  let boosted := Binary64.add scaled (Binary64.mul 15 (inject_Z (spec_criticalCount vs))) in
  clamp 0 100 (if exploit then Binary64.mul (3 # 2) boosted else boosted).

End RiskCalculator64.

(* ------------------------------------------------------------------ *)
(** * JavaScript string operations used by the sources *)
(* ------------------------------------------------------------------ *)

Module Str.

Local Open Scope string_scope.

Definition code (c : ascii) : nat := nat_of_ascii c.

(** The class [\s] of regular expressions, which is also what
    [String.prototype.trim] strips, restricted to Latin-1. *)
Definition is_space (c : ascii) : bool :=
  let n := code c in
  (Nat.leb 9 n && Nat.leb n 13) || Nat.eqb n 32 || Nat.eqb n 160.

Definition is_digit (c : ascii) : bool :=
  let n := code c in Nat.leb 48 n && Nat.leb n 57.

(** The class [\w]. *)
Definition is_word (c : ascii) : bool :=
  let n := code c in
  (Nat.leb 48 n && Nat.leb n 57) || (Nat.leb 65 n && Nat.leb n 90)
  || (Nat.leb 97 n && Nat.leb n 122) || Nat.eqb n 95.

(** [toLowerCase] on one Latin-1 code unit. *)
Definition lower (c : ascii) : ascii :=
  let n := code c in
  if (Nat.leb 65 n && Nat.leb n 90)
     || (Nat.leb 192 n && Nat.leb n 222 && negb (Nat.eqb n 215))
  then ascii_of_nat (n + 32) else c.

(** Case folding of a regular expression with the [i] flag: only the
    ASCII letters are identified. *)
Definition fold_case (c : ascii) : ascii :=
  let n := code c in
  if Nat.leb 65 n && Nat.leb n 90 then ascii_of_nat (n + 32) else c.

Fixpoint toLowerCase (s : string) : string :=
  match s with
  | EmptyString => EmptyString
  | String c r => String (lower c) (toLowerCase r)
  end.

Fixpoint trimStart (s : string) : string :=
  match s with
  | String c r => if is_space c then trimStart r else s
  | EmptyString => EmptyString
  end.

(** [trimEnd]: a suffix made of white space only disappears. *)
Fixpoint trimEnd (s : string) : string :=
  match s with
  | EmptyString => EmptyString
  | String c r =>
      match trimEnd r with
      | EmptyString => if is_space c then EmptyString else String c EmptyString
      | r' => String c r'
      end
  end.

Definition trim (s : string) : string := trimEnd (trimStart s).

(** [s.startsWith(p)] *)
Definition startsWith (s p : string) : bool := String.prefix p s.

(** [p] occurs in [s]: the test of a regular expression that is a plain
    literal, and [s.includes(p)]. *)
Fixpoint includes (s p : string) : bool :=
  String.prefix p s
  || match s with
     | EmptyString => false
     | String _ r => includes r p
     end.

(** [p] (given in lower case) is a prefix of [s] up to ASCII case. *)
Fixpoint prefix_ci (p s : string) : bool :=
  match p, s with
  | EmptyString, _ => true
  | String a p', String b s' => Ascii.eqb a (fold_case b) && prefix_ci p' s'
  | String _ _, EmptyString => false
  end.

Fixpoint drop (n : nat) (s : string) : string :=
  match n, s with
  | O, _ => s
  | S n', String _ r => drop n' r
  | S _, EmptyString => EmptyString
  end.

(** [s.split(sep)] for a one-character separator. *)
Fixpoint split_char (sep : ascii) (s : string) : list string :=
  match s with
  | EmptyString => [EmptyString]
  | String c r =>
      if Ascii.eqb c sep then EmptyString :: split_char sep r
      else match split_char sep r with
           | [] => [String c EmptyString]
           | h :: t => String c h :: t
           end
  end.

Definition CR : ascii := ascii_of_nat 13.
Definition LF : ascii := ascii_of_nat 10.

(** [s.split(/\r?\n/)] *)
Fixpoint split_lines (s : string) : list string :=
  match s with
  | EmptyString => [EmptyString]
  | String c r =>
      if Ascii.eqb c LF then EmptyString :: split_lines r
      else
        match r with
        | String c2 r2 =>
            if Ascii.eqb c CR && Ascii.eqb c2 LF then EmptyString :: split_lines r2
            else match split_lines r with
                 | [] => [String c EmptyString]
                 | h :: t => String c h :: t
                 end
        | EmptyString => [String c EmptyString]
        end
  end.

Fixpoint digits_value (acc : Z) (s : string) : Z :=
  match s with
  | String c r =>
      if is_digit c then digits_value (10 * acc + Z.of_nat (code c - 48)) r else acc
  | EmptyString => acc
  end.

(** [parseInt(s, 10)]; [None] is NaN. *)
Definition parseInt (s : string) : option Z :=
  let t := trimStart s in
  let '(neg, body) :=
    match t with
    | String "-" r => (true, r)
    | String "+" r => (false, r)
    | _ => (false, t)
    end in
  match body with
  | String c _ =>
      if is_digit c
      then Some (if neg then - digits_value 0 body else digits_value 0 body)
      else None
  | EmptyString => None
  end.

End Str.

(* ------------------------------------------------------------------ *)
(** * The relational store (src/api/src/database.ts) *)
(* ------------------------------------------------------------------ *)

Module Store.

Inductive ScanStatus := PENDING | RUNNING | COMPLETED | FAILED.

Inductive RiskLevel := LOW | MODERATE | HIGH | CRITICAL.

Definition status_eqb (a b : ScanStatus) : bool :=
  match a, b with
  | PENDING, PENDING | RUNNING, RUNNING
  | COMPLETED, COMPLETED | FAILED, FAILED => true
  | _, _ => false
  end.

Definition level_eqb (a b : RiskLevel) : bool :=
  match a, b with
  | LOW, LOW | MODERATE, MODERATE | HIGH, HIGH | CRITICAL, CRITICAL => true
  | _, _ => false
  end.

(** Row of table [scans].  Identifiers are UUIDs in the source; a UUID
    drawn by [uuidv4()] is modelled by the next value of a counter. *)
Record Scan := mkScan {
  scan_id : Z;
  scan_url : string;
  scan_status : ScanStatus;
  scan_createdAt : Z;
  scan_startedAt : option Z;
  scan_completedAt : option Z;
  scan_globalRiskScore : Z;
  scan_error : option string
}.

Record Vulnerability := mkVulnerability {
  vuln_id : string;
  vuln_severity : RiskLevel;
  vuln_cvssScore : option Q
}.

Record Script := mkScript {
  script_id : option Z;
  script_scanId : Z;
  script_sourceUrl : option string;
  script_isInline : bool;
  script_estimatedVersion : option string;
  script_confidence : Z
}.

Record Library := mkLibrary {
  lib_id : option Z;
  lib_scanId : Z;
  lib_name : string;
  lib_detectedVersion : option string;
  lib_relatedScripts : list string;
  lib_vulnerabilities : list Vulnerability;
  lib_riskScore : Z;
  lib_confidence : option Z
}.

(** A finding; [finding_id] is [None] until the row has been inserted.
    The free-text description and the location object are left out. *)
Record Finding := mkFinding {
  finding_id : option Z;
  finding_scanId : Z;
  finding_type : string;
  finding_title : string;
  finding_severity : RiskLevel;
  finding_evidence : option string
}.

(** Row of table [vulnerability_cache]; [ttl] is a nullable column. *)
Record CacheRow := mkCacheRow {
  cache_packageName : string;
  cache_version : option string;
  cache_vulnerabilities : list Vulnerability;
  cache_lastUpdated : Z;           (* milliseconds *)
  cache_ttl : option Z             (* seconds *)
}.

(** The database.  Tables are lists in insertion order, which is the order
    in which a [SELECT] without [ORDER BY] returns the rows.
    [status_writes] records every value written to a [status] column,
    oldest first. *)
Record DB := mkDB {
  scans : list Scan;
  scripts : list Script;
  libraries : list Library;
  findings : list Finding;
  vulnerability_cache : list CacheRow;
  next_uuid : Z;
  status_writes : list (Z * ScanStatus)
}.

Definition empty : DB := mkDB [] [] [] [] [] 1 [].

Definition set_scans (db : DB) (l : list Scan) : DB :=
  mkDB l (scripts db) (libraries db) (findings db) (vulnerability_cache db)
       (next_uuid db) (status_writes db).

Definition set_cache (db : DB) (l : list CacheRow) : DB :=
  mkDB (scans db) (scripts db) (libraries db) (findings db) l
       (next_uuid db) (status_writes db).

Definition log_status (db : DB) (id : Z) (s : ScanStatus) : DB :=
  mkDB (scans db) (scripts db) (libraries db) (findings db) (vulnerability_cache db)
       (next_uuid db) (status_writes db ++ [(id, s)]).

(** [uuidv4()] *)
Definition uuidv4 (db : DB) : Z * DB :=
  (next_uuid db,
   mkDB (scans db) (scripts db) (libraries db) (findings db) (vulnerability_cache db)
        (next_uuid db + 1) (status_writes db)).

(** A JavaScript string used as a condition. *)
Definition truthy (s : option string) : bool :=
  match s with
  | Some (String _ _) => true
  | _ => false
  end.

(** [createScan]: [INSERT INTO scans ...]; [created_at] defaults to the
    time of the insertion. *)
Definition createScan (db : DB) (url : string) (status : ScanStatus) (now : Z) : Z * DB :=
  let '(id, db) := uuidv4 db in
  let row := mkScan id url status now None None 0 None in
  (id, log_status (set_scans db (scans db ++ [row])) id status).

(** [getScan]: [SELECT * FROM scans WHERE id = $1], first row. *)
Definition getScan (db : DB) (id : Z) : option Scan :=
  find (fun s => Z.eqb (scan_id s) id) (scans db).

Fixpoint insert_desc (s : Scan) (l : list Scan) : list Scan :=
  match l with
  | [] => [s]
  | h :: t =>
      if Z.ltb (scan_createdAt h) (scan_createdAt s) then s :: l
      else h :: insert_desc s t
  end.

(** [ORDER BY created_at DESC] *)
Definition order_by_created_desc (l : list Scan) : list Scan :=
  fold_left (fun acc s => insert_desc s acc) l [].

(** [getRecentScansByUrl]:
    [SELECT * FROM scans WHERE url = $1 ORDER BY created_at DESC LIMIT $2] *)
Definition getRecentScansByUrl (db : DB) (url : string) (limit : nat) : list Scan :=
  firstn limit
    (order_by_created_desc (filter (fun s => String.eqb (scan_url s) url) (scans db))).

(** The [UPDATE scans SET status = $1 ... WHERE id = ...] statement that
    both [updateScanStatus] functions build. *)
Definition update_status_row (status : ScanStatus) (error : option string) (now : Z)
    (s : Scan) : Scan :=
  mkScan (scan_id s) (scan_url s) status (scan_createdAt s)
    (match status with RUNNING => Some now | _ => scan_startedAt s end)
    (match status with COMPLETED | FAILED => Some now | _ => scan_completedAt s end)
    (scan_globalRiskScore s)
    (if truthy error then error else scan_error s).

Definition exists_scan (db : DB) (id : Z) : bool :=
  existsb (fun s => Z.eqb (scan_id s) id) (scans db).

Definition update_status_stmt (db : DB) (id : Z) (status : ScanStatus)
    (error : option string) (now : Z) : DB :=
  let rows :=
    map (fun s => if Z.eqb (scan_id s) id then update_status_row status error now s else s)
        (scans db) in
  if exists_scan db id then log_status (set_scans db rows) id status else db.

(** [Database.updateScanStatus]; [None] is the thrown
    "Scan with id ... not found". *)
Definition updateScanStatus (db : DB) (id : Z) (status : ScanStatus)
    (error : option string) (now : Z) : option DB :=
  if exists_scan db id then Some (update_status_stmt db id status error now) else None.

(** [Database.updateScanRiskScore] *)
Definition updateScanRiskScore (db : DB) (id : Z) (riskScore : Z) : option DB :=
  if exists_scan db id then
    Some (set_scans db
            (map (fun s =>
                    if Z.eqb (scan_id s) id
                    then mkScan (scan_id s) (scan_url s) (scan_status s) (scan_createdAt s)
                           (scan_startedAt s) (scan_completedAt s) riskScore (scan_error s)
                    else s) (scans db)))
  else None.

Definition getLibrariesByScan (db : DB) (scanId : Z) : list Library :=
  filter (fun l => Z.eqb (lib_scanId l) scanId) (libraries db).

Definition getFindingsByScan (db : DB) (scanId : Z) : list Finding :=
  filter (fun f => Z.eqb (finding_scanId f) scanId) (findings db).

Definition getScriptsByScan (db : DB) (scanId : Z) : list Script :=
  filter (fun s => Z.eqb (script_scanId s) scanId) (scripts db).

Definition with_finding_id (f : Finding) (id : Z) : Finding :=
  mkFinding (Some id) (finding_scanId f) (finding_type f) (finding_title f)
            (finding_severity f) (finding_evidence f).

Definition with_lib_id (l : Library) (id : Z) : Library :=
  mkLibrary (Some id) (lib_scanId l) (lib_name l) (lib_detectedVersion l)
            (lib_relatedScripts l) (lib_vulnerabilities l) (lib_riskScore l)
            (lib_confidence l).

Definition with_script_id (s : Script) (id : Z) : Script :=
  mkScript (Some id) (script_scanId s) (script_sourceUrl s) (script_isInline s)
           (script_estimatedVersion s) (script_confidence s).

(** [createFinding]: inserts the row under a fresh identifier. *)
Definition createFinding (db : DB) (f : Finding) : Z * DB :=
  let '(id, db) := uuidv4 db in
  (id, mkDB (scans db) (scripts db) (libraries db) (findings db ++ [with_finding_id f id])
            (vulnerability_cache db) (next_uuid db) (status_writes db)).

Definition insert_library (db : DB) (l : Library) : Z * DB :=
  let '(id, db) := uuidv4 db in
  (id, mkDB (scans db) (scripts db) (libraries db ++ [with_lib_id l id]) (findings db)
            (vulnerability_cache db) (next_uuid db) (status_writes db)).

Definition insert_script (db : DB) (s : Script) : Z * DB :=
  let '(id, db) := uuidv4 db in
  (id, mkDB (scans db) (scripts db ++ [with_script_id s id]) (libraries db) (findings db)
            (vulnerability_cache db) (next_uuid db) (status_writes db)).

(** [createLibrariesBatch]: one identifier per library, in order. *)
Fixpoint createLibrariesBatch (db : DB) (ls : list Library) : list Z * DB :=
  match ls with
  | [] => ([], db)
  | l :: rest =>
      let '(id, db) := insert_library db l in
      let '(ids, db) := createLibrariesBatch db rest in
      (id :: ids, db)
  end.

Fixpoint createScriptsBatch (db : DB) (ss : list Script) : list Z * DB :=
  match ss with
  | [] => ([], db)
  | s :: rest =>
      let '(id, db) := insert_script db s in
      let '(ids, db) := createScriptsBatch db rest in
      (id :: ids, db)
  end.

(** ** Vulnerability cache *)

Definition option_string_eqb (a b : option string) : bool :=
  match a, b with
  | Some x, Some y => String.eqb x y
  | None, None => true
  | _, _ => false
  end.

(** [package_name = $1 AND (version IS NOT DISTINCT FROM $2)] *)
Definition cache_matches (packageName : string) (version : option string)
    (r : CacheRow) : bool :=
  String.eqb (cache_packageName r) packageName
  && option_string_eqb (cache_version r) version.

(** The value [getVulnerabilityCacheEntry] resolves to. *)
Record CacheEntry := mkCacheEntry {
  entry_vulnerabilities : list Vulnerability;
  entry_lastUpdated : Z;
  entry_ttl : Z
}.

(** [getVulnerabilityCacheEntry(packageName, version)] read at time [now]
    (milliseconds): the first selected row, unless it has expired. *)
Definition getVulnerabilityCacheEntry (db : DB) (packageName : string)
    (version : option string) (now : Z) : option CacheEntry :=
  match filter (cache_matches packageName version) (vulnerability_cache db) with
  | [] => None
  | row :: _ =>
      let lastUpdated := cache_lastUpdated row in
      let ttlSeconds := match cache_ttl row with Some t => t | None => 86400 end in
      let expiresAt := lastUpdated + ttlSeconds * 1000 in
      if Z.gtb now expiresAt then None
      else Some (mkCacheEntry (cache_vulnerabilities row) lastUpdated ttlSeconds)
  end.

(** The arbiter of [ON CONFLICT (package_name, version)] is the constraint
    [UNIQUE(package_name, version)]: two rows conflict when both columns are
    equal, and a NULL version is equal to nothing, not even to NULL. *)
Definition cache_conflicts (packageName : string) (version : option string)
    (r : CacheRow) : bool :=
  match version, cache_version r with
  | Some v, Some v' => String.eqb (cache_packageName r) packageName && String.eqb v' v
  | _, _ => false
  end.

(** [upsertVulnerabilityCacheEntry]:
    [INSERT ... VALUES (..., NOW(), $5) ON CONFLICT (package_name, version)
     DO UPDATE SET vulnerabilities = ..., last_updated = NOW(), ttl = ...] *)
Definition upsertVulnerabilityCacheEntry (db : DB) (packageName : string)
    (version : option string) (vulnerabilities : list Vulnerability)
    (ttlSeconds : Z) (now : Z) : DB :=
  let fresh := mkCacheRow packageName version vulnerabilities now (Some ttlSeconds) in
  let rows := vulnerability_cache db in
  if existsb (cache_conflicts packageName version) rows
  then set_cache db
         (map (fun r => if cache_conflicts packageName version r
                        then mkCacheRow (cache_packageName r) (cache_version r)
                               vulnerabilities now (Some ttlSeconds)
                        else r) rows)
  else set_cache db (rows ++ [fresh]).

(** ** The order of the scan lifecycle (section 5) *)

(** pending, then running, then completed or failed. *)
Definition rank (s : ScanStatus) : Z :=
  match s with
  | PENDING => 0
  | RUNNING => 1
  | COMPLETED | FAILED => 2
  end.

Definition terminal (s : ScanStatus) : bool :=
  match s with
  | COMPLETED | FAILED => true
  | _ => false
  end.

(** The status values written to the row of scan [id], oldest first. *)
Definition writes_of (db : DB) (id : Z) : list ScanStatus :=
  map snd (filter (fun w => Z.eqb (fst w) id) (status_writes db)).

(** No write of the sequence moves the status backwards. *)
Fixpoint never_backwards (l : list ScanStatus) : bool :=
  match l with
  | a :: (b :: _) as rest => Z.leb (rank a) (rank b) && never_backwards rest
  | _ => true
  end.

End Store.

(* ------------------------------------------------------------------ *)
(** * Node's [net.isIP] *)
(* ------------------------------------------------------------------ *)

Module Node.

Local Open Scope string_scope.

Fixpoint all_chars (p : ascii -> bool) (s : string) : bool :=
  match s with
  | EmptyString => true
  | String c r => p c && all_chars p r
  end.

Definition is_hex (c : ascii) : bool :=
  let n := Str.code c in
  Str.is_digit c || (Nat.leb 65 n && Nat.leb n 70) || (Nat.leb 97 n && Nat.leb n 102).

(** A decimal octet without leading zero. *)
Definition v4Seg (s : string) : bool :=
  match s with
  | EmptyString => false
  | String c EmptyString => Str.is_digit c
  | String c r =>
      Str.is_digit c && negb (Ascii.eqb c "0") && all_chars Str.is_digit r
      && Nat.leb (String.length s) 3 && Z.leb (Str.digits_value 0 s) 255
  end.

Definition isIPv4 (s : string) : bool :=
  match Str.split_char "." s with
  | [a; b; c; d] => v4Seg a && v4Seg b && v4Seg c && v4Seg d
  | _ => false
  end.

Definition v6Seg (s : string) : bool :=
  Nat.leb 1 (String.length s) && Nat.leb (String.length s) 4 && all_chars is_hex s.

(** Splits at the first occurrence of ["::"]. *)
Fixpoint split_compress (s : string) : option (string * string) :=
  match s with
  | EmptyString => None
  | String c r =>
      if String.prefix "::" s then Some (EmptyString, Str.drop 2 s)
      else match split_compress r with
           | Some (l, t) => Some (String c l, t)
           | None => None
           end
  end.

Definition groups (s : string) : list string :=
  match s with
  | EmptyString => []
  | _ => Str.split_char ":" s
  end.

(** Number of 16-bit groups a tail denotes; the last field may be a dotted
    IPv4 address, which stands for two groups. *)
Fixpoint tail_groups (l : list string) : option nat :=
  match l with
  | [] => Some O
  | [x] => if v6Seg x then Some 1%nat else if isIPv4 x then Some 2%nat else None
  | x :: r =>
      if v6Seg x then option_map S (tail_groups r) else None
  end.

Definition zone_char (c : ascii) : bool :=
  let n := Str.code c in
  Str.is_digit c || (Nat.leb 65 n && Nat.leb n 90) || (Nat.leb 97 n && Nat.leb n 122)
  || Ascii.eqb c "-" || Ascii.eqb c "." || Ascii.eqb c ":".

(** Address and optional zone ["%eth0"]. *)
Fixpoint split_zone (s : string) : string * option string :=
  match s with
  | EmptyString => (EmptyString, None)
  | String c r =>
      if Ascii.eqb c "%" then (EmptyString, Some r)
      else let '(a, z) := split_zone r in (String c a, z)
  end.

Definition isIPv6 (s : string) : bool :=
  let '(addr, zone) := split_zone s in
  match zone with
  | Some z => negb (String.eqb z "") && all_chars zone_char z
  | None => true
  end
  &&
  match split_compress addr with
  | None =>
      match tail_groups (groups addr) with
      | Some n => Nat.eqb n 8
      | None => false
      end
  | Some (l, r) =>
      forallb v6Seg (groups l)
      && match tail_groups (groups r) with
         | Some n => Nat.leb (List.length (groups l) + n) 7
         | None => false
         end
  end.

(** [net.isIP(input)]: 4, 6 or 0. *)
Definition isIP (s : string) : Z :=
  if isIPv4 s then 4 else if isIPv6 s then 6 else 0.

Definition hex_digit (c : ascii) : Z :=
  let n := Z.of_nat (Str.code c) in
  if Str.is_digit c then n - 48 else if Z.leb n 70 then n - 55 else n - 87.

Fixpoint hex_value (acc : Z) (s : string) : Z :=
  match s with
  | EmptyString => acc
  | String c r => hex_value (16 * acc + hex_digit c) r
  end.

(** The eight 16-bit groups denoted by the text of an IPv6 address that is
    written with hexadecimal groups only. *)
Definition parse_ipv6 (s : string) : option (list Z) :=
  let addr := fst (split_zone s) in
  if isIPv6 s then
    match split_compress addr with
    | None =>
        if forallb v6Seg (groups addr)
        then Some (map (hex_value 0) (groups addr)) else None
    | Some (l, r) =>
        if forallb v6Seg (groups r) then
          let gl := map (hex_value 0) (groups l) in
          let gr := map (hex_value 0) (groups r) in
          Some (gl ++ repeat 0 (8 - List.length gl - List.length gr) ++ gr)%list
        else None
    end
  else None.

End Node.

(* ------------------------------------------------------------------ *)
(** * SSRF defence (security/url-validator.ts) *)
(* ------------------------------------------------------------------ *)

Module UrlValidator.

Local Open Scope string_scope.

(** The fields of a WHATWG [URL] object the sources read. *)
Record URL := mkURL {
  url_protocol : string;
  url_hostname : string
}.

(** Outcome of [dns.promises.lookup(hostname, { all: true })]: the
    addresses of the records, or the [code] of the error it rejects with. *)
Inductive LookupResult :=
| Addresses (records : list string)
| LookupError (code : string).

(** The network as the validator sees it: the URL parser and the resolver. *)
Record Net := mkNet {
  new_URL : string -> option URL;
  dns_lookup : string -> LookupResult
}.

Definition msg_invalid := "Invalid URL".
Definition msg_protocol := "Unsupported URL protocol".
Definition msg_local := "Access to local addresses is not allowed".
Definition msg_private :=
  "Access to private or internal network addresses is not allowed".
Definition msg_resolve (hostname : string) :=
  "Failed to resolve target host: " ++ hostname.
Definition msg_validate := "Failed to validate target URL".

Definition isPrivateIp (ip : string) : bool :=
  let kind := Node.isIP ip in
  if Z.eqb kind 4 then
    let octets := map Str.parseInt (Str.split_char "." ip) in
    if negb (Nat.eqb (List.length octets) 4)
       || existsb (fun n => match n with None => true | Some _ => false end) octets
    then false
    else
      match octets with
      | Some o1 :: Some o2 :: _ =>
          if Z.eqb o1 10 then true
          else if Z.eqb o1 127 then true
          else if Z.eqb o1 169 && Z.eqb o2 254 then true
          else if Z.eqb o1 192 && Z.eqb o2 168 then true
          else if Z.eqb o1 172 && Z.leb 16 o2 && Z.leb o2 31 then true
          else false
      | _ => false
      end
  else if Z.eqb kind 6 then
    let lower := Str.toLowerCase ip in
    if String.eqb lower "::1" then true
    else if Str.startsWith lower "fc" || Str.startsWith lower "fd" then true
    else if Str.startsWith lower "fe80" then true
    else false
  else false.

(** [validateTargetUrl(rawUrl)]: the parsed URL, or the message of the
    error thrown. *)
Definition validateTargetUrl (net : Net) (rawUrl : string) : string + URL :=
  match new_URL net rawUrl with
  | None => inl msg_invalid
  | Some parsed =>
      let protocol := Str.toLowerCase (url_protocol parsed) in
      if negb (String.eqb protocol "http:") && negb (String.eqb protocol "https:")
      then inl msg_protocol
      else
        let hostname := Str.toLowerCase (url_hostname parsed) in
        if String.eqb hostname "localhost" || String.eqb hostname "127.0.0.1"
           || String.eqb hostname "::1"
        then inl msg_local
        else
          match dns_lookup net hostname with
          | Addresses records =>
              if existsb isPrivateIp records then inl msg_private else inr parsed
          | LookupError code =>
              if String.eqb code "ENOTFOUND" || String.eqb code "EAI_AGAIN"
              then inl (msg_resolve hostname)
              else inl msg_validate
          end
  end.

(** ** The address ranges of the specification, on numeric addresses *)

(** The text [inet_ntop] gives an IPv4 address, which is what the resolver
    returns. *)
Definition digit (n : Z) : ascii := ascii_of_nat (48 + Z.to_nat n).

Definition decimal (n : Z) : string :=
  if Z.ltb n 10 then String (digit n) ""
  else if Z.ltb n 100 then String (digit (n / 10)) (String (digit (n mod 10)) "")
  else String (digit (n / 100))
         (String (digit ((n / 10) mod 10)) (String (digit (n mod 10)) "")).

Definition dotted (o1 o2 o3 o4 : Z) : string :=
  decimal o1 ++ "." ++ decimal o2 ++ "." ++ decimal o3 ++ "." ++ decimal o4.

(** 10/8, 127/8, 169.254/16, 172.16/12, 192.168/16 *)
Definition spec_private_v4 (o1 o2 : Z) : bool :=
  Z.eqb o1 10 || Z.eqb o1 127 || (Z.eqb o1 169 && Z.eqb o2 254)
  || (Z.eqb o1 172 && Z.eqb (Z.shiftr o2 4) 1)
  || (Z.eqb o1 192 && Z.eqb o2 168).

(** ::1, fc00::/7, fe80::/10, on the eight 16-bit groups of an address. *)
Definition spec_private_v6 (groups : list Z) : bool :=
  match groups with
  | g0 :: rest =>
      Z.eqb (Z.land g0 65024) 64512          (* fc00::/7  : mask fe00 *)
      || Z.eqb (Z.land g0 65472) 65152       (* fe80::/10 : mask ffc0 *)
      || (Z.eqb g0 0 && match rest with
                        | [0; 0; 0; 0; 0; 0; 1] => true
                        | _ => false
                        end)
  | [] => false
  end.

End UrlValidator.

(* ------------------------------------------------------------------ *)
(** * The scan queue as the API reads it (src/api/src/queue.ts) *)
(* ------------------------------------------------------------------ *)

Module TaskQueue.

Local Open Scope string_scope.

(** [TaskResult { scanId, success, artifacts }], the value a render job
    returns. *)
Record TaskResult := mkTaskResult {
  result_success : bool
}.

(** A job of [scan-queue]; [job_state] is what [job.getState()] answers. *)
Record Job := mkJob {
  job_id : Z;
  job_state : string;
  job_progress : Z;
  job_returnvalue : option TaskResult;
  job_failedReason : option string
}.

(** An entry of the dead-letter queue, as returned by
    [deadLetterQueue.getJobs(['completed', 'failed'], 0, 100)]. *)
Record DeadJob := mkDeadJob {
  dead_scanId : Z;
  dead_error : option string
}.

Record Queue := mkQueue {
  scanQueue : list Job;
  deadLetterQueue : list DeadJob
}.

Record JobStatus := mkJobStatus {
  js_status : string;
  js_progress : Z;
  js_result : option TaskResult;
  js_error : option string
}.

Definition getJob (q : Queue) (scanId : Z) : option Job :=
  find (fun j => Z.eqb (job_id j) scanId) (scanQueue q).

Definition getScanJobStatus (q : Queue) (scanId : Z) : option JobStatus :=
  match getJob q scanId with
  | None =>
      match find (fun j => Z.eqb (dead_scanId j) scanId) (deadLetterQueue q) with
      | Some deadJob => Some (mkJobStatus "dead-letter" 100 None (dead_error deadJob))
      | None => None
      end
  | Some job =>
      let state := job_state job in
      let result := if String.eqb state "completed" then job_returnvalue job else None in
      let error :=
        if String.eqb state "completed" then None
        else if String.eqb state "failed" then job_failedReason job else None in
      Some (mkJobStatus state (job_progress job) result error)
  end.

(** [addScanJob(task)]: [scanQueue.add('scan', task, { jobId: task.scanId,
    delay: 0, ... })].  A job whose identifier is already in the queue is
    not added a second time. *)
Definition addScanJob (q : Queue) (scanId : Z) : Queue :=
  match getJob q scanId with
  | Some _ => q
  | None =>
      mkQueue (scanQueue q ++ [mkJob scanId "waiting" 0 None None]) (deadLetterQueue q)
  end.

End TaskQueue.

(* ------------------------------------------------------------------ *)
(** * Scan routes (src/api/src/routes/scans.ts) *)
(* ------------------------------------------------------------------ *)

Module ScanRoutes.

Import Store TaskQueue UrlValidator.
Local Open Scope string_scope.

(** The state the routes act on. *)
Record App := mkApp {
  database : DB;
  taskQueue : Queue
}.

(** Body of [POST /api/scans], restricted to the fields with a constraint
    in [ScanRequestSchema]. *)
Record ScanRequest := mkScanRequest {
  req_url : option string;
  req_scanType : option string;
  req_options_timeout : option Z;
  req_options_depth : option Z
}.

(** [ScanRequestSchema.safeParse(req.body).success] *)
Definition schema_ok (net : Net) (r : ScanRequest) : bool :=
  match req_url r with
  | Some u => match new_URL net u with Some _ => true | None => false end
  | None => false
  end
  && match req_scanType r with
     | Some t => String.eqb t "basic" || String.eqb t "comprehensive"
                 || String.eqb t "ai-enhanced"
     | None => true
     end
  && match req_options_timeout r with
     | Some t => Z.leb 1 t && Z.leb t 3600
     | None => true
     end
  && match req_options_depth r with
     | Some d => Z.leb 0 d && Z.leb d 10
     | None => true
     end.

Inductive CreateResponse :=
| Created (id : Z) (status : ScanStatus) (url : string)            (* 201 *)
| InvalidParameters                                                (* 400 *)
| DisallowedTarget (details : string)                              (* 400 *)
| TooManyScans (retryAfterSeconds : Z).                            (* 429 *)

Definition http_status (r : CreateResponse) : Z :=
  match r with
  | Created _ _ _ => 201
  | InvalidParameters => 400
  | DisallowedTarget _ => 400
  | TooManyScans _ => 429
  end.

(** [parseInt(process.env.SCAN_URL_COOLDOWN_SECONDS || '30', 10) || 30] *)
Definition cooldownSeconds (env : option string) : Z :=
  let text := if Store.truthy env
              then match env with Some s => s | None => "30" end
              else "30" in
  match Str.parseInt text with
  | Some 0 | None => 30
  | Some n => n
  end.

(** The per-URL cooldown check: [Some retryAfter] when the request is to
    be refused. *)
Definition cooldown_check (db : DB) (env : option string) (url : string) (now : Z)
    : option Z :=
  let cooldown := cooldownSeconds env in
  if Z.ltb 0 cooldown then
    match getRecentScansByUrl db url 1 with
    | latest :: _ =>
        let diffSeconds := ((now - scan_createdAt latest) # 1000)%Q in
        if Qlt_le_dec diffSeconds (inject_Z cooldown)
        then Some (JS.Math_ceil (inject_Z cooldown - diffSeconds)%Q)
        else None
    | [] => None
    end
  else None.

(** [createScan]: [POST /api/scans] at time [now] (milliseconds). *)
Definition createScan (net : Net) (env : option string) (app : App)
    (body : ScanRequest) (now : Z) : App * CreateResponse :=
  if negb (schema_ok net body) then (app, InvalidParameters)
  else
    let url := match req_url body with Some u => u | None => "" end in
    match validateTargetUrl net url with
    | inl message => (app, DisallowedTarget message)
    | inr _ =>
        match cooldown_check (database app) env url now with
        | Some retryAfter => (app, TooManyScans retryAfter)
        | None =>
            let '(scanId, db) := Store.createScan (database app) url PENDING now in
            let q := addScanJob (taskQueue app) scanId in
            (mkApp db q, Created scanId PENDING url)
        end
    end.

(** ** [GET /api/scans/:id/status] *)

Record StatusResponse := mkStatusResponse {
  resp_status : ScanStatus;
  resp_progress : Z;
  resp_stage : string;
  resp_error : option string
}.

(** The status the queue state is overlaid as. *)
Definition effective_status (scan_status : ScanStatus) (jobStatus : option JobStatus)
    : ScanStatus :=
  match jobStatus with
  | None => scan_status
  | Some js =>
      let state := js_status js in
      if String.eqb state "active" || String.eqb state "waiting"
         || String.eqb state "delayed"
      then RUNNING
      else if String.eqb state "completed" then
        match js_result js with
        | Some r => if negb (result_success r) then FAILED else COMPLETED
        | None => COMPLETED
        end
      else if String.eqb state "failed" || String.eqb state "dead-letter" then FAILED
      else scan_status
  end.

Definition or_else (a b : option string) : option string :=
  if Store.truthy a then a else b.

Definition stage_of (scan_status effectiveStatus : ScanStatus)
    (jobStatus : option JobStatus) (progress : Z) : string :=
  match effectiveStatus with
  | COMPLETED => "completed"
  | FAILED => "failed"
  | _ =>
      match jobStatus with
      | Some js =>
          let state := js_status js in
          if String.eqb state "waiting" || String.eqb state "delayed" then "queued"
          else if String.eqb state "active" then
            if Z.ltb progress 10 then "initializing"
            else if Z.ltb progress 40 then "rendering"
            else if Z.ltb progress 70 then "fetching_scripts"
            else if Z.ltb progress 85 then "dispatching_analysis"
            else if Z.ltb progress 95 then "analyzing"
            else "saving_results"
          else if String.eqb state "completed" then "completed"
          else if String.eqb state "failed" || String.eqb state "dead-letter" then "failed"
          else "queued"
      | None =>
          match scan_status with
          | RUNNING => "analyzing"
          | _ => "queued"
          end
      end
  end.

(** [getScanStatus]; [None] is the 404 answer. *)
Definition getScanStatus (app : App) (id : Z) (now : Z) : App * option StatusResponse :=
  match getScan (database app) id with
  | None => (app, None)
  | Some scan =>
      let jobStatus :=
        match scan_status scan with
        | PENDING | RUNNING => getScanJobStatus (taskQueue app) id
        | _ => None
        end in
      let effectiveStatus := effective_status (scan_status scan) jobStatus in
      let db :=
        if negb (status_eqb effectiveStatus (scan_status scan))
           && (status_eqb effectiveStatus RUNNING || status_eqb effectiveStatus COMPLETED
               || status_eqb effectiveStatus FAILED)
        then
          let result := match jobStatus with Some js => js_result js | None => None end in
          let error :=
            or_else (scan_error scan)
              (or_else (match jobStatus with Some js => js_error js | None => None end)
                 (match result with
                  | Some r => if negb (result_success r)
                              then Some "Worker reported failure" else None
                  | None => None
                  end)) in
          match updateScanStatus (database app) id effectiveStatus error now with
          | Some db' => db'
          | None => database app
          end
        else database app in
      let progress :=
        match jobStatus with
        | Some js => js_progress js
        | None =>
            match effectiveStatus with
            | COMPLETED | FAILED => 100
            | _ => 0
            end
        end in
      let stage := stage_of (scan_status scan) effectiveStatus jobStatus progress in
      (mkApp db (taskQueue app),
       Some (mkStatusResponse effectiveStatus progress stage
               (or_else (scan_error scan)
                  (match jobStatus with Some js => js_error js | None => None end))))
  end.

(** ** The overlay as the specification words it (section 4.1) *)

Definition one_of (names : list string) (s : string) : bool :=
  existsb (String.eqb s) names.

(** [queueState] is the state of the scan's queue job, if there is one,
    and [workerSuccess] the [success] field of the result it returned. *)
Definition spec_overlay (dbStatus : ScanStatus) (queueState : option string)
    (workerSuccess : option bool) : ScanStatus :=
  match queueState with
  | None => dbStatus
  | Some state =>
      if one_of ["waiting"; "delayed"; "active"] state then RUNNING
      else if one_of ["completed"] state then
        match workerSuccess with
        | Some false => FAILED
        | _ => COMPLETED
        end
      else if one_of ["failed"; "dead-letter"] state then FAILED
      else dbStatus
  end.

Definition queue_state (q : Queue) (id : Z) : option string :=
  option_map js_status (getScanJobStatus q id).

Definition worker_success (q : Queue) (id : Z) : option bool :=
  match getScanJobStatus q id with
  | Some js => option_map result_success (js_result js)
  | None => None
  end.

End ScanRoutes.

(* ------------------------------------------------------------------ *)
(** * Analysis worker (src/analyzer/src/worker.ts) *)
(* ------------------------------------------------------------------ *)

Module AnalysisWorker.

Import Store.
Local Open Scope string_scope.

(** What steps 1 to 8 of [processAnalysisTask] compute from the task's
    artifacts before anything is saved: the script, library and finding
    objects and the global risk score. *)
Record Analysis := mkAnalysis {
  an_scripts : list Script;
  an_libraries : list Library;
  an_findings : list Finding;
  an_riskScore : Q
}.

(** Either that, or the message of an exception raised on the way
    (a rolled-back save included). *)
Inductive Computed :=
| Analysed (a : Analysis)
| Thrown (message : string).

(** The worker's private [updateScanStatus]: the same [UPDATE] as the
    API's, without the row-count check. *)
Definition updateScanStatus (db : DB) (scanId : Z) (status : ScanStatus)
    (error : option string) (now : Z) : DB :=
  update_status_stmt db scanId status error now.

Fixpoint insert_findings (db : DB) (fs : list Finding) : DB :=
  match fs with
  | [] => db
  | f :: rest => insert_findings (snd (createFinding db f)) rest
  end.

(** [saveEnhancedAnalysisResults]: one transaction inserting the scripts,
    the libraries and the findings and setting [global_risk_score]. *)
Definition saveEnhancedAnalysisResults (db : DB) (scanId : Z) (a : Analysis) : DB :=
  let db := snd (createScriptsBatch db (an_scripts a)) in
  let db := snd (createLibrariesBatch db (an_libraries a)) in
  let db := insert_findings db (an_findings a) in
  match updateScanRiskScore db scanId (JS.Math_round (an_riskScore a)) with
  | Some db' => db'
  | None => db
  end.

(** [processAnalysisTask(task)], started at [t0] and finished at [t1]. *)
Definition processAnalysisTask (db : DB) (scanId : Z) (computed : Computed)
    (t0 t1 : Z) : DB :=
  let db := updateScanStatus db scanId RUNNING None t0 in
  match computed with
  | Analysed a =>
      let db := saveEnhancedAnalysisResults db scanId a in
      updateScanStatus db scanId COMPLETED None t1
  | Thrown message =>
      updateScanStatus db scanId FAILED (Some message) t1
  end.

(** One turn of [startTaskProcessor] on a delivered task: a task whose scan
    holds a processing slot is pushed back on the queue ([None]); otherwise
    [processTaskWithSafeguards] takes the slot, runs the task and frees the
    slot again. *)
Definition deliver (processingTasks : list Z) (db : DB) (scanId : Z)
    (computed : Computed) (t0 t1 : Z) : option (list Z * DB) :=
  if existsb (Z.eqb scanId) processingTasks then None
  else
    let slots := scanId :: processingTasks in
    let db := processAnalysisTask db scanId computed t0 t1 in
    Some (filter (fun s => negb (Z.eqb s scanId)) slots, db).

End AnalysisWorker.

(* ------------------------------------------------------------------ *)
(** * Minimal analyzer (src/api/src/minimal/analyzer.ts) *)
(* ------------------------------------------------------------------ *)

Module MinimalAnalyzer.

Import Store UrlValidator.
Local Open Scope string_scope.

(** ** Regular expressions of the header analysis *)

(** [/p/i.test(s)] for a literal [p] given in lower case. *)
Fixpoint test_ci (p s : string) : bool :=
  Str.prefix_ci p s
  || match s with
     | EmptyString => false
     | String _ r => test_ci p r
     end.

(** [/^p$/i.test(s)] for a literal [p] given in lower case. *)
Fixpoint exact_ci (p s : string) : bool :=
  match p, s with
  | EmptyString, EmptyString => true
  | String a p', String b s' => Ascii.eqb a (Str.fold_case b) && exact_ci p' s'
  | _, _ => false
  end.

Fixpoint skip_spaces (s : string) : string :=
  match s with
  | String c r => if Str.is_space c then skip_spaces r else s
  | EmptyString => EmptyString
  end.

(** Word boundary [\b] after a word character: the rest is empty or starts
    with a character outside [\w]. *)
Definition word_end (rest : string) : bool :=
  match rest with
  | EmptyString => true
  | String c _ => negb (Str.is_word c)
  end.

(** [/;\s*attr\b/i.test(s)] when [boundary], [/;\s*attr/i.test(s)]
    otherwise; [attr] is given in lower case. *)
Fixpoint has_attribute (attr : string) (boundary : bool) (s : string) : bool :=
  match s with
  | EmptyString => false
  | String c r =>
      (Ascii.eqb c ";"
       && Str.prefix_ci attr (skip_spaces r)
       && (negb boundary
           || word_end (Str.drop (String.length attr) (skip_spaces r))))
      || has_attribute attr boundary r
  end.

(** ** Cookie analysis (lines 541-585) *)

Definition title_sensitive_cookie :=
  "Sensitive session/auth cookie missing security flags".
Definition title_generic_cookie := "Cookie missing Secure/HttpOnly flags".

Definition sensitive_cookie_finding (scanId : Z) (evidence : string) : Finding :=
  mkFinding None scanId "SECURITY_COOKIE" title_sensitive_cookie HIGH (Some evidence).

Definition generic_cookie_finding (scanId : Z) (evidence : string) : Finding :=
  mkFinding None scanId "SECURITY_COOKIE" title_generic_cookie MODERATE (Some evidence).

(** State of the loop over the raw cookies: the two flags and the
    findings pushed so far. *)
Record CookieState := mkCookieState {
  reportedSensitiveCookie : bool;
  reportedGenericCookie : bool;
  pushed : list Finding
}.

(** Body of the loop for one raw cookie, up to the [break] test. *)
Definition cookie_body (scanId : Z) (st : CookieState) (raw : string) : CookieState :=
  let trimmed := Str.trim raw in
  let lower := Str.toLowerCase trimmed in
  let isSensitive :=
    Str.includes lower "session" || Str.includes lower "auth"
    || Str.includes lower "token" || Str.includes lower "jwt" in
  let hasSecure := has_attribute "secure" true trimmed in
  let hasHttpOnly := has_attribute "httponly" true trimmed in
  let hasSameSite := has_attribute "samesite=" false trimmed in
  if isSensitive && (negb hasSecure || negb hasHttpOnly || negb hasSameSite)
     && negb (reportedSensitiveCookie st)
  then mkCookieState true (reportedGenericCookie st)
         (pushed st ++ [sensitive_cookie_finding scanId trimmed])
  else if negb isSensitive && (negb hasSecure || negb hasHttpOnly)
          && negb (reportedGenericCookie st)
  then mkCookieState (reportedSensitiveCookie st) true
         (pushed st ++ [generic_cookie_finding scanId trimmed])
  else st.

(** [for (const raw of rawCookies) { ... }] with its [continue] and
    [break]. *)
Fixpoint cookie_loop (scanId : Z) (st : CookieState) (rawCookies : list string)
    : CookieState :=
  match rawCookies with
  | [] => st
  | raw :: rest =>
      if String.eqb (Str.trim raw) "" then cookie_loop scanId st rest
      else
        let st' := cookie_body scanId st raw in
        if reportedSensitiveCookie st' && reportedGenericCookie st' then st'
        else cookie_loop scanId st' rest
  end.

(** The findings the [Set-Cookie] block pushes. *)
Definition cookieFindings (scanId : Z) (setCookie : option string) : list Finding :=
  match setCookie with
  | Some (String _ _ as value) =>
      pushed (cookie_loop scanId (mkCookieState false false []) (Str.split_lines value))
  | _ => []
  end.

(** ** The other response-header checks (lines 460-540, 587-701) *)

(** [headers[name]] on the lower-cased header object: of two entries with
    one name the later one is kept. *)
Definition header (headers : list (string * string)) (name : string) : option string :=
  match find (fun kv => String.eqb (Str.toLowerCase (fst kv)) name) (rev headers) with
  | Some kv => Some (snd kv)
  | None => None
  end.

Definition header_finding (scanId : Z) (title : string) (severity : RiskLevel)
    (evidence : option string) : list Finding :=
  [mkFinding None scanId "SECURITY_HEADER" title severity evidence].

Definition value (o : option string) : string :=
  match o with Some s => s | None => "" end.

Definition headerFindings (scanId : Z) (pageProtocol : option string)
    (headers : list (string * string)) : list Finding :=
  let isHttps := String.eqb (Str.toLowerCase (value pageProtocol)) "https:" in
  let csp := header headers "content-security-policy" in
  let hsts := header headers "strict-transport-security" in
  let xfo := header headers "x-frame-options" in
  let xcto := header headers "x-content-type-options" in
  let referrerPolicy := header headers "referrer-policy" in
  let permissionsPolicy := header headers "permissions-policy" in
  let coop := header headers "cross-origin-opener-policy" in
  let coep := header headers "cross-origin-embedder-policy" in
  let corp := header headers "cross-origin-resource-policy" in
  let acao := header headers "access-control-allow-origin" in
  let acac := header headers "access-control-allow-credentials" in
  (if negb (truthy csp)
   then header_finding scanId "Missing Content-Security-Policy header" MODERATE None
   else if test_ci "unsafe-inline" (value csp) || test_ci "unsafe-eval" (value csp)
   then header_finding scanId "Weak Content-Security-Policy configuration" HIGH csp
   else [])
  ++ (if isHttps && negb (truthy hsts)
      then header_finding scanId "Missing Strict-Transport-Security header" HIGH None
      else [])
  ++ (if negb (truthy xfo)
      then header_finding scanId "Missing X-Frame-Options header" MODERATE None
      else if negb (exact_ci "deny" (value xfo) || exact_ci "sameorigin" (value xfo))
      then header_finding scanId "Weak X-Frame-Options configuration" MODERATE xfo
      else [])
  ++ (if negb (truthy xcto)
         || negb (String.eqb (Str.toLowerCase (value xcto)) "nosniff")
      then header_finding scanId "Missing or weak X-Content-Type-Options header"
             MODERATE xcto
      else [])
  ++ cookieFindings scanId (header headers "set-cookie")
  ++ (if negb (truthy referrerPolicy)
      then header_finding scanId "Missing Referrer-Policy header" MODERATE None
      else if test_ci "unsafe-url" (value referrerPolicy)
              || test_ci "no-referrer-when-downgrade" (value referrerPolicy)
      then header_finding scanId "Weak Referrer-Policy configuration" MODERATE
             referrerPolicy
      else [])
  ++ (if negb (truthy permissionsPolicy)
      then header_finding scanId "Missing Permissions-Policy header" LOW None
      else [])
  ++ (if isHttps && (negb (truthy coop) || negb (test_ci "same-origin" (value coop)))
      then header_finding scanId "Missing or weak Cross-Origin-Opener-Policy (COOP)"
             LOW coop
      else [])
  ++ (if isHttps && negb (truthy coep)
      then header_finding scanId "Missing Cross-Origin-Embedder-Policy (COEP)" LOW coep
      else [])
  ++ (if isHttps && negb (truthy corp)
      then header_finding scanId "Missing Cross-Origin-Resource-Policy (CORP)" LOW corp
      else [])
  ++ (if truthy acao then
        let originValue := Str.trim (value acao) in
        let credentialsTrue :=
          match acac with
          | Some a => String.eqb (Str.toLowerCase a) "true"
          | None => false
          end in
        if (String.eqb originValue "*" || String.eqb originValue "*,*") && credentialsTrue
        then header_finding scanId
               "Insecure CORS configuration: wildcard origin with credentials" HIGH
               (Some ("Access-Control-Allow-Origin: " ++ originValue
                      ++ "; Access-Control-Allow-Credentials: " ++ value acac))
        else if String.eqb originValue "*"
        then header_finding scanId "Permissive CORS configuration: wildcard origin"
               MODERATE acao
        else []
      else []).

(** ** What the regular-expression passes extract from the page *)

(** One external script source (lines 712-741): the source as written, the
    library name and version read off its URL, and the three flags. *)
Record ScriptFacts := mkScriptFacts {
  sf_src : string;
  sf_name : string;
  sf_detectedVersion : option string;
  sf_isThirdParty : bool;
  sf_isInsecure : bool;
  sf_hasIntegrity : bool
}.

(** A fetched page: the response headers, the findings of the inline
    scripts and of [analyzeHtmlSurface], and the external scripts (at most
    20, without duplicates). *)
Record Page := mkPage {
  page_headers : list (string * string);
  page_htmlFindings : list Finding;
  page_scripts : list ScriptFacts
}.

(** A record of the OSV answer; [osv_score] is the number
    [parseFloat(v.severity[0].score)] when there is one. *)
Record OsvVulnerability := mkOsv {
  osv_id : string;
  osv_score : option Q
}.

(** The outside world of the analyzer. *)
Record World := mkWorld {
  net : Net;
  fetch : string -> option Page;              (* [None]: error or not [ok] *)
  osv : string -> option string -> list OsvVulnerability;
  VULN_CACHE_TTL_SECONDS : Z
}.

(** [fetchHtml(url)] *)
Definition fetchHtml (w : World) (url : string) : option Page :=
  match validateTargetUrl (net w) url with
  | inl _ => None
  | inr _ => fetch w url
  end.

(** The severity label both enrichment branches derive from a score. *)
Definition sevStr (cvssScore : option Q) : string :=
  match cvssScore with
  | None => "MEDIUM"
  | Some c =>
      if Qle_bool 9 c then "CRITICAL"
      else if Qle_bool 7 c then "HIGH"
      else if Qle_bool 4 c then "MEDIUM"
      else "LOW"
  end.

Definition severityLevel (s : string) : RiskLevel :=
  if String.eqb s "CRITICAL" then CRITICAL
  else if String.eqb s "HIGH" then HIGH
  else if String.eqb s "LOW" then LOW
  else MODERATE.

Definition riskInput (cvssScore : option Q) : RiskCalculator.VulnInput :=
  RiskCalculator.mkVuln cvssScore (sevStr cvssScore).

Definition confidenceOr50 (l : Library) : Q :=
  match lib_confidence l with
  | Some c => inject_Z c
  | None => 50
  end.

Definition set_vulnerabilities (l : Library) (vs : list Vulnerability)
    (riskScore : Z) : Library :=
  mkLibrary (lib_id l) (lib_scanId l) (lib_name l) (lib_detectedVersion l)
            (lib_relatedScripts l) vs riskScore (lib_confidence l).

(** The library score both branches store:
    [Math.round(RiskCalculator.calculateLibraryRisk(inputs, confidence, false))],
    computed in doubles. *)
Definition enrichedRiskScore (l : Library) (inputs : list RiskCalculator.VulnInput) : Z :=
  JS.Math_round (RiskCalculator64.calculateLibraryRisk inputs (confidenceOr50 l) false).

(** Body of the enrichment loop (lines 856-956) for one library. *)
Definition enrichLibrary (w : World) (now : Z) (db : DB) (lib : Library) : DB * Library :=
  let versionKey := if truthy (lib_detectedVersion lib) then lib_detectedVersion lib
                    else None in
  let cachedVulns :=
    match getVulnerabilityCacheEntry db (lib_name lib) versionKey now with
    | Some cached => entry_vulnerabilities cached
    | None => []
    end in
  match cachedVulns with
  | _ :: _ =>
      let riskInputsFromCache := map (fun v => riskInput (vuln_cvssScore v)) cachedVulns in
      (db, set_vulnerabilities lib (lib_vulnerabilities lib ++ cachedVulns)%list
             (enrichedRiskScore lib riskInputsFromCache))
  | [] =>
      let osvVulns :=
        if String.eqb (lib_name lib) "" then []
        else osv w (lib_name lib) versionKey in
      match osvVulns with
      | [] => (db, lib)
      | _ :: _ =>
          let riskInputs := map (fun v => riskInput (osv_score v)) osvVulns in
          let newVulns :=
            (lib_vulnerabilities lib
             ++ map (fun v => mkVulnerability (osv_id v)
                                (severityLevel (sevStr (osv_score v))) (osv_score v))
                    osvVulns)%list in
          (upsertVulnerabilityCacheEntry db (lib_name lib) versionKey newVulns
             (VULN_CACHE_TTL_SECONDS w) now,
           set_vulnerabilities lib newVulns (enrichedRiskScore lib riskInputs))
      end
  end.

Fixpoint enrichLibraries (w : World) (now : Z) (db : DB) (libs : list Library)
    : DB * list Library :=
  match libs with
  | [] => (db, [])
  | l :: rest =>
      let '(db, l') := enrichLibrary w now db l in
      let '(db, rest') := enrichLibraries w now db rest in
      (db, l' :: rest')
  end.

(** The library and script objects built for one source (lines 743-813). *)
Definition scriptConfidence (s : ScriptFacts) : Z :=
  if sf_isThirdParty s || sf_isInsecure s then 70 else 50.

Definition libraryOf (scanId : Z) (s : ScriptFacts) : Library :=
  let vulnerabilities :=
    ((if sf_isThirdParty s
      then [mkVulnerability "MINIMAL-THIRD-PARTY-SCRIPT" MODERATE None] else [])
     ++ (if sf_isInsecure s
         then [mkVulnerability "MINIMAL-INSECURE-HTTP-SCRIPT" HIGH None] else []))%list in
  let riskScore := 10 + (if sf_isThirdParty s then 30 else 0)
                      + (if sf_isInsecure s then 40 else 0) in
  let riskScore := if Z.gtb riskScore 100 then 100 else riskScore in
  mkLibrary None scanId (sf_name s) (sf_detectedVersion s) [sf_src s]
            vulnerabilities riskScore (Some (scriptConfidence s)).

Definition scriptOf (scanId : Z) (s : ScriptFacts) : Script :=
  mkScript None scanId (Some (sf_src s)) false (sf_detectedVersion s)
           (scriptConfidence s).

Definition integrityFindings (scanId : Z) (ss : list ScriptFacts) : list Finding :=
  flat_map (fun s =>
    if sf_isThirdParty s && negb (sf_isInsecure s) && negb (sf_hasIntegrity s)
    then [mkFinding None scanId "SCRIPT_INTEGRITY"
            "Missing Subresource Integrity (SRI) for third-party script" MODERATE
            (Some (sf_src s))]
    else []) ss.

Fixpoint with_ids (ls : list Library) (ids : list Z) : list Library :=
  match ls, ids with
  | l :: ls', i :: ids' => with_lib_id l i :: with_ids ls' ids'
  | _, _ => []
  end.

Fixpoint join (sep : string) (l : list string) : string :=
  match l with
  | [] => ""
  | [x] => x
  | x :: r => x ++ sep ++ join sep r
  end.

(** [examples.slice(0, 5).join(', ') || undefined] *)
Definition examples (l : list string) : option string :=
  match join ", " (firstn 5 l) with
  | "" => None
  | s => Some s
  end.

(** The value handed to [updateScanRiskScore] (lines 1001-1011). *)
Definition globalRiskOf (libraries : list Library) (findings : list Finding) : Z :=
  let libraryRisks := map (fun l => inject_Z (lib_riskScore l)) libraries in
  let criticalFindings :=
    JS.count (filter (fun f => level_eqb (finding_severity f) CRITICAL) findings) in
  match libraryRisks with
  | [] => 0
  | _ :: _ => JS.Math_round (RiskCalculator.calculateGlobalRisk libraryRisks criticalFindings)
  end.

Record Result := mkResult {
  res_libraries : list Library;
  res_findings : list Finding
}.

(** [minimalAnalyzeAndPersist(database, scan)] run at time [now]. *)
Definition minimalAnalyzeAndPersist (w : World) (db : DB) (scan : Scan) (now : Z)
    : DB * Result :=
  let scanId := scan_id scan in
  let existingLibraries := getLibrariesByScan db scanId in
  let existingFindings := getFindingsByScan db scanId in
  if (negb (Nat.eqb (List.length existingLibraries) 0)
      || negb (Nat.eqb (List.length existingFindings) 0))
     && status_eqb (scan_status scan) COMPLETED
  then (db, mkResult existingLibraries existingFindings)
  else
    match fetchHtml w (scan_url scan) with
    | None =>
        let finding :=
          mkFinding None scanId "ERROR" "Failed to fetch target URL" MODERATE None in
        let '(findingId, db) := createFinding db finding in
        (db, mkResult [] [with_finding_id finding findingId])
    | Some page =>
        let parsed := new_URL (net w) (scan_url scan) in
        let pageHost := option_map url_hostname parsed in
        let pageProtocol := option_map url_protocol parsed in
        let ss := page_scripts page in
        let findings :=
          (page_htmlFindings page
           ++ headerFindings scanId pageProtocol (page_headers page)
           ++ integrityFindings scanId ss)%list in
        let db := snd (createScriptsBatch db (map (scriptOf scanId) ss)) in
        let libsToInsert := map (libraryOf scanId) ss in
        let '(ids, db) := createLibrariesBatch db libsToInsert in
        let '(db, libraries) := enrichLibraries w now db (with_ids libsToInsert ids) in
        let srcs := map sf_src ss in
        let summaryFinding :=
          mkFinding None scanId "INFO" "Minimal script analysis completed" LOW
                    (examples srcs) in
        let '(summaryFindingId, db) := createFinding db summaryFinding in
        let findings :=
          (findings ++ [with_finding_id summaryFinding summaryFindingId])%list in
        let thirdParty := filter sf_isThirdParty ss in
        let '(db, findings) :=
          if negb (Nat.eqb (List.length thirdParty) 0) && truthy pageHost then
            let f := mkFinding None scanId "INFO" "Third-party scripts detected" MODERATE
                       (examples (map sf_src thirdParty)) in
            let '(fid, db) := createFinding db f in
            (db, (findings ++ [with_finding_id f fid])%list)
          else (db, findings) in
        let insecure := filter sf_isInsecure ss in
        let '(db, findings) :=
          if negb (Nat.eqb (List.length insecure) 0) then
            let f := mkFinding None scanId "INFO" "Insecure HTTP script sources detected"
                       HIGH (examples (map sf_src insecure)) in
            let '(fid, db) := createFinding db f in
            (db, (findings ++ [with_finding_id f fid])%list)
          else (db, findings) in
        let globalRisk := globalRiskOf libraries findings in
        let db := match updateScanRiskScore db scanId globalRisk with
                  | Some db' => db'
                  | None => db
                  end in
        (db, mkResult libraries findings)
    end.

End MinimalAnalyzer.

(* ------------------------------------------------------------------ *)
(** * Shared utilities, continued (src/shared/src/utils.ts) *)
(* ------------------------------------------------------------------ *)

Module SharedUtils.

Import Store.
Local Open Scope string_scope.

(** [RiskCalculator.getRiskLevel(score)] *)
Definition getRiskLevel (score : Q) : RiskLevel :=
  if Qle_bool 80 score then CRITICAL
  else if Qle_bool 60 score then HIGH
  else if Qle_bool 30 score then MODERATE
  else LOW.

(** ** [VersionUtils] *)

(** [s.split(/[.-]/)] *)
Fixpoint split_version (s : string) : list string :=
  match s with
  | EmptyString => [EmptyString]
  | String c r =>
      if Ascii.eqb c "." || Ascii.eqb c "-" then EmptyString :: split_version r
      else match split_version r with
           | [] => [String c EmptyString]
           | h :: t => String c h :: t
           end
  end.

(** [parseVersion(version)]: every part through [parseInt(part, 10)],
    NaN giving 0. *)
Definition parseVersion (version : string) : list Z :=
  map (fun part => match Str.parseInt part with Some num => num | None => 0 end)
      (split_version version).

(** The loop of [compareVersions] from index [i], with [n] indices left;
    [parts[i] || 0] is [nth i parts 0]. *)
Fixpoint compare_loop (n i : nat) (parts1 parts2 : list Z) : Z :=
  match n with
  | O => 0
  | S n' =>
      let part1 := nth i parts1 0 in
      let part2 := nth i parts2 0 in
      if Z.ltb part1 part2 then -1
      else if Z.gtb part1 part2 then 1
      else compare_loop n' (S i) parts1 parts2
  end.

Definition compareVersions (v1 v2 : string) : Z :=
  let parts1 := parseVersion v1 in
  let parts2 := parseVersion v2 in
  let maxLength := Nat.max (List.length parts1) (List.length parts2) in
  compare_loop maxLength 0 parts1 parts2.

(** [s.replace(pattern, '')] for a string pattern: the first occurrence
    goes. *)
Fixpoint remove_first (pattern s : string) : string :=
  if String.prefix pattern s then Str.drop (String.length pattern) s
  else match s with
       | EmptyString => EmptyString
       | String c r => String c (remove_first pattern r)
       end.

Definition isVersionInRange (version range : string) : bool :=
  if Str.includes range ">=" then
    let minVersion := Str.trim (remove_first ">=" range) in
    Z.geb (compareVersions version minVersion) 0
  else if Str.includes range "<=" then
    let maxVersion := Str.trim (remove_first "<=" range) in
    Z.leb (compareVersions version maxVersion) 0
  else if Str.includes range "<" then
    let maxVersion := Str.trim (remove_first "<" range) in
    Z.ltb (compareVersions version maxVersion) 0
  else if Str.includes range ">" then
    let minVersion := Str.trim (remove_first ">" range) in
    Z.gtb (compareVersions version minVersion) 0
  else String.eqb version range.

(** ** [FingerprintUtils.simpleHash] *)

(** ToInt32: the value of a number as a signed 32-bit integer. *)
Definition toInt32 (z : Z) : Z := (z + 2 ^ 31) mod 2 ^ 32 - 2 ^ 31.

(** [a << n] *)
Definition shiftLeft (a n : Z) : Z := toInt32 (Z.shiftl (toInt32 a) n).

(** [a & b] *)
Definition bitAnd (a b : Z) : Z := toInt32 (Z.land (toInt32 a) (toInt32 b)).

(** One turn of the loop:
    [hash = ((hash << 5) - hash) + char; hash = hash & hash]. *)
Definition hash_step (hash : Z) (char : ascii) : Z :=
  let hash := (shiftLeft hash 5 - hash) + Z.of_nat (Str.code char) in
  bitAnd hash hash.

Fixpoint hash_loop (hash : Z) (str : string) : Z :=
  match str with
  | EmptyString => hash
  | String c r => hash_loop (hash_step hash c) r
  end.

Definition hex_char (d : Z) : ascii :=
  if Z.ltb d 10 then ascii_of_nat (48 + Z.to_nat d) else ascii_of_nat (87 + Z.to_nat d).

Fixpoint to_hex (fuel : nat) (n : Z) (acc : string) : string :=
  match fuel with
  | O => acc
  | S fuel' =>
      let acc' := String (hex_char (n mod 16)) acc in
      if Z.ltb n 16 then acc' else to_hex fuel' (n / 16) acc'
  end.

(** [n.toString(16)] for an integer [n >= 0]. *)
Definition toString16 (n : Z) : string :=
  to_hex (S (Z.to_nat (Z.log2 n))) n EmptyString.

Definition simpleHash (str : string) : string :=
  toString16 (Z.abs (hash_loop 0 str)).

(** ** [RetryUtils.withRetry] *)

(** Outcome of one call of the operation. *)
Inductive Outcome (T : Type) :=
| Resolves (value : T)
| Rejects (error : string).

Arguments Resolves {T} value.
Arguments Rejects {T} error.

(** What a retry loop did: the value returned or the error thrown
    ([None] is the unset [lastError]), the number of calls made and the
    milliseconds slept between them. *)
Record Run (T : Type) := mkRun {
  run_result : T + option string;
  run_calls : nat;
  run_slept : Z
}.

Arguments mkRun {T} run_result run_calls run_slept.
Arguments run_result {T} r.
Arguments run_calls {T} r.
Arguments run_slept {T} r.

(** The loop of [RetryUtils.withRetry] from [attempt] on, with [left]
    attempts left ([attempt + left = maxAttempts + 1]); the operation's
    k-th call has outcome [operation k]. *)
Fixpoint retry_from {T} (operation : nat -> Outcome T) (left attempt : nat)
    (delayMs backoffMultiplier : Z) (lastError : option string) (slept : Z) : Run T :=
  match left with
  | O => mkRun (inr lastError) (attempt - 1) slept
  | S left' =>
      match operation attempt with
      | Resolves value => mkRun (inl value) attempt slept
      | Rejects error =>
          match left' with
          | O => mkRun (inr (Some error)) attempt slept
          | S _ =>
              let delay := delayMs * backoffMultiplier ^ (Z.of_nat attempt - 1) in
              retry_from operation left' (S attempt) delayMs backoffMultiplier
                         (Some error) (slept + delay)
          end
      end
  end.

Definition withRetry {T} (operation : nat -> Outcome T) (maxAttempts : nat)
    (delayMs backoffMultiplier : Z) : Run T :=
  retry_from operation maxAttempts 1 delayMs backoffMultiplier None 0.

End SharedUtils.

(* ------------------------------------------------------------------ *)
(** * The retry loops of the worker and of the database layer *)
(* ------------------------------------------------------------------ *)

Module Retry.

Import SharedUtils.
Local Open Scope string_scope.

(** [AnalysisWorker.generateScriptFingerprint] (src/analyzer/src/worker.ts) *)
Fixpoint fingerprint_loop (hash : Z) (content : string) : Z :=
  match content with
  | EmptyString => hash
  | String c r =>
      let char := Z.of_nat (Str.code c) in
      let hash := (shiftLeft hash 5 - hash) + char in
      let hash := bitAnd hash hash in
      fingerprint_loop hash r
  end.

Definition generateScriptFingerprint (content : string) : string :=
  toString16 (Z.abs (fingerprint_loop 0 content)).

(** [AnalysisWorker.withRetry] (src/analyzer/src/worker.ts): the delay
    variable is doubled after every sleep. *)
Fixpoint worker_retry_from {T} (operation : nat -> Outcome T) (left attempt : nat)
    (delayMs : Z) (lastError : option string) (slept : Z) : Run T :=
  match left with
  | O => mkRun (inr lastError) (attempt - 1) slept
  | S left' =>
      match operation attempt with
      | Resolves value => mkRun (inl value) attempt slept
      | Rejects error =>
          match left' with
          | O => mkRun (inr (Some error)) attempt slept
          | S _ =>
              worker_retry_from operation left' (S attempt) (delayMs * 2)
                                (Some error) (slept + delayMs)
          end
      end
  end.

Definition worker_withRetry {T} (operation : nat -> Outcome T) (maxAttempts : nat)
    (delayMs : Z) : Run T :=
  worker_retry_from operation maxAttempts 1 delayMs None 0.

(** An error as [Database.withRetry] looks at it. *)
Record DbError := mkDbError {
  err_code : option string;
  err_message : string
}.

Definition isRetryable (e : DbError) : bool :=
  match err_code e with
  | Some code =>
      existsb (String.eqb code)
        ["ECONNREFUSED"; "ETIMEDOUT"; "ENOTFOUND"; "ECONNRESET";
         "CONNECTION_TERMINATED"; "CONNECTION_TIMEOUT"]
  | None => false
  end
  || Str.includes (err_message e) "timeout".

Inductive DbOutcome (T : Type) :=
| DbResolves (value : T)
| DbRejects (error : DbError).

Arguments DbResolves {T} value.
Arguments DbRejects {T} error.

Record DbRun (T : Type) := mkDbRun {
  db_result : T + option DbError;
  db_calls : nat;
  db_slept : Z;
  db_isHealthy : bool
}.

Arguments mkDbRun {T} db_result db_calls db_slept db_isHealthy.
Arguments db_result {T} d.
Arguments db_calls {T} d.
Arguments db_slept {T} d.
Arguments db_isHealthy {T} d.

(** [Database.withRetry] (src/api/src/database.ts): only retryable errors
    are retried, and giving up on one marks the pool unhealthy. *)
Fixpoint db_retry_from {T} (operation : nat -> DbOutcome T) (left attempt : nat)
    (delayMs : Z) (lastError : option DbError) (slept : Z) (isHealthy : bool)
    : DbRun T :=
  match left with
  | O => mkDbRun (inr lastError) (attempt - 1) slept isHealthy
  | S left' =>
      match operation attempt with
      | DbResolves value => mkDbRun (inl value) attempt slept isHealthy
      | DbRejects error =>
          let retryable := isRetryable error in
          match left', retryable with
          | S _, true =>
              db_retry_from operation left' (S attempt) (delayMs * 2)
                            (Some error) (slept + delayMs) isHealthy
          | _, _ =>
              mkDbRun (inr (Some error)) attempt slept
                      (if retryable then false else isHealthy)
          end
      end
  end.

Definition db_withRetry {T} (operation : nat -> DbOutcome T) (maxAttempts : nat)
    (delayMs : Z) (isHealthy : bool) : DbRun T :=
  db_retry_from operation maxAttempts 1 delayMs None 0 isHealthy.

End Retry.

(* ------------------------------------------------------------------ *)
(** * Deleting scans (src/api/src/database.ts) *)
(* ------------------------------------------------------------------ *)

Module Database.

Import Store.

(** [Database.deleteScan]: [DELETE FROM scans WHERE id = $1].  The tables
    [scripts], [libraries] and [findings] reference [scans(id)]
    [ON DELETE CASCADE], so their rows go with the scan.  [None] is the
    thrown "Scan with id ... not found". *)
Definition deleteScan (db : DB) (id : Z) : option DB :=
  if exists_scan db id then
    Some (mkDB (filter (fun s => negb (Z.eqb (scan_id s) id)) (scans db))
               (filter (fun s => negb (Z.eqb (script_scanId s) id)) (scripts db))
               (filter (fun l => negb (Z.eqb (lib_scanId l) id)) (libraries db))
               (filter (fun f => negb (Z.eqb (finding_scanId f) id)) (findings db))
               (vulnerability_cache db) (next_uuid db) (status_writes db))
  else None.

End Database.

(* ------------------------------------------------------------------ *)
(** * The reporting routes (src/api/src/routes/scans.ts) *)
(* ------------------------------------------------------------------ *)

Module ScanReports.

Import Store TaskQueue ScanRoutes.
Local Open Scope string_scope.

(** [l.length] *)
Definition len {A} (l : list A) : Z := Z.of_nat (List.length l).

(** [acc[k] = (acc[k] || 0) + 1] on an object; the keys keep the order in
    which they were first set. *)
Fixpoint bump (k : RiskLevel) (acc : list (RiskLevel * Z)) : list (RiskLevel * Z) :=
  match acc with
  | [] => [(k, 1)]
  | (k', n) :: rest =>
      if level_eqb k' k then (k', n + 1) :: rest else (k', n) :: bump k rest
  end.

(** [acc[k] || 0] *)
Fixpoint entry (k : RiskLevel) (acc : list (RiskLevel * Z)) : Z :=
  match acc with
  | [] => 0
  | (k', n) :: rest => if level_eqb k' k then n else entry k rest
  end.

Record ScriptDiagnostics := mkScriptDiagnostics {
  sd_total : Z;
  sd_inline : Z;
  sd_external : Z
}.

Record LibraryDiagnostics := mkLibraryDiagnostics {
  ld_total : Z;
  ld_vulnerable : Z;
  ld_osvVulnerabilities : Z
}.

(** [partialScan || undefined] and [anomalies.length ? anomalies : undefined]
    are options. *)
Record Diagnostics := mkDiagnostics {
  diag_scripts : ScriptDiagnostics;
  diag_libraries : LibraryDiagnostics;
  diag_partialScan : option bool;
  diag_anomalies : option (list string);
  diag_qualityScore : Z
}.

Record Summary := mkSummary {
  sum_totalLibraries : Z;
  sum_vulnerableLibraries : Z;
  sum_totalVulnerabilities : Z;
  sum_criticalFindings : Z;
  sum_riskDistribution : list (RiskLevel * Z)
}.

Record ResultsResponse := mkResultsResponse {
  rr_scan : Scan;
  rr_libraries : list Library;
  rr_findings : list Finding;
  rr_summary : Summary;
  rr_diagnostics : Diagnostics
}.

(** [getScanResults]; [None] is the 404 answer. *)
Definition getScanResults (db : DB) (id : Z) : option ResultsResponse :=
  match getScan db id with
  | None => None
  | Some scan =>
      let libraries := getLibrariesByScan db id in
      let findings := getFindingsByScan db id in
      let scripts := getScriptsByScan db id in
      let vulnerableLibraries :=
        len (filter (fun lib => Z.gtb (len (lib_vulnerabilities lib)) 0) libraries) in
      let totalVulnerabilities :=
        fold_left (fun sum lib => sum + len (lib_vulnerabilities lib)) libraries 0 in
      let criticalFindings :=
        len (filter (fun f => level_eqb (finding_severity f) CRITICAL) findings) in
      let riskDistribution :=
        fold_left (fun acc finding => bump (finding_severity finding) acc) findings [] in
      let scriptDiagnostics :=
        mkScriptDiagnostics (len scripts) (len (filter script_isInline scripts))
          (len (filter (fun s => negb (script_isInline s)) scripts)) in
      let libraryDiagnostics :=
        mkLibraryDiagnostics (len libraries) vulnerableLibraries totalVulnerabilities in
      let partialScan := false in
      let anomalies := @nil string in
      let '(partialScan, anomalies) :=
        if Z.gtb (sd_total scriptDiagnostics) 0 && Z.eqb (ld_total libraryDiagnostics) 0
        then (true, (anomalies ++ ["no_libraries_detected_but_scripts_present"])%list)
        else (partialScan, anomalies) in
      let '(partialScan, anomalies) :=
        if Z.gtb (sd_total scriptDiagnostics) 100 && Z.leb (ld_total libraryDiagnostics) 2
        then (true, (anomalies ++ ["very_few_libraries_compared_to_script_volume"])%list)
        else (partialScan, anomalies) in
      let qualityScore := 100 in
      let qualityScore := if partialScan then qualityScore - 40 else qualityScore in
      let qualityScore :=
        if Z.ltb (sd_total scriptDiagnostics) 10 then qualityScore - 20 else qualityScore in
      let qualityScore :=
        if Z.eqb (ld_total libraryDiagnostics) 0 then qualityScore - 40 else qualityScore in
      let qualityScore := Z.max 0 (Z.min 100 qualityScore) in
      let diagnostics :=
        mkDiagnostics scriptDiagnostics libraryDiagnostics
          (if partialScan then Some true else None)
          (match anomalies with [] => None | _ :: _ => Some anomalies end)
          qualityScore in
      Some (mkResultsResponse scan libraries findings
              (mkSummary (len libraries) vulnerableLibraries totalVulnerabilities
                 criticalFindings riskDistribution)
              diagnostics)
  end.

(** ** [getScanSurface] *)

Definition CATEGORY_forms := ["FORM_SECURITY"].
Definition CATEGORY_inlineEventHandlers := ["INLINE_EVENT_HANDLER"].
Definition CATEGORY_iframes := ["IFRAME_SECURITY"].
Definition CATEGORY_securityHeaders := ["SECURITY_HEADER"].
Definition CATEGORY_securityCookies := ["SECURITY_COOKIE"].

(** [isOfType(f, types)]; [toUpperCase] is the JavaScript built-in. *)
Definition isOfType (toUpperCase : string -> string) (f : Finding) (types : list string)
    : bool :=
  let t := toUpperCase (finding_type f) in
  existsb (String.eqb t) types.

Record Categories := mkCategories {
  cat_forms : list Finding;
  cat_inlineEventHandlers : list Finding;
  cat_iframes : list Finding;
  cat_securityHeaders : list Finding;
  cat_securityCookies : list Finding;
  cat_other : list Finding
}.

Record CategoryCounts := mkCategoryCounts {
  n_forms : Z;
  n_inlineEventHandlers : Z;
  n_iframes : Z;
  n_securityHeaders : Z;
  n_securityCookies : Z;
  n_other : Z
}.

Record SurfaceResponse := mkSurfaceResponse {
  surf_scan : Scan;
  surf_totalFindings : Z;
  surf_severity : list (RiskLevel * Z);
  surf_counts : CategoryCounts;
  surf_categories : Categories
}.

(** [getScanSurface]; [None] is the 404 answer.  A severity is one of the
    four non-empty lower-case values of [RiskLevel], so the key
    [(f.severity || '').toString().toLowerCase() || 'unknown'] is the
    severity itself. *)
Definition getScanSurface (toUpperCase : string -> string) (db : DB) (id : Z)
    : option SurfaceResponse :=
  match getScan db id with
  | None => None
  | Some scan =>
      let findings := getFindingsByScan db id in
      let forms := filter (fun f => isOfType toUpperCase f CATEGORY_forms) findings in
      let inlineEventHandlers :=
        filter (fun f => isOfType toUpperCase f CATEGORY_inlineEventHandlers) findings in
      let iframes := filter (fun f => isOfType toUpperCase f CATEGORY_iframes) findings in
      let securityHeaders :=
        filter (fun f => isOfType toUpperCase f CATEGORY_securityHeaders) findings in
      let securityCookies :=
        filter (fun f => isOfType toUpperCase f CATEGORY_securityCookies) findings in
      let knownTypes :=
        (CATEGORY_forms ++ CATEGORY_inlineEventHandlers ++ CATEGORY_iframes
         ++ CATEGORY_securityHeaders ++ CATEGORY_securityCookies)%list in
      let other :=
        filter (fun f =>
                  let t := toUpperCase (finding_type f) in
                  negb (existsb (String.eqb t) knownTypes)) findings in
      let severityCounts :=
        fold_left (fun acc f => bump (finding_severity f) acc) findings [] in
      Some (mkSurfaceResponse scan (len findings) severityCounts
              (mkCategoryCounts (len forms) (len inlineEventHandlers) (len iframes)
                 (len securityHeaders) (len securityCookies) (len other))
              (mkCategories forms inlineEventHandlers iframes securityHeaders
                 securityCookies other))
  end.

(** ** [deleteScan] *)

(** [DELETE /api/scans/:id]: the HTTP status with the new state.  The
    removal of the stored artifacts in between is best effort: its failure
    is logged and changes nothing of what follows. *)
Definition deleteScan (app : App) (id : Z) : App * Z :=
  match getScan (database app) id with
  | None => (app, 404)
  | Some _ =>
      match Database.deleteScan (database app) id with
      | Some db => (mkApp db (taskQueue app), 204)
      | None => (app, 500)
      end
  end.

End ScanReports.

(* ------------------------------------------------------------------ *)
(** * The minimal router (src/api/src/minimal/router.ts) *)
(* ------------------------------------------------------------------ *)

Module MinimalRouter.

Import Store TaskQueue ScanRoutes.
Local Open Scope string_scope.

(** The fields of the status answer that depend on the queue. *)
Record StatusAnswer := mkStatusAnswer {
  ans_status : ScanStatus;
  ans_progress : Z;
  ans_error : option string
}.

(** [GET /scans/:id/status]; [None] is the 404 answer. *)
Definition getScanStatus (app : App) (id : Z) : option StatusAnswer :=
  match getScan (database app) id with
  | None => None
  | Some scan =>
      let jobStatus := getScanJobStatus (taskQueue app) id in
      let effectiveStatus :=
        match jobStatus with
        | Some js =>
            let state := js_status js in
            let result := js_result js in
            if String.eqb state "active" || String.eqb state "waiting"
               || String.eqb state "delayed"
            then RUNNING
            else if String.eqb state "completed" then
              match result with
              | Some r => if Bool.eqb (result_success r) false then FAILED else COMPLETED
              | None => COMPLETED
              end
            else if String.eqb state "failed" || String.eqb state "dead-letter"
            then FAILED
            else scan_status scan
        | None => scan_status scan
        end in
      let progress :=
        match jobStatus with
        | Some js => js_progress js
        | None =>
            if status_eqb effectiveStatus COMPLETED || status_eqb effectiveStatus FAILED
            then 100 else 0
        end in
      Some (mkStatusAnswer effectiveStatus progress
              (or_else (scan_error scan)
                 (match jobStatus with Some js => js_error js | None => None end)))
  end.

End MinimalRouter.

(* ------------------------------------------------------------------ *)
(** * Finding types and their severities *)
(* ------------------------------------------------------------------ *)

Module FindingTables.

Import Store.
Local Open Scope string_scope.

(** [enum FindingType] of the shared types. *)
Inductive FindingType :=
| EVAL_USAGE | HARDCODED_TOKEN | DYNAMIC_IMPORT | WEBASSEMBLY
| DOM_XSS_SINK
| FORM_SECURITY | INLINE_EVENT_HANDLER | IFRAME_SECURITY
| SECURITY_HEADER | SECURITY_COOKIE | SCRIPT_INTEGRITY | INFO | ERROR
| CVE | REMOTE_CODE | AI_THREAT | BLOCKCHAIN_INTEGRITY | SUPPLY_CHAIN_ATTACK
| QUANTUM_VULNERABILITY | BEHAVIORAL_ANOMALY.

(** [AnalysisWorker.getFindingTitle] (src/analyzer/src/worker.ts) *)
Definition getFindingTitle (type : FindingType) : string :=
  match type with
  | CVE => "Known Vulnerability"
  | EVAL_USAGE => "Dangerous eval() Usage"
  | HARDCODED_TOKEN => "Hardcoded Secret/Token"
  | DYNAMIC_IMPORT => "Dynamic Import Usage"
  | REMOTE_CODE => "Remote Code Loading"
  | WEBASSEMBLY => "WebAssembly Usage"
  | AI_THREAT => "AI-Detected Threat"
  | BLOCKCHAIN_INTEGRITY => "Blockchain Integrity Issue"
  | SUPPLY_CHAIN_ATTACK => "Supply Chain Attack"
  | QUANTUM_VULNERABILITY => "Quantum Vulnerability"
  | BEHAVIORAL_ANOMALY => "Behavioral Anomaly"
  | _ => "Security Finding"
  end.

(** [AnalysisWorker.getFindingSeverity] *)
Definition getFindingSeverity (type : FindingType) : RiskLevel :=
  match type with
  | CVE => HIGH
  | EVAL_USAGE => HIGH
  | HARDCODED_TOKEN => CRITICAL
  | DYNAMIC_IMPORT => MODERATE
  | REMOTE_CODE => CRITICAL
  | WEBASSEMBLY => MODERATE
  | AI_THREAT => HIGH
  | BLOCKCHAIN_INTEGRITY => CRITICAL
  | SUPPLY_CHAIN_ATTACK => CRITICAL
  | QUANTUM_VULNERABILITY => HIGH
  | BEHAVIORAL_ANOMALY => MODERATE
  | _ => LOW
  end.

(** [mapFindingTypeToSeverity] (src/api/src/minimal/analyzer.ts) *)
Definition mapFindingTypeToSeverity (type : FindingType) : RiskLevel :=
  match type with
  | HARDCODED_TOKEN | REMOTE_CODE => CRITICAL
  | EVAL_USAGE | CVE => HIGH
  | DYNAMIC_IMPORT | WEBASSEMBLY => MODERATE
  | _ => LOW
  end.

End FindingTables.

(* ------------------------------------------------------------------ *)
(** * The circuit breaker of the performance middleware *)
(* ------------------------------------------------------------------ *)

Module CircuitBreaker.

Import SharedUtils.
Local Open Scope string_scope.

Inductive State := CLOSED | OPEN | HALF_OPEN.

(** The fields of a [CircuitBreaker] object; times are milliseconds. *)
Record Breaker := mkBreaker {
  failureThreshold : Z;
  recoveryTimeout : Z;
  failures : Z;
  lastFailureTime : Z;
  state : State
}.

(** [new CircuitBreaker(failureThreshold, recoveryTimeout)] *)
Definition create (failureThreshold recoveryTimeout : Z) : Breaker :=
  mkBreaker failureThreshold recoveryTimeout 0 0 CLOSED.

Definition onSuccess (cb : Breaker) : Breaker :=
  mkBreaker (failureThreshold cb) (recoveryTimeout cb) 0 (lastFailureTime cb) CLOSED.

(** [onFailure()], [Date.now()] giving [now]. *)
Definition onFailure (cb : Breaker) (now : Z) : Breaker :=
  let failures := failures cb + 1 in
  mkBreaker (failureThreshold cb) (recoveryTimeout cb) failures now
            (if Z.geb failures (failureThreshold cb) then OPEN else state cb).

(** What [execute] does with the operation. *)
Inductive Attempt (T : Type) :=
| Returned (value : T)
| Threw (error : string)
| Refused.                                  (* 'Circuit breaker is OPEN' *)

Arguments Returned {T} value.
Arguments Threw {T} error.
Arguments Refused {T}.

(** [execute(operation)] entered at time [now]; [operation] is the
    outcome of the operation if it is called, and [later] the time at
    which it has failed. *)
Definition execute {T} (cb : Breaker) (now : Z) (operation : Outcome T) (later : Z)
    : Breaker * Attempt T :=
  let admitted :=
    match state cb with
    | OPEN =>
        if Z.gtb (now - lastFailureTime cb) (recoveryTimeout cb)
        then Some (mkBreaker (failureThreshold cb) (recoveryTimeout cb) (failures cb)
                             (lastFailureTime cb) HALF_OPEN)
        else None
    | _ => Some cb
    end in
  match admitted with
  | None => (cb, Refused)
  | Some cb =>
      match operation with
      | Resolves value => (onSuccess cb, Returned value)
      | Rejects error => (onFailure cb later, Threw error)
      end
  end.

(** A sequence of calls of [execute] on one breaker. *)
Fixpoint run {T} (cb : Breaker) (calls : list (Z * Outcome T * Z)) : Breaker :=
  match calls with
  | [] => cb
  | (now, operation, later) :: rest => run (fst (execute cb now operation later)) rest
  end.

End CircuitBreaker.

(* ------------------------------------------------------------------ *)
(** * Auxiliary notions used in the statements and proofs *)
(* ------------------------------------------------------------------ *)

Module Props.

Import Store UrlValidator TaskQueue ScanRoutes MinimalAnalyzer.
Local Open Scope string_scope.

Fixpoint no_dot (s : string) : bool :=
  match s with
  | EmptyString => true
  | String c r => negb (Ascii.eqb c ".") && no_dot r
  end.

Definition option_Z_eqb (a : option Z) (b : Z) : bool :=
  match a with Some x => Z.eqb x b | None => false end.

(** What the validator needs of the decimal text of one octet. *)
Definition octet_ok (n : Z) : bool :=
  Node.v4Seg (decimal n) && option_Z_eqb (Str.parseInt (decimal n)) n
  && no_dot (decimal n).

(** The error text a reconciliation stores with the status. *)
Definition reconciled_error (scan : Scan) (job : option JobStatus) : option string :=
  or_else (scan_error scan)
    (or_else (match job with Some js => js_error js | None => None end)
       (match (match job with Some js => js_result js | None => None end) with
        | Some r => if negb (result_success r) then Some "Worker reported failure" else None
        | None => None
        end)).

(** Number of findings of one severity. *)
Definition count_severity (level : RiskLevel) (fs : list Finding) : nat :=
  List.length (filter (fun f => level_eqb (finding_severity f) level) fs).

Definition flag (b : bool) : nat := if b then 1%nat else 0%nat.

(** What the loop keeps true: a flag is set exactly when its finding has
    been pushed, and nothing else is ever pushed. *)
Definition cookie_invariant (st : CookieState) : Prop :=
  count_severity HIGH (pushed st) = flag (reportedSensitiveCookie st)
  /\ count_severity MODERATE (pushed st) = flag (reportedGenericCookie st)
  /\ List.length (pushed st)
     = (flag (reportedSensitiveCookie st) + flag (reportedGenericCookie st))%nat.

(** [lib.detectedVersion || null], the version under which the enrichment
    reads and writes the cache and asks the feed. *)
Definition versionKey (lib : Library) : option string :=
  if truthy (lib_detectedVersion lib) then lib_detectedVersion lib else None.

(** The analysis is run afresh: the scan is not both completed and
    already provided with rows. *)
Definition runs_afresh (db : DB) (scan : Scan) : Prop :=
  scan_status scan <> COMPLETED
  \/ (getLibrariesByScan db (scan_id scan) = []
      /\ getFindingsByScan db (scan_id scan) = []).

End Props.

(* ------------------------------------------------------------------ *)
(** * Concrete scenarios *)
(* ------------------------------------------------------------------ *)

Module Scenarios.

Import Store UrlValidator TaskQueue ScanRoutes AnalysisWorker MinimalAnalyzer.
Local Open Scope string_scope.

(** The resolver and URL parser of the failing scenario: one public name
    whose AAAA record is the link-local address fe90::1. *)
Definition link_local_net : Net :=
  mkNet
    (fun raw => if String.eqb raw "http://printer.example/"
                then Some (mkURL "http:" "printer.example") else None)
    (fun host => if String.eqb host "printer.example"
                 then Addresses ["fe90::1"] else LookupError "ENOTFOUND").

Definition link_local_request : ScanRequest :=
  mkScanRequest (Some "http://printer.example/") None None None.

Definition advisory_old : Vulnerability := mkVulnerability "GHSA-old" HIGH (Some (75 # 10)%Q).
Definition advisory_new : Vulnerability := mkVulnerability "GHSA-new" CRITICAL (Some (98 # 10)%Q).

(** A library without detected version is cached under the key
    ("lodash", NULL) at time 0 with a ttl of one second, and again at
    5000 ms. *)
Definition cache_after_first : DB :=
  upsertVulnerabilityCacheEntry Store.empty "lodash" None [advisory_old] 1 0.

Definition cache_after_second : DB :=
  upsertVulnerabilityCacheEntry cache_after_first "lodash" None [advisory_new] 1 5000.

(** One scan of a shop page, created at 1000 ms. *)
Definition shop_created : DB :=
  snd (Store.createScan Store.empty "https://shop.example/" PENDING 1000).

(** What the analysis of its artifacts yields: one inline script that
    calls eval, and jQuery detected in it. *)
Definition shop_analysis : Analysis :=
  mkAnalysis
    [mkScript None 1 None true (Some "1.12.4") 80]
    [mkLibrary None 1 "jquery" (Some "1.12.4") ["inline-1"] [] 40 (Some 80)]
    [mkFinding None 1 "EVAL_USAGE" "Dangerous eval() Usage" HIGH (Some "eval(x)")]
    (42 # 1).

(** The analysis job is delivered, and later delivered a second time. *)
Definition shop_analysed : DB :=
  processAnalysisTask shop_created 1 (Analysed shop_analysis) 2000 3000.

Definition shop_redelivered : DB :=
  processAnalysisTask shop_analysed 1 (Analysed shop_analysis) 4000 5000.

(** The database says completed while the render job ended up failed. *)
Definition shop_render_failed : App :=
  mkApp shop_analysed
        (mkQueue [mkJob 1 "failed" 85 None (Some "Analysis job timeout")] []).

(** The scan is still pending in the database while its render job is
    active at 40 %. *)
Definition shop_rendering : App :=
  mkApp shop_created (mkQueue [mkJob 1 "active" 40 None None] []).

Definition shop_row : Scan :=
  mkScan 1 "https://shop.example/" PENDING 1000 None None 0 None.

(** A public site: the parser accepts its URL and the resolver gives a
    public address. *)
Definition public_net : Net :=
  mkNet
    (fun raw => if String.eqb raw "https://shop.example/"
                then Some (mkURL "https:" "shop.example") else None)
    (fun host => if String.eqb host "shop.example"
                 then Addresses ["93.184.216.34"] else LookupError "ENOTFOUND").

Definition shop_request : ScanRequest :=
  mkScanRequest (Some "https://shop.example/") (Some "comprehensive") None None.

(** The site was scanned at 1000 ms. *)
Definition shop_scanned_once : App :=
  fst (createScan public_net None (mkApp Store.empty (mkQueue [] [])) shop_request 1000).

(** Three cookies on three lines of one [Set-Cookie] value. *)
Definition three_cookies : list string :=
  ["theme=dark"; "session=abc; Secure"; "lang=en; HttpOnly"].

(** A page without external scripts, served to the analyzer. *)
Definition plain_world : World :=
  mkWorld
    (mkNet
       (fun raw => if String.eqb raw "https://plain.example/"
                   then Some (mkURL "https:" "plain.example") else None)
       (fun host => if String.eqb host "plain.example"
                    then Addresses ["93.184.216.34"] else LookupError "ENOTFOUND"))
    (fun url => if String.eqb url "https://plain.example/"
                then Some (mkPage [("content-type", "text/html")] [] []) else None)
    (fun _ _ => [])
    86400.

Definition plain_scan : Scan :=
  mkScan 1 "https://plain.example/" RUNNING 1000 (Some 1500) None 0 None.

Definition plain_db : DB :=
  mkDB [plain_scan] [] [] [] [] 2 [(1, PENDING); (1, RUNNING)].

(** The library of scenario S5: jquery 1.12.4 at confidence 80, for which
    the feed returns one advisory of score 9.8. *)
Definition jquery : Library :=
  mkLibrary (Some 7) 1 "jquery" (Some "1.12.4")
            ["https://cdn.example/jquery-1.12.4.min.js"] [] 10 (Some 80).

(** What the enrichment hands to [calculateLibraryRisk] for it. *)
Definition jquery_inputs : list RiskCalculator.VulnInput :=
  [RiskCalculator.mkVuln (Some (Binary64.round (98 # 10))) "CRITICAL"].

Definition jquery_world : World :=
  mkWorld public_net (fun _ => None)
    (fun name version =>
       if String.eqb name "jquery"
       then [mkOsv "GHSA-gxr4-xjj5-5px2" (Some (Binary64.round (98 # 10)))]
       else [])
    86400.

End Scenarios.

(* ------------------------------------------------------------------ *)
(** * Auxiliary notions for the shared utilities *)
(* ------------------------------------------------------------------ *)

Module UtilProps.

Import Store SharedUtils Retry FindingTables.
Local Open Scope string_scope.

(** low < moderate < high < critical *)
Definition level_rank (l : RiskLevel) : Z :=
  match l with
  | LOW => 0
  | MODERATE => 1
  | HIGH => 2
  | CRITICAL => 3
  end.

(** The polynomial hash s[0]*31^(n-1) + ... + s[n-1] over the integers,
    started from [h]. *)
Fixpoint poly31 (h : Z) (s : string) : Z :=
  match s with
  | EmptyString => h
  | String c r => poly31 (31 * h + Z.of_nat (Str.code c)) r
  end.

(** The sleeps after [n] failed attempts, the first of them being
    attempt number [attempt]:
    delay*m^(attempt-1) + ... + delay*m^(attempt+n-2). *)
Fixpoint backoff_sum (delayMs m : Z) (attempt n : nat) : Z :=
  match n with
  | O => 0
  | S n' => delayMs * m ^ (Z.of_nat attempt - 1) + backoff_sum delayMs m (S attempt) n'
  end.

(** Calls [first], ..., [first + n - 1] of the operation all reject. *)
Definition rejects_from {T} (operation : nat -> Outcome T) (first n : nat) : Prop :=
  forall i, (first <= i < first + n)%nat -> exists error, operation i = Rejects error.

(** A version text without comparison sign. *)
Fixpoint plain_version (s : string) : bool :=
  match s with
  | EmptyString => true
  | String c r =>
      negb (Ascii.eqb c "<") && negb (Ascii.eqb c ">") && negb (Ascii.eqb c "=")
      && plain_version r
  end.

(** The characters of [toString(16)]. *)
Definition is_lower_hex (c : ascii) : bool :=
  let n := Str.code c in
  (Nat.leb 48 n && Nat.leb n 57) || (Nat.leb 97 n && Nat.leb n 102).

(** Calls [first], ..., [first + n - 1] of a database operation all
    reject with an error the database layer retries. *)
Definition retryable_rejects {T} (operation : nat -> DbOutcome T) (first n : nat) : Prop :=
  forall i, (first <= i < first + n)%nat ->
            exists error, operation i = DbRejects error /\ isRetryable error = true.

(** The finding types only the full analyzer produces. *)
Definition advanced (type : FindingType) : bool :=
  match type with
  | AI_THREAT | BLOCKCHAIN_INTEGRITY | SUPPLY_CHAIN_ATTACK
  | QUANTUM_VULNERABILITY | BEHAVIORAL_ANOMALY => true
  | _ => false
  end.

(** Newest first. *)
Fixpoint descending (l : list Scan) : Prop :=
  match l with
  | [] => True
  | h :: t => (forall x, In x t -> scan_createdAt x <= scan_createdAt h) /\ descending t
  end.

End UtilProps.

(* ------------------------------------------------------------------ *)
(** * Concrete scenarios for the utilities *)
(* ------------------------------------------------------------------ *)

Module Scenarios2.

Import Store UrlValidator TaskQueue ScanRoutes MinimalAnalyzer SharedUtils Retry.
Local Open Scope string_scope.

(** An operation that fails twice and then returns 42. *)
Definition third_time_lucky (attempt : nat) : Outcome Z :=
  if Nat.leb 3 attempt then Resolves 42 else Rejects "ECONNRESET".

(** An operation that never succeeds. *)
Definition always_down (attempt : nat) : Outcome Z :=
  Rejects "ECONNREFUSED".

(** A statement that loses its connection once and then violates a
    unique constraint. *)
Definition unique_violation : DbError :=
  mkDbError (Some "23505") "duplicate key value violates unique constraint".

Definition constraint_violation (attempt : nat) : DbOutcome Z :=
  if Nat.leb 2 attempt then DbRejects unique_violation
  else DbRejects (mkDbError (Some "ECONNRESET") "read ECONNRESET").

(** A scan whose URL the parser of [Scenarios.plain_world] does not
    accept. *)
Definition intranet_scan : Scan :=
  mkScan 1 "http://intranet/" RUNNING 1000 (Some 1500) None 0 None.

(** The scan of the plain page, marked completed before any row of it was
    stored. *)
Definition plain_done : Scan :=
  mkScan 1 "https://plain.example/" COMPLETED 1000 (Some 1500) (Some 1800) 0 None.

Definition plain_done_db : DB :=
  mkDB [plain_done] [] [] [] [] 2 [(1, PENDING); (1, RUNNING); (1, COMPLETED)].

(** A public name that resolves to an address of the home network. *)
Definition router_net : Net :=
  mkNet
    (fun raw => if String.eqb raw "http://router.example/"
                then Some (mkURL "http:" "router.example") else None)
    (fun host => if String.eqb host "router.example"
                 then Addresses ["192.168.1.1"] else LookupError "ENOTFOUND").

(** The analyzer in that network; the router would serve a page. *)
Definition router_world : World :=
  mkWorld router_net (fun _ => Some (mkPage [] [] [])) (fun _ _ => []) 86400.

(** The shop scan is pending in the database; its job has used up its
    attempts and was moved to the dead-letter queue. *)
Definition shop_abandoned : App :=
  mkApp Scenarios.shop_created (mkQueue [] [mkDeadJob 1 (Some "Renderer crashed")]).

(** Two calls through a circuit breaker that both fail. *)
Definition two_failures : list (Z * Outcome Z * Z) :=
  [(1000, Rejects "ETIMEDOUT", 1100); (2000, Rejects "ETIMEDOUT", 2100)].

End Scenarios2.

(* ================================================================== *)
(** * Risk calculator: properties *)
(* ================================================================== *)

Section RiskProofs.

Import RiskCalculator.
Import Props.
Local Open Scope Q_scope.

(** [Math.max] is the least upper bound of its arguments. *)
Lemma Math_max_lub (xs : list Q) : forall x m,
  JS.Math_max x xs <= m <-> x <= m /\ Forall (fun y => y <= m) xs.
Proof.
  unfold JS.Math_max.
  induction xs as [|y r IH]; intros x m; simpl.
  - split; [intros H; split; [exact H | constructor] | intros [H _]; exact H].
  - rewrite IH, Q.max_lub_iff. split.
    + intros [[Hx Hy] Hr]. split; [exact Hx | constructor; assumption].
    + intros [Hx Hall]. inversion Hall; subst. repeat split; assumption.
Qed.

Lemma Math_max_ge_first (x : Q) (xs : list Q) : x <= JS.Math_max x xs.
Proof.
  destruct (proj1 (Math_max_lub xs x (JS.Math_max x xs)) (Qle_refl _)) as [H _].
  exact H.
Qed.

Lemma Math_max_ge_all (x : Q) (xs : list Q) :
  Forall (fun y => y <= JS.Math_max x xs) xs.
Proof.
  destruct (proj1 (Math_max_lub xs x (JS.Math_max x xs)) (Qle_refl _)) as [_ H].
  exact H.
Qed.

Lemma cvssOrZero_score (v : VulnInput) :
  cvssOrZero v == match cvssScore v with Some q => q | None => 0 end.
Proof.
  unfold cvssOrZero. destruct (cvssScore v) as [q|]; [|reflexivity].
  destruct (Qeq_bool q 0) eqn:E; [|reflexivity].
  apply Qeq_bool_iff in E. symmetry. exact E.
Qed.

Lemma spec_maxCvss_lub (vs : list VulnInput) : forall v m,
  spec_maxCvss (v :: vs) <= m <-> Forall (fun w => cvssOrZero w <= m) (v :: vs).
Proof.
  induction vs as [|w r IH]; intros v m.
  - simpl. rewrite <- cvssOrZero_score. split.
    + intros H. constructor; [exact H | constructor].
    + intros H. inversion H; assumption.
  - change (spec_maxCvss (v :: w :: r))
      with (Qmax (match cvssScore v with Some q => q | None => 0 end)
                 (spec_maxCvss (w :: r))).
    rewrite Q.max_lub_iff, IH, <- cvssOrZero_score. split.
    + intros [H1 H2]. constructor; assumption.
    + intros H. inversion H; subst. split; assumption.
Qed.

(** The greatest score as the source computes it and as the specification
    words it. *)
Lemma Math_max_spec_maxCvss (v : VulnInput) (vs : list VulnInput) :
  JS.Math_max (cvssOrZero v) (map cvssOrZero vs) == spec_maxCvss (v :: vs).
Proof.
  apply Qle_antisym.
  - apply Math_max_lub.
    pose proof (proj1 (spec_maxCvss_lub vs v _) (Qle_refl _)) as H.
    inversion H as [|a l Ha Hl]; subst. split; [exact Ha|].
    apply Forall_forall. intros y Hy.
    apply in_map_iff in Hy. destruct Hy as [w [<- Hw]].
    rewrite Forall_forall in Hl. apply Hl. exact Hw.
  - apply spec_maxCvss_lub. constructor.
    + apply Math_max_ge_first.
    + pose proof (Math_max_ge_all (cvssOrZero v) (map cvssOrZero vs)) as H.
      rewrite Forall_forall in H. apply Forall_forall. intros w Hw.
      apply H. apply in_map. exact Hw.
Qed.

Lemma isCritical_spec (v : VulnInput) : isCritical v = spec_critical v.
Proof.
  unfold isCritical, spec_critical.
  destruct (cvssScore v) as [q|]; [|apply orb_false_r].
  destruct (String.eqb (severity v) "CRITICAL"); simpl; [reflexivity|].
  destruct (Qeq_bool q 0) eqn:E; simpl; [|reflexivity].
  apply Qeq_bool_iff in E.
  destruct (Qle_bool 9 q) eqn:L; [|reflexivity].
  apply Qle_bool_iff in L. exfalso. lra.
Qed.

Lemma count_critical_spec (vs : list VulnInput) :
  JS.count (filter isCritical vs) = inject_Z (spec_criticalCount vs).
Proof.
  unfold JS.count. f_equal.
  induction vs as [|v r IH]; [reflexivity|].
  simpl. rewrite isCritical_spec.
  destruct (spec_critical v); simpl List.length; lia.
Qed.

Lemma clamp_min_max (x : Q) : Qmin 100 (Qmax 0 x) == clamp 0 100 x.
Proof.
  unfold clamp.
  destruct (Qlt_le_dec x 0) as [Hlt|Hle].
  - rewrite Q.max_l by lra. apply Q.min_r. lra.
  - rewrite Q.max_r by exact Hle.
    destruct (Qlt_le_dec 100 x) as [H|H].
    + apply Q.min_l. lra.
    + apply Q.min_r. exact H.
Qed.

Lemma clamp_compat (x y : Q) : x == y -> clamp 0 100 x == clamp 0 100 y.
Proof.
  intros H. rewrite <- !clamp_min_max, H. reflexivity.
Qed.

Lemma clamp_range (x : Q) : 0 <= Qmin 100 (Qmax 0 x) <= 100.
Proof.
  split.
  - apply Q.min_glb; [lra | apply Q.le_max_l].
  - apply Q.le_min_l.
Qed.

Lemma clamp_mono (x y : Q) : x <= y -> Qmin 100 (Qmax 0 x) <= Qmin 100 (Qmax 0 y).
Proof.
  intros H. apply Q.min_le_compat_l. apply Q.max_le_compat_l. exact H.
Qed.

(** Rounding depends on the value only. *)
Lemma round_compat (x y : Q) : x == y -> Binary64.round x = Binary64.round y.
Proof.
  intros H. unfold Binary64.round. rewrite (Qred_complete x y H). reflexivity.
Qed.

Lemma mul_compat (a a' b b' : Q) :
  a == a' -> b == b' -> Binary64.mul a b = Binary64.mul a' b'.
Proof. intros Ha Hb. apply round_compat. rewrite Ha, Hb. reflexivity. Qed.

Lemma add_compat (a a' b b' : Q) :
  a == a' -> b == b' -> Binary64.add a b = Binary64.add a' b'.
Proof. intros Ha Hb. apply round_compat. rewrite Ha, Hb. reflexivity. Qed.

Lemma mul_comm (a b : Q) : Binary64.mul a b = Binary64.mul b a.
Proof. apply round_compat. apply Qmult_comm. Qed.

Lemma pow2_pos (e : Z) : 0 < Binary64.pow2 e.
Proof. apply Qpower_0_lt. reflexivity. Qed.

Lemma pow2_le (a b : Z) : (a <= b)%Z -> Binary64.pow2 a <= Binary64.pow2 b.
Proof. intros H. apply Qpower_le_compat_l; [exact H | discriminate]. Qed.

Lemma pow2_Z (n : Z) : (0 <= n)%Z -> Binary64.pow2 n == inject_Z (2 ^ n).
Proof. intros H. unfold Binary64.pow2. rewrite Zpower_Qpower by exact H. reflexivity. Qed.

(** The exponent [ilog2] finds is not above that of its argument. *)
Lemma ilog2_le (x : Q) : 0 < x -> Binary64.pow2 (Binary64.ilog2 x) <= x.
Proof.
  intros Hx. unfold Binary64.ilog2. cbv zeta.
  destruct (Qle_bool _ x) eqn:E; [apply Qle_bool_iff; exact E|].
  destruct x as [n d]. cbn [Qnum Qden].
  assert (Hn : (0 < n)%Z).
  { unfold Qlt in Hx. cbn in Hx. lia. }
  pose proof (Z.log2_spec n Hn) as [Hn1 _].
  pose proof (Z.log2_spec (Zpos d) (Pos2Z.is_pos d)) as [_ Hd2].
  pose proof (Z.log2_nonneg n) as Hnn. pose proof (Z.log2_nonneg (Zpos d)) as Hdn.
  replace (Z.log2 n - Z.log2 (Z.pos d) - 1)%Z
    with (Z.log2 n - Z.succ (Z.log2 (Z.pos d)))%Z by lia.
  unfold Binary64.pow2. rewrite Qpower_minus by discriminate.
  change (2 ^ Z.log2 n) with (Binary64.pow2 (Z.log2 n)).
  change (2 ^ Z.succ (Z.log2 (Z.pos d))) with (Binary64.pow2 (Z.succ (Z.log2 (Z.pos d)))).
  rewrite !pow2_Z by lia.
  set (a := (2 ^ Z.log2 n)%Z) in *. set (b := (2 ^ Z.succ (Z.log2 (Z.pos d)))%Z) in *.
  assert (Hb : (0 < b)%Z) by lia.
  apply Qle_shift_div_r; [unfold Qlt, inject_Z; cbn [Qnum Qden]; lia |].
  unfold Qle, Qmult, inject_Z. cbn [Qnum Qden].
  nia.
Qed.

Lemma nearest_even_bounds (y : Q) :
  0 <= y ->
  (0 <= Binary64.nearest_even y)%Z /\ inject_Z (Binary64.nearest_even y) <= y + 1.
Proof.
  intros Hy. unfold Binary64.nearest_even. cbv zeta.
  pose proof (Qfloor_le y) as Hf.
  pose proof (Qfloor_resp_le 0 y Hy) as H0. change (Qfloor 0) with 0%Z in H0.
  assert (H1 : inject_Z (Qfloor y + 1) <= y + 1).
  { rewrite inject_Z_plus. change (inject_Z 1) with 1. lra. }
  assert (H2 : inject_Z (Qfloor y) <= y + 1) by lra.
  destruct (Qcompare _ _); [destruct (Z.even _)| |]; (split; [lia | assumption]).
Qed.

(** Rounding at most doubles a magnitude of 1 and more. *)
Lemma round_pos_bounds (x : Q) :
  0 < x -> 0 <= Binary64.round_pos x /\ Binary64.round_pos x <= 2 * x + 1.
Proof.
  intros Hx. unfold Binary64.round_pos. cbv zeta.
  set (e := Z.max (Binary64.ilog2 x) (-1022)).
  pose proof (pow2_pos (e - 52)) as Hu.
  assert (Hule : Binary64.pow2 (e - 52) <= x + 1).
  { subst e. destruct (Z.max_spec (Binary64.ilog2 x) (-1022)) as [[_ E]|[_ E]]; rewrite E.
    - apply Qle_trans with (Binary64.pow2 0); [apply pow2_le; lia|].
      change (Binary64.pow2 0) with 1. lra.
    - apply Qle_trans with (Binary64.pow2 (Binary64.ilog2 x)); [apply pow2_le; lia|].
      pose proof (ilog2_le x Hx). lra. }
  set (u := Binary64.pow2 (e - 52)) in *.
  assert (Hy : 0 <= x / u).
  { apply Qle_shift_div_l; [exact Hu | lra]. }
  destruct (nearest_even_bounds (x / u) Hy) as [Hn0 Hn1].
  set (n := Binary64.nearest_even (x / u)) in *.
  assert (Hn0' : 0 <= inject_Z n).
  { unfold Qle, inject_Z. cbn [Qnum Qden]. lia. }
  split.
  - apply Qmult_le_0_compat; [exact Hn0' | lra].
  - apply Qle_trans with ((x / u + 1) * u).
    + apply Qmult_le_compat_r; [exact Hn1 | lra].
    + assert (E : (x / u + 1) * u == x + u) by (field; lra).
      rewrite E. lra.
Qed.

Lemma round_bounded (M x : Q) :
  Binary64.bounded M x -> Binary64.bounded (2 * M + 1) (Binary64.round x).
Proof.
  intros [Hl Hu]. unfold Binary64.round. cbv zeta.
  pose proof (Qred_correct x) as Hr.
  destruct (Qred x) as [n d] eqn:E. cbn [Qnum].
  destruct n as [|p|p].
  - split; lra.
  - assert (Hp : 0 < Z.pos p # d) by reflexivity.
    destruct (round_pos_bounds _ Hp) as [H0 H1].
    pose proof (Qred_correct (Binary64.round_pos (Z.pos p # d))) as Hc.
    split; lra.
  - assert (Hp : 0 < - (Z.neg p # d)) by reflexivity.
    destruct (round_pos_bounds _ Hp) as [H0 H1].
    pose proof (Qred_correct (- Binary64.round_pos (- (Z.neg p # d)))) as Hc.
    split; lra.
Qed.

Lemma mul_bounded (A B a b : Q) :
  Binary64.bounded A a -> Binary64.bounded B b ->
  Binary64.bounded (2 * (A * B) + 1) (Binary64.mul a b).
Proof.
  intros [Ha1 Ha2] [Hb1 Hb2]. apply round_bounded. split; nra.
Qed.

Lemma add_bounded (A B a b : Q) :
  Binary64.bounded A a -> Binary64.bounded B b ->
  Binary64.bounded (2 * (A + B) + 1) (Binary64.add a b).
Proof.
  intros [Ha1 Ha2] [Hb1 Hb2]. apply round_bounded. split; lra.
Qed.

Lemma div100_bounded (A a : Q) :
  Binary64.bounded A a -> Binary64.bounded (2 * A + 1) (Binary64.div a 100).
Proof.
  intros [Ha1 Ha2]. apply round_bounded.
  unfold Qdiv. change (/ 100) with (1 # 100). split; lra.
Qed.

Lemma bounded_finite (M x : Q) :
  Binary64.bounded M x -> M < Binary64.pow2 1024 -> Binary64.finite x.
Proof. intros [H1 H2] HM. split; lra. Qed.

Lemma Math_max_bounded (M x : Q) (xs : list Q) :
  Binary64.bounded M x -> Forall (Binary64.bounded M) xs ->
  Binary64.bounded M (JS.Math_max x xs).
Proof.
  unfold JS.Math_max. revert x. induction xs as [|y ys IH]; intros x Hx Hxs; [exact Hx|].
  cbn [fold_left]. inversion Hxs as [|? ? Hy Hys]; subst. apply IH; [|exact Hys].
  destruct Hx, Hy. split.
  - apply Qle_trans with x; [assumption | apply Q.le_max_l].
  - apply Q.max_lub; assumption.
Qed.

Lemma count_filter_bounded {A} (f : A -> bool) (l : list A) :
  (Z.of_nat (List.length l) < 2 ^ 32)%Z ->
  Binary64.bounded (inject_Z (2 ^ 32)) (JS.count (filter f l)).
Proof.
  intros H. pose proof (filter_length_le f l) as Hle. unfold JS.count, Binary64.bounded.
  split.
  - apply Qle_trans with 0; [vm_compute; discriminate|].
    unfold Qle, inject_Z. cbn [Qnum Qden]. lia.
  - unfold Qle, inject_Z. cbn [Qnum Qden]. lia.
Qed.

(** The value returned is the clamped last result. *)
Lemma calculateLibraryRisk64_operations (v : VulnInput) (vs : list VulnInput)
    (confidence : Q) (exploit : bool) :
  RiskCalculator64.calculateLibraryRisk (v :: vs) confidence exploit
  = Qmin 100 (Qmax 0 (last (RiskCalculator64.operations (v :: vs) confidence exploit) 0)).
Proof.
  unfold RiskCalculator64.calculateLibraryRisk, RiskCalculator64.operations.
  destruct exploit; reflexivity.
Qed.

(** With arguments in range every operation of [calculateLibraryRisk]
    gives a double. *)
Lemma operations_finite (vulns : list VulnInput) (confidence : Q) (exploit : bool) :
  RiskCalculator64.in_range vulns confidence ->
  Forall Binary64.finite (RiskCalculator64.operations vulns confidence exploit).
Proof.
  intros (Hs & Hc & Hlen). destruct vulns as [|v vs]; [constructor|].
  unfold RiskCalculator64.operations. cbv zeta.
  assert (Hm : Binary64.bounded (Binary64.pow2 500)
                       (JS.Math_max (cvssOrZero v) (map cvssOrZero vs))).
  { inversion Hs as [|? ? Hv Hvs]; subst.
    apply Math_max_bounded; [exact Hv|].
    clear -Hvs. induction Hvs as [|x l Hx _ IH]; cbn [map]; constructor; assumption. }
  pose proof (count_filter_bounded isCritical (v :: vs) Hlen) as Hk.
  set (m := JS.Math_max _ _) in *. set (k := JS.count _) in *.
  assert (H10 : Binary64.bounded 10 10) by (split; vm_compute; discriminate).
  assert (H15 : Binary64.bounded 15 15) by (split; vm_compute; discriminate).
  assert (H32 : Binary64.bounded (3 # 2) (3 # 2)) by (split; vm_compute; discriminate).
  pose proof (mul_bounded _ _ _ _ Hm H10) as Ha.
  pose proof (div100_bounded _ _ Hc) as Hb.
  pose proof (mul_bounded _ _ _ _ Ha Hb) as Hp.
  pose proof (mul_bounded _ _ _ _ Hk H15) as Hd.
  pose proof (add_bounded _ _ _ _ Hp Hd) as He.
  pose proof (mul_bounded _ _ _ _ He H32) as Hf.
  repeat (apply Forall_cons;
          [eapply bounded_finite; [eassumption | vm_compute; reflexivity]|]).
  destruct exploit; [|constructor].
  apply Forall_cons; [|constructor].
  eapply bounded_finite; [exact Hf | vm_compute; reflexivity].
Qed.

(** In doubles too the source computes the value the specification
    describes. *)
Lemma library_risk64_refines_spec (v : VulnInput) (vs : list VulnInput)
    (confidence : Q) (exploit : bool) :
  RiskCalculator64.calculateLibraryRisk (v :: vs) confidence exploit
  == RiskCalculator64.spec_libraryRisk (v :: vs) confidence exploit.
Proof.
  unfold RiskCalculator64.calculateLibraryRisk, RiskCalculator64.spec_libraryRisk.
  cbv zeta. rewrite clamp_min_max. apply clamp_compat.
  rewrite count_critical_spec.
  pose proof (Math_max_spec_maxCvss v vs) as Hmax.
  set (m := JS.Math_max (cvssOrZero v) (map cvssOrZero vs)) in *.
  set (m' := spec_maxCvss (v :: vs)) in *.
  set (k := inject_Z (spec_criticalCount (v :: vs))).
  assert (E : Binary64.add (Binary64.mul (Binary64.mul m 10) (Binary64.div confidence 100))
                           (Binary64.mul k 15)
              = Binary64.add (Binary64.mul (Binary64.mul m' 10)
                                           (Binary64.div confidence 100))
                             (Binary64.mul 15 k)).
  { rewrite (mul_comm k 15). f_equal. f_equal.
    apply mul_compat; [exact Hmax | reflexivity]. }
  destruct exploit.
  - rewrite E, mul_comm. reflexivity.
  - rewrite E. reflexivity.
Qed.

Lemma calculateLibraryRisk64_range (vulns : list VulnInput) (confidence : Q)
    (exploit : bool) :
  0 <= RiskCalculator64.calculateLibraryRisk vulns confidence exploit <= 100.
Proof.
  unfold RiskCalculator64.calculateLibraryRisk. destruct vulns as [|v vs].
  - split; [apply Qle_refl | discriminate].
  - cbv zeta. apply clamp_range.
Qed.

(** [Binary64] computes what the reference semantics of the Standard
    Library computes: on 1800 sample products, sums and quotients of
    quotients of integers each, on 216 samples with subnormal and large
    operands, and on the scores of the examples below. *)
Lemma binary64_agrees_with_reference :
  Binary64Reference.on_samples Binary64Reference.agree_mul = true
  /\ Binary64Reference.on_samples Binary64Reference.agree_add = true
  /\ Binary64Reference.on_samples Binary64Reference.agree_div = true
  /\ Binary64Reference.on_scaled_samples = true
  /\ Binary64Reference.same (Binary64Reference.reference_score 98 80 1)
       (RiskCalculator64.calculateLibraryRisk
          [mkVuln (Some (Binary64.round (98 # 10))) "CRITICAL"] 80 false) = true
  /\ Binary64Reference.same (Binary64Reference.reference_score 85 70 0)
       (RiskCalculator64.calculateLibraryRisk
          [mkVuln (Some (Binary64.round (85 # 10))) "HIGH"] 70 false) = true.
Proof.
  split; [vm_compute; reflexivity|]. split; [vm_compute; reflexivity|].
  split; [vm_compute; reflexivity|]. split; [vm_compute; reflexivity|].
  split; [vm_compute; reflexivity|]. vm_compute; reflexivity.
Qed.

(** Rounding is visible in what is stored: one advisory of score 8.5 at
    confidence 70 gives 59.49999999999999 in doubles, stored as 59, where
    exact arithmetic gives 59.5, which would be stored as 60. *)
Lemma stored_score_follows_doubles :
  RiskCalculator64.calculateLibraryRisk
    [mkVuln (Some (Binary64.round (85 # 10))) "HIGH"] 70 false
  < 595 # 10
  /\ JS.Math_round (RiskCalculator64.calculateLibraryRisk
                      [mkVuln (Some (Binary64.round (85 # 10))) "HIGH"] 70 false) = 59%Z
  /\ calculateLibraryRisk [mkVuln (Some (85 # 10)) "HIGH"] 70 false == 595 # 10
  /\ JS.Math_round (calculateLibraryRisk [mkVuln (Some (85 # 10)) "HIGH"] 70 false)
     = 60%Z.
Proof.
  split; [vm_compute; reflexivity|]. split; [vm_compute; reflexivity|].
  split; vm_compute; reflexivity.
Qed.

Lemma Math_max_app_le (x : Q) (xs ys : list Q) :
  JS.Math_max x xs <= JS.Math_max x (xs ++ ys).
Proof.
  apply Math_max_lub. split.
  - apply Math_max_ge_first.
  - pose proof (Math_max_ge_all x (xs ++ ys)) as H.
    rewrite Forall_forall in H. apply Forall_forall. intros y Hy.
    apply H. apply in_or_app. left. exact Hy.
Qed.

Lemma count_filter_app_le {A} (p : A -> bool) (l l' : list A) :
  JS.count (filter p l) <= JS.count (filter p (l ++ l')).
Proof.
  unfold JS.count. rewrite filter_app, length_app.
  rewrite <- Zle_Qle. lia.
Qed.

Lemma count_nonneg {A} (l : list A) : 0 <= JS.count l.
Proof.
  unfold JS.count. change 0 with (inject_Z 0). rewrite <- Zle_Qle. lia.
Qed.

Lemma library_risk_append (vulns : list VulnInput) (v : VulnInput)
    (confidence : Q) (exploit : bool) :
  0 <= confidence ->
  calculateLibraryRisk vulns confidence exploit
  <= calculateLibraryRisk (vulns ++ [v]) confidence exploit.
Proof.
  intros Hc.
  destruct vulns as [|w ws].
  - simpl app. unfold calculateLibraryRisk at 1. apply clamp_range.
  - change ((w :: ws) ++ [v])%list with (w :: (ws ++ [v]))%list.
    unfold calculateLibraryRisk. cbv zeta.
    apply clamp_mono.
    pose proof (Math_max_app_le (cvssOrZero w) (map cvssOrZero ws) (map cvssOrZero [v]))
      as Hm.
    rewrite <- map_app in Hm.
    pose proof (count_filter_app_le isCritical (w :: ws) [v]) as Hk.
    change ((w :: ws) ++ [v])%list with (w :: (ws ++ [v]))%list in Hk.
    set (m1 := JS.Math_max (cvssOrZero w) (map cvssOrZero ws)) in *.
    set (m2 := JS.Math_max (cvssOrZero w) (map cvssOrZero (ws ++ [v]))) in *.
    set (k1 := JS.count (filter isCritical (w :: ws))) in *.
    set (k2 := JS.count (filter isCritical (w :: ws ++ [v]))) in *.
    assert (Hd : 0 <= confidence / 100).
    { apply Qle_shift_div_l; lra. }
    assert (Hbase : m1 * 10 * (confidence / 100) <= m2 * 10 * (confidence / 100)).
    { apply Qmult_le_compat_r; [lra | exact Hd]. }
    destruct exploit; lra.
Qed.

Lemma global_risk_critical_mono (risks : list Q) (c1 c2 : Q) :
  c1 <= c2 -> calculateGlobalRisk risks c1 <= calculateGlobalRisk risks c2.
Proof.
  intros H. destruct risks as [|r rs]; [apply Qle_refl|].
  unfold calculateGlobalRisk. cbv zeta. apply clamp_mono. lra.
Qed.

Lemma Math_round_mono (x y : Q) : x <= y -> (JS.Math_round x <= JS.Math_round y)%Z.
Proof.
  intros H. unfold JS.Math_round. apply Qfloor_resp_le. lra.
Qed.

(** What the enrichment does with one library when its key is not in the
    cache and the feed answers. *)
Lemma enrichLibrary_from_feed (w : MinimalAnalyzer.World) (now : Z) (db : Store.DB)
    (lib : Store.Library) (first : MinimalAnalyzer.OsvVulnerability)
    (others : list MinimalAnalyzer.OsvVulnerability) :
  Store.lib_name lib <> ""%string ->
  Store.getVulnerabilityCacheEntry db (Store.lib_name lib) (versionKey lib) now = None ->
  MinimalAnalyzer.osv w (Store.lib_name lib) (versionKey lib) = first :: others ->
  Store.lib_riskScore (snd (MinimalAnalyzer.enrichLibrary w now db lib))
  = MinimalAnalyzer.enrichedRiskScore lib
      (map (fun v => MinimalAnalyzer.riskInput (MinimalAnalyzer.osv_score v))
           (first :: others))
  /\ Store.lib_vulnerabilities (snd (MinimalAnalyzer.enrichLibrary w now db lib))
     = (Store.lib_vulnerabilities lib
        ++ map (fun v => Store.mkVulnerability (MinimalAnalyzer.osv_id v)
                           (MinimalAnalyzer.severityLevel
                              (MinimalAnalyzer.sevStr (MinimalAnalyzer.osv_score v)))
                           (MinimalAnalyzer.osv_score v))
               (first :: others))%list.
Proof.
  intros Hname Hcache Hosv. unfold MinimalAnalyzer.enrichLibrary. cbv zeta.
  unfold versionKey in Hcache, Hosv. rewrite Hcache.
  destruct (String.eqb_spec (Store.lib_name lib) "") as [E|_]; [contradiction|].
  rewrite Hosv. cbn [snd MinimalAnalyzer.set_vulnerabilities Store.lib_riskScore
                     Store.lib_vulnerabilities].
  split; reflexivity.
Qed.

(** What it does when the key is in the cache with vulnerabilities. *)
Lemma enrichLibrary_from_cache (w : MinimalAnalyzer.World) (now : Z) (db : Store.DB)
    (lib : Store.Library) (cached : Store.CacheEntry) (first : Store.Vulnerability)
    (others : list Store.Vulnerability) :
  Store.getVulnerabilityCacheEntry db (Store.lib_name lib) (versionKey lib) now
  = Some cached ->
  Store.entry_vulnerabilities cached = first :: others ->
  MinimalAnalyzer.enrichLibrary w now db lib
  = (db, MinimalAnalyzer.set_vulnerabilities lib
           (Store.lib_vulnerabilities lib ++ first :: others)
           (MinimalAnalyzer.enrichedRiskScore lib
              (map (fun v => MinimalAnalyzer.riskInput (Store.vuln_cvssScore v))
                   (first :: others)))).
Proof.
  intros Hcache Hvulns. unfold MinimalAnalyzer.enrichLibrary. cbv zeta.
  unfold versionKey in Hcache. rewrite Hcache, Hvulns. reflexivity.
Qed.

(** C5: for a non-empty vulnerability list whose scores and confidence are
    in range, every operation of [calculateLibraryRisk] gives a double, and
    the value computed, in doubles as the code computes it, is the one the
    specification describes, evaluated in doubles in the order it is
    worded: the greatest CVSS score times 10, scaled by confidence/100,
    plus 15 per critical vulnerability, times 1.5 with a public exploit,
    clamped to [0,100].  One advisory of score 9.8 at confidence 80 without
    public exploit gives the double written 93.4, which [Math.round] takes
    to 93.  Accordingly the enrichment of the minimal analyzer gives a
    library of confidence 80 the risk score 93 when the feed, or the cache,
    holds that one advisory for it, and 84 or 64 to the libraries it
    detects itself, whose confidence is 70 or 50. *)
Theorem C5_library_risk_formula :
  (forall vulns confidence exploit,
     vulns <> [] ->
     RiskCalculator64.in_range vulns confidence ->
     Forall Binary64.finite (RiskCalculator64.operations vulns confidence exploit)
     /\ RiskCalculator64.calculateLibraryRisk vulns confidence exploit
        == RiskCalculator64.spec_libraryRisk vulns confidence exploit
     /\ 0 <= RiskCalculator64.calculateLibraryRisk vulns confidence exploit <= 100)
  /\ (let risk :=
        RiskCalculator64.calculateLibraryRisk
          [mkVuln (Some (Binary64.round (98 # 10))) "CRITICAL"] 80 false in
      risk == Binary64.round (934 # 10)
      /\ 92 <= risk <= 94
      /\ JS.Math_round risk = 93%Z)
  /\ (forall w now db lib id,
        Store.lib_confidence lib = Some 80%Z ->
        Store.lib_name lib <> ""%string ->
        Store.getVulnerabilityCacheEntry db (Store.lib_name lib) (versionKey lib) now
        = None ->
        MinimalAnalyzer.osv w (Store.lib_name lib) (versionKey lib)
        = [MinimalAnalyzer.mkOsv id (Some (Binary64.round (98 # 10)))] ->
        let enriched := snd (MinimalAnalyzer.enrichLibrary w now db lib) in
        Store.lib_riskScore enriched = 93%Z
        /\ Store.lib_vulnerabilities enriched
           = (Store.lib_vulnerabilities lib
              ++ [Store.mkVulnerability id Store.CRITICAL
                    (Some (Binary64.round (98 # 10)))])%list)
  /\ (forall w now db lib cached id level,
        Store.lib_confidence lib = Some 80%Z ->
        Store.getVulnerabilityCacheEntry db (Store.lib_name lib) (versionKey lib) now
        = Some cached ->
        Store.entry_vulnerabilities cached
        = [Store.mkVulnerability id level (Some (Binary64.round (98 # 10)))] ->
        let enriched := snd (MinimalAnalyzer.enrichLibrary w now db lib) in
        Store.lib_riskScore enriched = 93%Z
        /\ Store.lib_vulnerabilities enriched
           = (Store.lib_vulnerabilities lib
              ++ [Store.mkVulnerability id level
                    (Some (Binary64.round (98 # 10)))])%list)
  /\ (forall w now db scanId s libId id,
        let lib := Store.with_lib_id (MinimalAnalyzer.libraryOf scanId s) libId in
        Store.lib_name lib <> ""%string ->
        Store.getVulnerabilityCacheEntry db (Store.lib_name lib) (versionKey lib) now
        = None ->
        MinimalAnalyzer.osv w (Store.lib_name lib) (versionKey lib)
        = [MinimalAnalyzer.mkOsv id (Some (Binary64.round (98 # 10)))] ->
        Store.lib_riskScore (snd (MinimalAnalyzer.enrichLibrary w now db lib))
        = if (MinimalAnalyzer.sf_isThirdParty s || MinimalAnalyzer.sf_isInsecure s)%bool
          then 84%Z else 64%Z).
Proof.
  split; [|split; [|split; [|split]]].
  - intros vulns confidence exploit Hne Hrange.
    split; [exact (operations_finite vulns confidence exploit Hrange)|].
    destruct vulns as [|v vs]; [contradiction Hne; reflexivity|].
    split; [apply library_risk64_refines_spec | apply calculateLibraryRisk64_range].
  - cbv zeta. split; [vm_compute; reflexivity|].
    split; [split; vm_compute; discriminate | vm_compute; reflexivity].
  - intros w now db lib id Hc Hname Hcache Hosv. cbv zeta.
    destruct (enrichLibrary_from_feed w now db lib _ [] Hname Hcache Hosv)
      as [Hrisk Hvulns].
    rewrite Hrisk, Hvulns. split; [|reflexivity].
    unfold MinimalAnalyzer.enrichedRiskScore, MinimalAnalyzer.confidenceOr50.
    rewrite Hc. vm_compute. reflexivity.
  - intros w now db lib cached id level Hc Hcache Hvulns. cbv zeta.
    rewrite (enrichLibrary_from_cache w now db lib cached _ [] Hcache Hvulns).
    cbn [snd MinimalAnalyzer.set_vulnerabilities Store.lib_riskScore
         Store.lib_vulnerabilities].
    split; [|reflexivity].
    unfold MinimalAnalyzer.enrichedRiskScore, MinimalAnalyzer.confidenceOr50.
    rewrite Hc. vm_compute. reflexivity.
  - intros w now db scanId s libId id lib Hname Hcache Hosv.
    destruct (enrichLibrary_from_feed w now db lib _ [] Hname Hcache Hosv) as [Hrisk _].
    rewrite Hrisk. unfold MinimalAnalyzer.enrichedRiskScore, MinimalAnalyzer.confidenceOr50.
    subst lib. unfold MinimalAnalyzer.libraryOf, MinimalAnalyzer.scriptConfidence.
    cbv zeta. cbn [Store.with_lib_id Store.lib_confidence].
    destruct (MinimalAnalyzer.sf_isThirdParty s || MinimalAnalyzer.sf_isInsecure s)%bool;
      vm_compute; reflexivity.
Qed.

Lemma C5_library_risk_formula_witness :
  (Scenarios.jquery_inputs <> []
   /\ RiskCalculator64.in_range Scenarios.jquery_inputs 80
   /\ RiskCalculator64.calculateLibraryRisk Scenarios.jquery_inputs 80 false
      == RiskCalculator64.spec_libraryRisk Scenarios.jquery_inputs 80 false)
  /\ Store.lib_confidence Scenarios.jquery = Some 80%Z
  /\ Store.lib_riskScore
       (snd (MinimalAnalyzer.enrichLibrary Scenarios.jquery_world 2000%Z Store.empty
               Scenarios.jquery)) = 93%Z.
Proof.
  assert (Hne : Scenarios.jquery_inputs <> []) by discriminate.
  assert (Hrange : RiskCalculator64.in_range Scenarios.jquery_inputs 80).
  { split; [|split].
    - constructor; [split; vm_compute; discriminate | constructor].
    - split; vm_compute; discriminate.
    - reflexivity. }
  split; [split; [exact Hne | split; [exact Hrange|]]|split; [reflexivity|]].
  - exact (proj1 (proj2 (proj1 C5_library_risk_formula Scenarios.jquery_inputs 80 false
                           Hne Hrange))).
  - apply (proj1 (proj2 (proj2 C5_library_risk_formula))
             Scenarios.jquery_world 2000%Z Store.empty Scenarios.jquery
             "GHSA-gxr4-xjj5-5px2"%string).
    + reflexivity.
    + discriminate.
    + reflexivity.
    + reflexivity.
Defined.

(** C6: with the library's confidence fixed (and not negative, as the data
    model has it), appending a vulnerability to the list never lowers
    [calculateLibraryRisk]; with the library risks fixed, a larger count of
    critical findings never lowers [calculateGlobalRisk]. *)
Theorem C6_risk_monotone :
  (forall vulns v confidence exploit,
     0 <= confidence ->
     calculateLibraryRisk vulns confidence exploit
     <= calculateLibraryRisk (vulns ++ [v]) confidence exploit)
  /\ (forall risks c1 c2,
        c1 <= c2 ->
        calculateGlobalRisk risks c1 <= calculateGlobalRisk risks c2).
Proof.
  split.
  - intros. apply library_risk_append. assumption.
  - intros. apply global_risk_critical_mono. assumption.
Qed.

Lemma C6_risk_monotone_witness :
  0 <= 80
  /\ calculateLibraryRisk [mkVuln (Some 5) "MEDIUM"] 80 false
     <= calculateLibraryRisk ([mkVuln (Some 5) "MEDIUM"] ++ [mkVuln (Some (98 # 10)) "CRITICAL"])
          80 false
  /\ 1 <= 2
  /\ calculateGlobalRisk [40; 75] 1 <= calculateGlobalRisk [40; 75] 2.
Proof.
  split; [lra|]. split.
  - apply (proj1 C6_risk_monotone). lra.
  - split; [lra|]. apply (proj2 C6_risk_monotone). lra.
Defined.

End RiskProofs.

(* ================================================================== *)
(** * SSRF defence: properties *)
(* ================================================================== *)

Section SsrfProofs.

Import Store UrlValidator TaskQueue ScanRoutes.
Import Props.
Local Open Scope string_scope.
Local Open Scope Z_scope.

Lemma octets_ok_all : forallb octet_ok (map Z.of_nat (seq 0 256)) = true.
Proof. vm_compute. reflexivity. Qed.

Lemma octet_ok_range (n : Z) : 0 <= n <= 255 -> octet_ok n = true.
Proof.
  intros H.
  pose proof octets_ok_all as Hall.
  rewrite forallb_forall in Hall. apply Hall.
  apply in_map_iff. exists (Z.to_nat n). split; [lia|].
  apply in_seq. lia.
Qed.

Lemma octet_facts (n : Z) :
  0 <= n <= 255 ->
  Node.v4Seg (decimal n) = true /\ Str.parseInt (decimal n) = Some n
  /\ no_dot (decimal n) = true.
Proof.
  intros H. pose proof (octet_ok_range n H) as Hok.
  unfold octet_ok in Hok.
  apply andb_true_iff in Hok. destruct Hok as [Hok Hd].
  apply andb_true_iff in Hok. destruct Hok as [Hv Hp].
  repeat split; try assumption.
  unfold option_Z_eqb in Hp.
  destruct (Str.parseInt (decimal n)) as [x|]; [|discriminate].
  apply Z.eqb_eq in Hp. subst. reflexivity.
Qed.

Lemma split_char_no_dot (a : string) :
  no_dot a = true -> Str.split_char "." a = [a].
Proof.
  induction a as [|c r IH]; intros H; [reflexivity|].
  simpl in H. apply andb_true_iff in H. destruct H as [Hc Hr].
  simpl. apply negb_true_iff in Hc. rewrite Hc, (IH Hr). reflexivity.
Qed.

Lemma split_char_dot (a rest : string) :
  no_dot a = true ->
  Str.split_char "." (a ++ String "." rest) = a :: Str.split_char "." rest.
Proof.
  induction a as [|c r IH]; intros H.
  - reflexivity.
  - simpl in H. apply andb_true_iff in H. destruct H as [Hc Hr].
    simpl. apply negb_true_iff in Hc. rewrite Hc, (IH Hr). reflexivity.
Qed.

Lemma split_dotted (o1 o2 o3 o4 : Z) :
  0 <= o1 <= 255 -> 0 <= o2 <= 255 -> 0 <= o3 <= 255 -> 0 <= o4 <= 255 ->
  Str.split_char "." (dotted o1 o2 o3 o4)
  = [decimal o1; decimal o2; decimal o3; decimal o4].
Proof.
  intros H1 H2 H3 H4. unfold dotted.
  destruct (octet_facts o1 H1) as [_ [_ D1]].
  destruct (octet_facts o2 H2) as [_ [_ D2]].
  destruct (octet_facts o3 H3) as [_ [_ D3]].
  destruct (octet_facts o4 H4) as [_ [_ D4]].
  change "." with (String "." "").
  change (String "." "" ++ ?x) with (String "." x).
  rewrite (split_char_dot _ _ D1).
  change (String "." "" ++ decimal o3 ++ String "." "" ++ decimal o4)
    with (String "." (decimal o3 ++ String "." "" ++ decimal o4)).
  rewrite (split_char_dot _ _ D2).
  change (String "." "" ++ decimal o4) with (String "." (decimal o4)).
  rewrite (split_char_dot _ _ D3).
  rewrite (split_char_no_dot _ D4). reflexivity.
Qed.

(** On the text of an IPv4 address, [isPrivateIp] decides exactly the five
    private IPv4 ranges of the specification. *)
Lemma isPrivateIp_dotted (o1 o2 o3 o4 : Z) :
  0 <= o1 <= 255 -> 0 <= o2 <= 255 -> 0 <= o3 <= 255 -> 0 <= o4 <= 255 ->
  isPrivateIp (dotted o1 o2 o3 o4) = spec_private_v4 o1 o2.
Proof.
  intros H1 H2 H3 H4.
  destruct (octet_facts o1 H1) as [V1 [P1 _]].
  destruct (octet_facts o2 H2) as [V2 [P2 _]].
  destruct (octet_facts o3 H3) as [V3 [P3 _]].
  destruct (octet_facts o4 H4) as [V4 [P4 _]].
  unfold isPrivateIp, Node.isIP, Node.isIPv4.
  rewrite (split_dotted o1 o2 o3 o4 H1 H2 H3 H4).
  rewrite V1, V2, V3, V4. simpl andb. cbv iota.
  change (4 =? 4) with true. cbv iota.
  simpl map. rewrite P1, P2, P3, P4. simpl.
  unfold spec_private_v4.
  assert (Hs : (Z.shiftr o2 4 =? 1) = (16 <=? o2) && (o2 <=? 31)).
  { rewrite Z.shiftr_div_pow2 by lia. change (2 ^ 4) with 16.
    destruct (Z.eqb_spec (o2 / 16) 1) as [E|E];
      destruct (Z.leb_spec 16 o2); destruct (Z.leb_spec o2 31);
      simpl; try reflexivity; exfalso;
      try (apply E); try (revert E); Z.div_mod_to_equations; lia. }
  rewrite Hs.
  destruct (o1 =? 10), (o1 =? 127), (o1 =? 169), (o1 =? 192), (o1 =? 172),
    (o2 =? 254), (o2 =? 168), (16 <=? o2), (o2 <=? 31); reflexivity.
Qed.

(** A target one of whose resolved addresses [isPrivateIp] flags is never
    accepted. *)
Lemma validate_rejects_flagged_record (net : Net) (rawUrl : string)
    (parsed : URL) (records : list string) :
  new_URL net rawUrl = Some parsed ->
  dns_lookup net (Str.toLowerCase (url_hostname parsed)) = Addresses records ->
  existsb isPrivateIp records = true ->
  exists message, validateTargetUrl net rawUrl = inl message.
Proof.
  intros Hp Hd He. unfold validateTargetUrl. rewrite Hp.
  destruct (negb _ && negb _); [eexists; reflexivity|].
  destruct (_ || _ || _); [eexists; reflexivity|].
  rewrite Hd, He. eexists; reflexivity.
Qed.

(** A request whose URL the validator refuses is answered 400 and leaves
    the database and the queue as they were. *)
Lemma createScan_refused_target (net : Net) (env : option string) (app : App)
    (body : ScanRequest) (now : Z) (url message : string) :
  req_url body = Some url ->
  validateTargetUrl net url = inl message ->
  fst (createScan net env app body now) = app
  /\ http_status (snd (createScan net env app body now)) = 400.
Proof.
  intros Hu Hv. unfold createScan.
  destruct (negb (schema_ok net body)); [split; reflexivity|].
  rewrite Hu, Hv. split; reflexivity.
Qed.

(** Every private IPv4 address among the resolved records makes
    [POST /api/scans] answer 400 without creating a scan or a job. *)
Lemma createScan_rejects_private_v4 (net : Net) (env : option string) (app : App)
    (body : ScanRequest) (now : Z) (url : string) (parsed : URL)
    (records : list string) (o1 o2 o3 o4 : Z) :
  req_url body = Some url ->
  new_URL net url = Some parsed ->
  dns_lookup net (Str.toLowerCase (url_hostname parsed)) = Addresses records ->
  0 <= o1 <= 255 -> 0 <= o2 <= 255 -> 0 <= o3 <= 255 -> 0 <= o4 <= 255 ->
  spec_private_v4 o1 o2 = true ->
  In (dotted o1 o2 o3 o4) records ->
  fst (createScan net env app body now) = app
  /\ http_status (snd (createScan net env app body now)) = 400.
Proof.
  intros Hu Hp Hd H1 H2 H3 H4 Hs Hin.
  destruct (validate_rejects_flagged_record net url parsed records Hp Hd) as [m Hm].
  - apply existsb_exists. exists (dotted o1 o2 o3 o4). split; [exact Hin|].
    rewrite isPrivateIp_dotted by assumption. exact Hs.
  - exact (createScan_refused_target net env app body now url m Hu Hm).
Qed.

(** C1 (fails on the code): fe90::1 lies in fe80::/10, yet [isPrivateIp]
    does not flag it, because the source compares the text with the prefix
    "fe80", which covers fe80::/16 only.  A scan request for a host that
    resolves to it passes [validateTargetUrl]; [POST /api/scans] answers 201,
    inserts the scan and enqueues its job. *)
Theorem C1_link_local_fe90_accepted :
  Node.parse_ipv6 "fe90::1" = Some [65168; 0; 0; 0; 0; 0; 0; 1]
  /\ spec_private_v6 [65168; 0; 0; 0; 0; 0; 0; 1] = true
  /\ isPrivateIp "fe90::1" = false
  /\ validateTargetUrl Scenarios.link_local_net "http://printer.example/"
     = inr (mkURL "http:" "printer.example")
  /\ (let '(app, response) :=
        createScan Scenarios.link_local_net None (mkApp Store.empty (mkQueue [] []))
                   Scenarios.link_local_request 1000 in
      http_status response = 201
      /\ map scan_url (scans (database app)) = ["http://printer.example/"]
      /\ map job_id (scanQueue (taskQueue app)) = [1]).
Proof.
  repeat (split; [vm_compute; reflexivity|]).
  vm_compute; reflexivity.
Qed.

End SsrfProofs.

(* ================================================================== *)
(** * Vulnerability cache: properties *)
(* ================================================================== *)

Section CacheProofs.

Import Store.
Import Props.
Local Open Scope string_scope.
Local Open Scope Z_scope.

Lemma cache_matches_conflicts (packageName version : string) (r : CacheRow) :
  cache_matches packageName (Some version) r = cache_conflicts packageName (Some version) r.
Proof.
  unfold cache_matches, cache_conflicts, option_string_eqb.
  destruct (cache_version r); [reflexivity|].
  apply andb_false_r.
Qed.

Lemma filter_updated_rows (packageName version : string)
    (vulnerabilities : list Vulnerability) (ttl now : Z) (rows : list CacheRow) :
  filter (cache_matches packageName (Some version))
    (map (fun r => if cache_conflicts packageName (Some version) r
                   then mkCacheRow (cache_packageName r) (cache_version r)
                          vulnerabilities now (Some ttl)
                   else r) rows)
  = map (fun r => mkCacheRow (cache_packageName r) (cache_version r)
                    vulnerabilities now (Some ttl))
        (filter (cache_matches packageName (Some version)) rows).
Proof.
  induction rows as [|r rest IH]; [reflexivity|].
  cbn [map filter]. rewrite <- cache_matches_conflicts.
  destruct (cache_matches packageName (Some version) r) eqn:E.
  - replace (cache_matches packageName (Some version)
               (mkCacheRow (cache_packageName r) (cache_version r)
                  vulnerabilities now (Some ttl))) with true
      by (symmetry; exact E).
    cbn [map]. rewrite IH. reflexivity.
  - rewrite E. exact IH.
Qed.

Lemma filter_none_when_no_conflict (packageName version : string)
    (rows : list CacheRow) :
  existsb (cache_conflicts packageName (Some version)) rows = false ->
  filter (cache_matches packageName (Some version)) rows = [].
Proof.
  induction rows as [|r rest IH]; intros H; [reflexivity|].
  cbn [existsb] in H. apply orb_false_iff in H. destruct H as [Hr Hrest].
  cbn [filter]. rewrite cache_matches_conflicts, Hr. apply IH. exact Hrest.
Qed.

Lemma filter_some_when_conflict (packageName version : string)
    (rows : list CacheRow) :
  existsb (cache_conflicts packageName (Some version)) rows = true ->
  filter (cache_matches packageName (Some version)) rows <> [].
Proof.
  induction rows as [|r rest IH]; intros H; [discriminate|].
  cbn [existsb] in H. cbn [filter]. rewrite cache_matches_conflicts.
  destruct (cache_conflicts packageName (Some version) r); [discriminate|].
  apply IH. exact H.
Qed.

(** For a key with a version, a read after an upsert is a hit with the
    stored list exactly as long as the entry has not expired. *)
Lemma cache_read_after_upsert_versioned (db : DB) (packageName version : string)
    (vulnerabilities : list Vulnerability) (ttl t now : Z) :
  getVulnerabilityCacheEntry
    (upsertVulnerabilityCacheEntry db packageName (Some version) vulnerabilities ttl t)
    packageName (Some version) now
  = if now >? t + ttl * 1000 then None
    else Some (mkCacheEntry vulnerabilities t ttl).
Proof.
  unfold upsertVulnerabilityCacheEntry, getVulnerabilityCacheEntry.
  destruct (existsb (cache_conflicts packageName (Some version))
              (vulnerability_cache db)) eqn:E.
  - unfold set_cache. cbn [vulnerability_cache]. rewrite filter_updated_rows.
    pose proof (filter_some_when_conflict _ _ _ E) as Hne.
    destruct (filter (cache_matches packageName (Some version))
                (vulnerability_cache db)) as [|r rest]; [contradiction|].
    reflexivity.
  - unfold set_cache. cbn [vulnerability_cache]. rewrite filter_app.
    rewrite (filter_none_when_no_conflict _ _ _ E).
    cbn [filter app]. unfold cache_matches, option_string_eqb.
    cbn [cache_packageName cache_version].
    rewrite !String.eqb_refl. reflexivity.
Qed.

(** C8 (fails on the code): for a key whose version is NULL the
    [ON CONFLICT] clause never fires, so the second upsert adds a second row
    and the read keeps selecting the first one.  500 ms after the second
    upsert, well inside its ttl of one second, the read is a miss. *)
Theorem C8_null_version_read_misses_fresh_entry :
  (5500 <=? 5000 + 1 * 1000) = true
  /\ map cache_lastUpdated (vulnerability_cache Scenarios.cache_after_second) = [0; 5000]
  /\ getVulnerabilityCacheEntry Scenarios.cache_after_first "lodash" None 500
     = Some (mkCacheEntry [Scenarios.advisory_old] 0 1)
  /\ getVulnerabilityCacheEntry Scenarios.cache_after_second "lodash" None 5500 = None.
Proof.
  repeat (split; [vm_compute; reflexivity|]).
  vm_compute; reflexivity.
Qed.

End CacheProofs.

(* ================================================================== *)
(** * Scan lifecycle: properties *)
(* ================================================================== *)

Section LifecycleProofs.

Import Store TaskQueue ScanRoutes AnalysisWorker.
Import Props.
Local Open Scope string_scope.
Local Open Scope Z_scope.

Lemma app_eta (app : App) : mkApp (database app) (taskQueue app) = app.
Proof. destruct app; reflexivity. Qed.

Lemma getScan_exists (db : DB) (id : Z) (scan : Scan) :
  getScan db id = Some scan -> exists_scan db id = true.
Proof.
  unfold getScan, exists_scan. intros H.
  apply existsb_exists. exists scan.
  apply find_some in H. exact H.
Qed.

Lemma getScan_id (db : DB) (id : Z) (scan : Scan) :
  getScan db id = Some scan -> scan_id scan = id.
Proof.
  unfold getScan. intros H. apply find_some in H. destruct H as [_ H].
  apply Z.eqb_eq. exact H.
Qed.

Lemma find_map_update (f : Scan -> Scan) (id : Z) (rows : list Scan) (scan : Scan) :
  (forall s, scan_id (f s) = scan_id s) ->
  find (fun s => scan_id s =? id) rows = Some scan ->
  find (fun s => scan_id s =? id)
       (map (fun s => if scan_id s =? id then f s else s) rows) = Some (f scan).
Proof.
  intros Hid. induction rows as [|r rest IH]; intros H; [discriminate|].
  cbn [find map] in *.
  destruct (scan_id r =? id) eqn:E.
  - inversion H; subst. rewrite Hid, E. reflexivity.
  - rewrite E. apply IH. exact H.
Qed.

(** After the [UPDATE] the row of the scan carries the new status. *)
Lemma getScan_after_update (db : DB) (id : Z) (status : ScanStatus)
    (error : option string) (now : Z) (scan : Scan) :
  getScan db id = Some scan ->
  getScan (update_status_stmt db id status error now) id
  = Some (update_status_row status error now scan).
Proof.
  intros H. unfold update_status_stmt.
  rewrite (getScan_exists db id scan H).
  unfold getScan, log_status, set_scans. cbn [scans].
  apply find_map_update; [reflexivity | exact H].
Qed.

Lemma effective_is_overlay (dbStatus : ScanStatus) (job : option JobStatus) :
  effective_status dbStatus job
  = spec_overlay dbStatus (option_map js_status job)
      (match job with
       | Some js => option_map result_success (js_result js)
       | None => None
       end).
Proof.
  destruct job as [js|]; [|reflexivity].
  unfold effective_status, spec_overlay, one_of. cbn [option_map existsb].
  rewrite !orb_false_r.
  rewrite (String.eqb_sym (js_status js) "active"),
          (String.eqb_sym (js_status js) "waiting"),
          (String.eqb_sym (js_status js) "delayed"),
          (String.eqb_sym (js_status js) "completed"),
          (String.eqb_sym (js_status js) "failed"),
          (String.eqb_sym (js_status js) "dead-letter").
  destruct ("active" =? js_status js)%string, ("waiting" =? js_status js)%string,
    ("delayed" =? js_status js)%string; try reflexivity.
  cbn [orb].
  destruct ("completed" =? js_status js)%string.
  - destruct (js_result js) as [[[|]]|]; reflexivity.
  - reflexivity.
Qed.

(** The overlay never yields pending, unless the database says so. *)
Lemma effective_pending (dbStatus : ScanStatus) (job : option JobStatus) :
  effective_status dbStatus job = PENDING -> dbStatus = PENDING.
Proof.
  unfold effective_status. destruct job as [js|]; [|intros H; exact H].
  destruct (_ || _ || _); [discriminate|].
  destruct (js_status js =? "completed")%string.
  - destruct (js_result js) as [r|]; [destruct (negb (result_success r))|]; discriminate.
  - destruct (_ || _); [discriminate|]. intros H; exact H.
Qed.

Lemma status_eqb_eq (a b : ScanStatus) : status_eqb a b = true <-> a = b.
Proof. destruct a, b; simpl; split; intros H; try reflexivity; discriminate. Qed.

Lemma status_eqb_neq (a b : ScanStatus) : status_eqb a b = false <-> a <> b.
Proof.
  destruct a, b; simpl; split; intros H; try reflexivity; try discriminate;
    exfalso; apply H; reflexivity.
Qed.

Lemma writes_after_update (db : DB) (id : Z) (status : ScanStatus)
    (error : option string) (now : Z) :
  exists_scan db id = true ->
  status_writes (update_status_stmt db id status error now)
  = (status_writes db ++ [(id, status)])%list.
Proof.
  intros H. unfold update_status_stmt. rewrite H. reflexivity.
Qed.

Lemma writes_of_after_update (db : DB) (id : Z) (status : ScanStatus)
    (error : option string) (now : Z) :
  exists_scan db id = true ->
  writes_of (update_status_stmt db id status error now) id
  = (writes_of db id ++ [status])%list.
Proof.
  intros H. unfold writes_of. rewrite (writes_after_update db id status error now H).
  rewrite filter_app, map_app. cbn [filter fst]. rewrite Z.eqb_refl. reflexivity.
Qed.

(** [getScanStatus] on a scan the database has as pending or running. *)
Lemma getScanStatus_unfinished (app : App) (id now : Z) (scan : Scan) :
  getScan (database app) id = Some scan ->
  terminal (scan_status scan) = false ->
  let job := getScanJobStatus (taskQueue app) id in
  let eff := effective_status (scan_status scan) job in
  fst (getScanStatus app id now)
  = mkApp (if status_eqb eff (scan_status scan) then database app
           else update_status_stmt (database app) id eff (reconciled_error scan job) now)
          (taskQueue app)
  /\ option_map resp_status (snd (getScanStatus app id now)) = Some eff.
Proof.
  intros Hscan Hterm job eff.
  unfold getScanStatus. rewrite Hscan.
  assert (Hjob : match scan_status scan with
                 | PENDING | RUNNING => getScanJobStatus (taskQueue app) id
                 | _ => None
                 end = job).
  { destruct (scan_status scan); try discriminate; reflexivity. }
  rewrite Hjob. fold eff. cbn [fst snd option_map resp_status].
  split; [|reflexivity].
  f_equal.
  destruct (status_eqb eff (scan_status scan)) eqn:E; [reflexivity|].
  cbn [negb andb].
  assert (Hnp : eff <> PENDING).
  { intros Hp. apply status_eqb_neq in E. apply E.
    rewrite Hp. symmetry. apply (effective_pending _ job). exact Hp. }
  replace (status_eqb eff RUNNING || status_eqb eff COMPLETED || status_eqb eff FAILED)
    with true by (destruct eff; try reflexivity; contradiction Hnp; reflexivity).
  unfold Store.updateScanStatus. rewrite (getScan_exists _ _ _ Hscan). reflexivity.
Qed.

(** [getScanStatus] on a scan the database has as completed or failed:
    the queue is not read and nothing is written. *)
Lemma getScanStatus_finished (app : App) (id now : Z) (scan : Scan) :
  getScan (database app) id = Some scan ->
  terminal (scan_status scan) = true ->
  getScanStatus app id now
  = (app, Some (mkStatusResponse (scan_status scan) 100
                  (match scan_status scan with COMPLETED => "completed" | _ => "failed" end)
                  (or_else (scan_error scan) None))).
Proof.
  intros Hscan Hterm. unfold getScanStatus. rewrite Hscan.
  destruct (scan_status scan); try discriminate; cbn; rewrite app_eta; reflexivity.
Qed.

(** A write by the status endpoint moves the scan strictly forward. *)
Lemma reconciliation_moves_forward (app : App) (id now : Z) (scan : Scan) :
  getScan (database app) id = Some scan ->
  let db' := database (fst (getScanStatus app id now)) in
  status_writes db' = status_writes (database app)
  \/ exists s, status_writes db' = (status_writes (database app) ++ [(id, s)])%list
               /\ rank (scan_status scan) < rank s.
Proof.
  intros Hscan db'. subst db'.
  destruct (terminal (scan_status scan)) eqn:Hterm.
  - left. rewrite (getScanStatus_finished app id now scan Hscan Hterm). reflexivity.
  - destruct (getScanStatus_unfinished app id now scan Hscan Hterm) as [Hfst _].
    rewrite Hfst. cbn [database].
    set (eff := effective_status (scan_status scan) (getScanJobStatus (taskQueue app) id)).
    destruct (status_eqb eff (scan_status scan)) eqn:E; [left; reflexivity|].
    right. exists eff. split.
    + apply writes_after_update. apply (getScan_exists _ _ _ Hscan).
    + apply status_eqb_neq in E.
      assert (Hnp : eff <> PENDING).
      { intros Hp. apply E. rewrite Hp. symmetry.
        apply (effective_pending _ (getScanJobStatus (taskQueue app) id)). exact Hp. }
      destruct (scan_status scan), eff; simpl; try lia; try discriminate;
        try (contradiction Hnp; reflexivity); try (contradiction E; reflexivity).
Qed.

(** C4 as it is worded fails: for a scan the database already has as
    completed, the endpoint answers completed although the queue job is in
    state failed. *)
Lemma C4_counterexample :
  ~ (forall app id now scan,
       getScan (database app) id = Some scan ->
       option_map resp_status (snd (getScanStatus app id now))
       = Some (spec_overlay (scan_status scan) (queue_state (taskQueue app) id)
                 (worker_success (taskQueue app) id))).
Proof.
  intros H.
  specialize (H Scenarios.shop_render_failed 1 9000 _ eq_refl).
  vm_compute in H. discriminate H.
Qed.

(** C4, amended: the queue state is overlaid only while the database has
    the scan as pending or running.  Then the answer is the overlay of the
    specification, and after the request the row carries the returned
    status: nothing is written when it is the status of the row already,
    and one write of it is made otherwise.  For a scan the database has as
    completed or failed the queue is not read: the answer is the database
    status with progress 100 and nothing is written.  Without a queue job a
    terminal status is answered with progress 100. *)
Theorem C4_status_overlay_guarded :
  forall app id now scan,
    getScan (database app) id = Some scan ->
    exists resp,
      snd (getScanStatus app id now) = Some resp
      /\ (terminal (scan_status scan) = false ->
          resp_status resp
          = spec_overlay (scan_status scan) (queue_state (taskQueue app) id)
              (worker_success (taskQueue app) id)
          /\ option_map scan_status
               (getScan (database (fst (getScanStatus app id now))) id)
             = Some (resp_status resp)
          /\ (resp_status resp = scan_status scan ->
              fst (getScanStatus app id now) = app)
          /\ (resp_status resp <> scan_status scan ->
              writes_of (database (fst (getScanStatus app id now))) id
              = (writes_of (database app) id ++ [resp_status resp])%list))
      /\ (terminal (scan_status scan) = true ->
          resp_status resp = scan_status scan
          /\ resp_progress resp = 100
          /\ fst (getScanStatus app id now) = app)
      /\ (getScanJobStatus (taskQueue app) id = None ->
          terminal (resp_status resp) = true ->
          resp_progress resp = 100).
Proof.
  intros app id now scan Hscan.
  destruct (terminal (scan_status scan)) eqn:Hterm.
  - rewrite (getScanStatus_finished app id now scan Hscan Hterm).
    eexists. split; [reflexivity|]. cbn [fst snd resp_status resp_progress].
    split; [discriminate|]. split; [|reflexivity].
    intros _. repeat split.
  - destruct (getScanStatus_unfinished app id now scan Hscan Hterm) as [Hfst Hsnd].
    set (job := getScanJobStatus (taskQueue app) id) in *.
    set (eff := effective_status (scan_status scan) job) in *.
    destruct (snd (getScanStatus app id now)) as [resp|] eqn:Hresp; [|discriminate].
    cbn [option_map] in Hsnd. injection Hsnd as Hst.
    exists resp. split; [reflexivity|].
    split; [|split; [discriminate|]].
    + intros _. rewrite Hst, Hfst. cbn [database].
      split; [apply effective_is_overlay|].
      destruct (status_eqb eff (scan_status scan)) eqn:E.
      * apply status_eqb_eq in E. rewrite app_eta.
        split; [rewrite Hscan, E; reflexivity|].
        split; [reflexivity|]. intros Hne. contradiction.
      * split.
        { rewrite (getScan_after_update _ _ _ _ _ _ Hscan). destruct eff; reflexivity. }
        split.
        { intros Heq. apply status_eqb_neq in E. contradiction. }
        { intros _. apply writes_of_after_update. apply (getScan_exists _ _ _ Hscan). }
    + intros Hnone Ht. exfalso.
      rewrite Hst in Ht. subst eff job. rewrite Hnone in Ht.
      cbn [effective_status] in Ht. rewrite Hterm in Ht. discriminate Ht.
Qed.

Lemma C4_status_overlay_guarded_witness :
  getScan (database Scenarios.shop_rendering) 1 = Some Scenarios.shop_row
  /\ exists resp,
       snd (getScanStatus Scenarios.shop_rendering 1 1500) = Some resp
       /\ (terminal (scan_status Scenarios.shop_row) = false ->
           resp_status resp
           = spec_overlay (scan_status Scenarios.shop_row)
               (queue_state (taskQueue Scenarios.shop_rendering) 1)
               (worker_success (taskQueue Scenarios.shop_rendering) 1)
           /\ option_map scan_status
                (getScan (database (fst (getScanStatus Scenarios.shop_rendering 1 1500))) 1)
              = Some (resp_status resp)
           /\ (resp_status resp = scan_status Scenarios.shop_row ->
               fst (getScanStatus Scenarios.shop_rendering 1 1500)
               = Scenarios.shop_rendering)
           /\ (resp_status resp <> scan_status Scenarios.shop_row ->
               writes_of (database (fst (getScanStatus Scenarios.shop_rendering 1 1500))) 1
               = (writes_of (database Scenarios.shop_rendering) 1
                  ++ [resp_status resp])%list))
       /\ (terminal (scan_status Scenarios.shop_row) = true ->
           resp_status resp = scan_status Scenarios.shop_row
           /\ resp_progress resp = 100
           /\ fst (getScanStatus Scenarios.shop_rendering 1 1500)
              = Scenarios.shop_rendering)
       /\ (getScanJobStatus (taskQueue Scenarios.shop_rendering) 1 = None ->
           terminal (resp_status resp) = true ->
           resp_progress resp = 100).
Proof.
  split; [reflexivity|].
  apply (C4_status_overlay_guarded Scenarios.shop_rendering 1 1500 Scenarios.shop_row).
  reflexivity.
Defined.

(** C2 (fails on the code): [processAnalysisTask] does not look at the
    scan before it works.  Delivered again for a scan that is completed
    and has its rows, the task is processed in full (the processing slot
    is free) and every script, library and finding row is inserted a
    second time. *)
Theorem C2_redelivery_inserts_rows_again :
  option_map scan_status (getScan Scenarios.shop_analysed 1) = Some COMPLETED
  /\ (List.length (getScriptsByScan Scenarios.shop_analysed 1),
      List.length (getLibrariesByScan Scenarios.shop_analysed 1),
      List.length (getFindingsByScan Scenarios.shop_analysed 1)) = (1, 1, 1)%nat
  /\ deliver [] Scenarios.shop_analysed 1 (Analysed Scenarios.shop_analysis) 4000 5000
     = Some ([], Scenarios.shop_redelivered)
  /\ (List.length (getScriptsByScan Scenarios.shop_redelivered 1),
      List.length (getLibrariesByScan Scenarios.shop_redelivered 1),
      List.length (getFindingsByScan Scenarios.shop_redelivered 1)) = (2, 2, 2)%nat.
Proof.
  split; [vm_compute; reflexivity|].
  split; [vm_compute; reflexivity|].
  split; vm_compute; reflexivity.
Qed.

(** C3 (fails on the code): the first thing [processAnalysisTask] does is
    to write running, whatever the row says.  On a second delivery the
    sequence of values written to the scan is pending, running, completed,
    running, completed: the fourth write moves a completed scan back to
    running. *)
Theorem C3_redelivery_writes_running_after_completed :
  writes_of Scenarios.shop_analysed 1 = [PENDING; RUNNING; COMPLETED]
  /\ never_backwards (writes_of Scenarios.shop_analysed 1) = true
  /\ writes_of Scenarios.shop_redelivered 1
     = [PENDING; RUNNING; COMPLETED; RUNNING; COMPLETED]
  /\ never_backwards (writes_of Scenarios.shop_redelivered 1) = false.
Proof.
  split; [vm_compute; reflexivity|].
  split; [vm_compute; reflexivity|].
  split; vm_compute; reflexivity.
Qed.

End LifecycleProofs.

(* ================================================================== *)
(** * Per-URL cooldown: properties *)
(* ================================================================== *)

Section CooldownProofs.

Import Store TaskQueue ScanRoutes UrlValidator.
Import Props.
Local Open Scope string_scope.
Local Open Scope Z_scope.

Lemma diff_lt_cooldown (d c : Z) : (d # 1000 < inject_Z c)%Q <-> d < 1000 * c.
Proof. unfold Qlt, inject_Z. cbn [Qnum Qden]. lia. Qed.

Lemma retry_after_bounds (d c : Z) :
  0 <= d -> d < 1000 * c ->
  0 < JS.Math_ceil (inject_Z c - (d # 1000))%Q <= c.
Proof.
  intros Hd Hc. unfold JS.Math_ceil. split.
  - assert (H : (0 < inject_Z (Qceiling (inject_Z c - (d # 1000))))%Q).
    { apply Qlt_le_trans with (inject_Z c - (d # 1000))%Q; [|apply Qle_ceiling].
      apply diff_lt_cooldown in Hc. lra. }
    change 0%Q with (inject_Z 0) in H. rewrite <- Zlt_Qlt in H. exact H.
  - rewrite <- (Qceiling_Z c) at 2. apply Qceiling_resp_le.
    assert (H : (0 <= d # 1000)%Q) by (unfold Qle; cbn [Qnum Qden]; lia).
    lra.
Qed.

(** While the latest scan of the URL is younger than the cooldown, the
    check refuses, with a delay between 1 and the cooldown. *)
Lemma cooldown_check_refuses (db : DB) (env : option string) (url : string)
    (now : Z) (latest : Scan) (rest : list Scan) :
  getRecentScansByUrl db url 1 = latest :: rest ->
  scan_createdAt latest <= now < scan_createdAt latest + 1000 * cooldownSeconds env ->
  exists retryAfter,
    cooldown_check db env url now = Some retryAfter
    /\ 0 < retryAfter <= cooldownSeconds env.
Proof.
  intros Hrecent [Hlo Hhi]. unfold cooldown_check. cbv zeta.
  assert (Hpos : 0 < cooldownSeconds env) by lia.
  apply Z.ltb_lt in Hpos. rewrite Hpos, Hrecent.
  destruct (Qlt_le_dec _ _) as [Hlt|Hge].
  - eexists. split; [reflexivity|]. apply retry_after_bounds; lia.
  - exfalso. apply Qle_not_lt in Hge. apply Hge. apply diff_lt_cooldown. lia.
Qed.

Lemma createScan_in_cooldown (net : Net) (env : option string) (app : App)
    (body : ScanRequest) (now : Z) (url : string) (parsed : URL)
    (latest : Scan) (rest : list Scan) :
  schema_ok net body = true ->
  req_url body = Some url ->
  validateTargetUrl net url = inr parsed ->
  getRecentScansByUrl (database app) url 1 = latest :: rest ->
  scan_createdAt latest <= now < scan_createdAt latest + 1000 * cooldownSeconds env ->
  exists retryAfter,
    createScan net env app body now = (app, TooManyScans retryAfter)
    /\ 0 < retryAfter <= cooldownSeconds env.
Proof.
  intros Hs Hu Hv Hrecent Hwin.
  destruct (cooldown_check_refuses _ env url now latest rest Hrecent Hwin)
    as [r [Hr Hb]].
  exists r. split; [|exact Hb].
  unfold createScan. rewrite Hs, Hu, Hv, Hr. reflexivity.
Qed.

(** C7: a valid scan request for an allowed target that arrives while the
    most recent scan of the same URL is younger than the cooldown is
    answered 429 with [retryAfterSeconds] in (0, cooldown]; the database
    and the queue stay as they were. *)
Theorem C7_cooldown_refuses_with_429 :
  forall net env app body now url parsed latest rest,
    schema_ok net body = true ->
    req_url body = Some url ->
    validateTargetUrl net url = inr parsed ->
    getRecentScansByUrl (database app) url 1 = latest :: rest ->
    scan_createdAt latest <= now < scan_createdAt latest + 1000 * cooldownSeconds env ->
    exists retryAfter,
      createScan net env app body now = (app, TooManyScans retryAfter)
      /\ http_status (snd (createScan net env app body now)) = 429
      /\ 0 < retryAfter <= cooldownSeconds env.
Proof.
  intros net env app body now url parsed latest rest Hs Hu Hv Hrecent Hwin.
  destruct (createScan_in_cooldown net env app body now url parsed latest rest
              Hs Hu Hv Hrecent Hwin) as [r [Hr Hb]].
  exists r. rewrite Hr. repeat split; try reflexivity; apply Hb.
Qed.

Lemma C7_cooldown_refuses_with_429_witness :
  exists retryAfter,
    createScan Scenarios.public_net None Scenarios.shop_scanned_once
               Scenarios.shop_request 6000
    = (Scenarios.shop_scanned_once, TooManyScans retryAfter)
    /\ http_status (snd (createScan Scenarios.public_net None Scenarios.shop_scanned_once
                           Scenarios.shop_request 6000)) = 429
    /\ 0 < retryAfter <= cooldownSeconds None.
Proof.
  apply (C7_cooldown_refuses_with_429 Scenarios.public_net None
           Scenarios.shop_scanned_once Scenarios.shop_request 6000
           "https://shop.example/" (mkURL "https:" "shop.example")
           (mkScan 1 "https://shop.example/" PENDING 1000 None None 0 None) []).
  - reflexivity.
  - reflexivity.
  - reflexivity.
  - reflexivity.
  - vm_compute. split; [discriminate | reflexivity].
Defined.

End CooldownProofs.

(* ================================================================== *)
(** * Minimal analyzer: properties *)
(* ================================================================== *)

Section AnalyzerProofs.

Import Store UrlValidator MinimalAnalyzer.
Import Props.
Local Open Scope string_scope.
Local Open Scope Z_scope.

Lemma count_severity_app (level : RiskLevel) (a b : list Finding) :
  count_severity level (a ++ b)
  = (count_severity level a + count_severity level b)%nat.
Proof. unfold count_severity. rewrite filter_app, length_app. reflexivity. Qed.

Lemma cookie_body_invariant (scanId : Z) (st : CookieState) (raw : string) :
  cookie_invariant st -> cookie_invariant (cookie_body scanId st raw).
Proof.
  intros [Hh [Hm Hl]]. unfold cookie_body. cbv zeta.
  destruct (_ && _ && negb (reportedSensitiveCookie st)) eqn:E1.
  - apply andb_true_iff in E1. destruct E1 as [_ E1]. apply negb_true_iff in E1.
    unfold cookie_invariant. cbn [pushed reportedSensitiveCookie reportedGenericCookie].
    rewrite !count_severity_app, length_app, Hh, Hm, Hl, E1.
    cbn. repeat split; lia.
  - destruct (_ && _ && negb (reportedGenericCookie st)) eqn:E2.
    + apply andb_true_iff in E2. destruct E2 as [_ E2]. apply negb_true_iff in E2.
      unfold cookie_invariant. cbn [pushed reportedSensitiveCookie reportedGenericCookie].
      rewrite !count_severity_app, length_app, Hh, Hm, Hl, E2.
      cbn. repeat split; lia.
    + repeat split; assumption.
Qed.

Lemma cookie_loop_invariant (scanId : Z) (rawCookies : list string) :
  forall st, cookie_invariant st -> cookie_invariant (cookie_loop scanId st rawCookies).
Proof.
  induction rawCookies as [|raw rest IH]; intros st Hst; [exact Hst|].
  cbn [cookie_loop].
  destruct (String.eqb (Str.trim raw) ""); [apply IH; exact Hst|].
  pose proof (cookie_body_invariant scanId st raw Hst) as Hb.
  destruct (_ && _); [exact Hb | apply IH; exact Hb].
Qed.

(** Once both flags are set the loop is over, whatever is left. *)
Lemma cookie_loop_done (scanId : Z) (rawCookies : list string) (st : CookieState) :
  reportedSensitiveCookie st = true -> reportedGenericCookie st = true ->
  cookie_loop scanId st rawCookies = st.
Proof.
  intros Hs Hg. induction rawCookies as [|raw rest IH]; [reflexivity|].
  cbn [cookie_loop]. destruct (String.eqb (Str.trim raw) ""); [exact IH|].
  assert (Hb : cookie_body scanId st raw = st).
  { unfold cookie_body. cbv zeta. rewrite Hs, Hg.
    cbn [negb]. rewrite !andb_false_r. reflexivity. }
  rewrite Hb, Hs, Hg. reflexivity.
Qed.

Lemma cookie_loop_break (scanId : Z) (seen rest : list string) :
  forall st,
    reportedSensitiveCookie (cookie_loop scanId st seen) = true ->
    reportedGenericCookie (cookie_loop scanId st seen) = true ->
    cookie_loop scanId st (seen ++ rest) = cookie_loop scanId st seen.
Proof.
  induction seen as [|raw more IH]; intros st Hs Hg.
  - cbn [cookie_loop app] in *. apply cookie_loop_done; assumption.
  - cbn [cookie_loop app] in *.
    destruct (String.eqb (Str.trim raw) ""); [apply IH; assumption|].
    destruct (_ && _); [reflexivity | apply IH; assumption].
Qed.

Lemma cookieFindings_invariant (scanId : Z) (setCookie : option string) :
  exists st, cookieFindings scanId setCookie = pushed st /\ cookie_invariant st.
Proof.
  assert (H0 : cookie_invariant (mkCookieState false false [])).
  { repeat split. }
  unfold cookieFindings. destruct setCookie as [[|c r]|].
  - exists (mkCookieState false false []). split; [reflexivity | exact H0].
  - eexists. split; [reflexivity|]. apply cookie_loop_invariant. exact H0.
  - exists (mkCookieState false false []). split; [reflexivity | exact H0].
Qed.

(** C9: whatever the [Set-Cookie] value, the cookie block pushes at most
    one finding of severity high (the sensitive-cookie finding) and at
    most one of severity moderate (the generic-cookie finding), and
    nothing else; and once both have been pushed the loop is left: the
    cookies that follow change nothing. *)
Theorem C9_cookie_findings_once_each :
  (forall scanId setCookie,
     (count_severity HIGH (cookieFindings scanId setCookie) <= 1)%nat
     /\ (count_severity MODERATE (cookieFindings scanId setCookie) <= 1)%nat
     /\ List.length (cookieFindings scanId setCookie)
        = (count_severity HIGH (cookieFindings scanId setCookie)
           + count_severity MODERATE (cookieFindings scanId setCookie))%nat)
  /\ (forall scanId seen rest,
        reportedSensitiveCookie
          (cookie_loop scanId (mkCookieState false false []) seen) = true ->
        reportedGenericCookie
          (cookie_loop scanId (mkCookieState false false []) seen) = true ->
        cookie_loop scanId (mkCookieState false false []) (seen ++ rest)
        = cookie_loop scanId (mkCookieState false false []) seen).
Proof.
  split.
  - intros scanId setCookie.
    destruct (cookieFindings_invariant scanId setCookie) as [st [-> [Hh [Hm Hl]]]].
    rewrite Hh, Hm, Hl.
    destruct (reportedSensitiveCookie st), (reportedGenericCookie st); cbn; lia.
  - intros scanId seen rest. apply cookie_loop_break.
Qed.

Lemma C9_cookie_findings_once_each_witness :
  reportedSensitiveCookie
    (cookie_loop 1 (mkCookieState false false []) ["theme=dark"; "session=abc; Secure"])
  = true
  /\ reportedGenericCookie
       (cookie_loop 1 (mkCookieState false false []) ["theme=dark"; "session=abc; Secure"])
     = true
  /\ cookie_loop 1 (mkCookieState false false [])
       (["theme=dark"; "session=abc; Secure"] ++ ["lang=en; HttpOnly"])
     = cookie_loop 1 (mkCookieState false false []) ["theme=dark"; "session=abc; Secure"].
Proof.
  split; [vm_compute; reflexivity|]. split; [vm_compute; reflexivity|].
  apply (proj2 C9_cookie_findings_once_each 1
           ["theme=dark"; "session=abc; Secure"] ["lang=en; HttpOnly"]);
    vm_compute; reflexivity.
Defined.

Lemma length_zero_iff {A} (l : list A) : Nat.eqb (List.length l) 0 = true <-> l = [].
Proof. destruct l; cbn; split; intros H; try reflexivity; discriminate. Qed.

Lemma short_circuit_test (db : DB) (scan : Scan) :
  runs_afresh db scan ->
  (negb (Nat.eqb (List.length (getLibrariesByScan db (scan_id scan))) 0)
   || negb (Nat.eqb (List.length (getFindingsByScan db (scan_id scan))) 0))
  && status_eqb (scan_status scan) COMPLETED = false.
Proof.
  intros [Hs | [Hl Hf]].
  - destruct (scan_status scan); try (apply andb_false_r).
    contradiction Hs; reflexivity.
  - rewrite Hl, Hf. reflexivity.
Qed.

(** The entry check of [minimalAnalyzeAndPersist]: a completed scan that
    has library or finding rows is answered from the database, which is
    left untouched. *)
Lemma minimal_analyzer_short_circuit (w : World) (db : DB) (scan : Scan) (now : Z) :
  scan_status scan = COMPLETED ->
  getLibrariesByScan db (scan_id scan) <> []
  \/ getFindingsByScan db (scan_id scan) <> [] ->
  minimalAnalyzeAndPersist w db scan now
  = (db, mkResult (getLibrariesByScan db (scan_id scan))
                  (getFindingsByScan db (scan_id scan))).
Proof.
  intros Hs Hrows. unfold minimalAnalyzeAndPersist. cbv zeta. rewrite Hs.
  cbn [status_eqb]. rewrite andb_true_r.
  destruct (getLibrariesByScan db (scan_id scan)) as [|l ls];
    destruct (getFindingsByScan db (scan_id scan)) as [|f fs]; try reflexivity.
  destruct Hrows as [H | H]; contradiction H; reflexivity.
Qed.

Lemma find_map_risk (id risk : Z) (rows : list Scan) (scan : Scan) :
  find (fun s => scan_id s =? id) rows = Some scan ->
  option_map scan_globalRiskScore
    (find (fun s => scan_id s =? id)
       (map (fun s => if scan_id s =? id
                      then mkScan (scan_id s) (scan_url s) (scan_status s)
                             (scan_createdAt s) (scan_startedAt s)
                             (scan_completedAt s) risk (scan_error s)
                      else s) rows)) = Some risk.
Proof.
  induction rows as [|r rest IH]; intros H; [discriminate|].
  cbn [find map] in *.
  destruct (scan_id r =? id) eqn:E.
  - cbn [scan_id]. rewrite E. reflexivity.
  - rewrite E. apply IH. exact H.
Qed.

(** After [updateScanRiskScore] the row carries the score. *)
Lemma risk_after_update (db : DB) (id risk : Z) (scan : Scan) :
  getScan db id = Some scan ->
  exists db', updateScanRiskScore db id risk = Some db'
              /\ option_map scan_globalRiskScore (getScan db' id) = Some risk.
Proof.
  intros H. unfold updateScanRiskScore.
  assert (He : exists_scan db id = true).
  { unfold exists_scan. apply existsb_exists. exists scan.
    unfold getScan in H. apply find_some in H. exact H. }
  rewrite He. eexists. split; [reflexivity|].
  unfold getScan, set_scans. cbn [scans]. apply (find_map_risk id risk _ scan). exact H.
Qed.

(** A run on a page without external scripts finds no library and stores
    the global risk 0. *)
Lemma minimal_analyzer_no_scripts (w : World) (db : DB) (scan row : Scan) (now : Z)
    (page : Page) :
  getScan db (scan_id scan) = Some row ->
  runs_afresh db scan ->
  fetchHtml w (scan_url scan) = Some page ->
  page_scripts page = [] ->
  res_libraries (snd (minimalAnalyzeAndPersist w db scan now)) = []
  /\ option_map scan_globalRiskScore
       (getScan (fst (minimalAnalyzeAndPersist w db scan now)) (scan_id scan))
     = Some 0.
Proof.
  intros Hrow Hfresh Hfetch Hscripts.
  unfold minimalAnalyzeAndPersist. cbv zeta.
  rewrite (short_circuit_test db scan Hfresh), Hfetch, Hscripts.
  cbn [map createScriptsBatch createLibrariesBatch snd with_ids enrichLibraries
       filter List.length Nat.eqb negb andb].
  unfold createFinding, uuidv4. cbn [globalRiskOf map].
  match goal with
  | |- context [updateScanRiskScore ?d ?i 0] =>
      destruct (risk_after_update d i 0 row) as [db' [Hup Hget]];
        [exact Hrow|]; rewrite Hup
  end.
  cbn [fst snd res_libraries]. split; [reflexivity | exact Hget].
Qed.

(** C10: without vulnerabilities the library risk is 0 and without library
    risks the global risk is 0, whatever the other arguments; the ten
    points per critical finding count only next to at least one library
    risk (three critical findings beside one library of risk 0 give 30).
    Accordingly the minimal analyzer, run on a page on which it detects no
    library, stores the global risk 0. *)
Theorem C10_no_vulnerability_no_library_zero_risk :
  (forall confidence exploit,
     RiskCalculator.calculateLibraryRisk [] confidence exploit = 0%Q)
  /\ (forall criticalFindings,
        RiskCalculator.calculateGlobalRisk [] criticalFindings = 0%Q)
  /\ (RiskCalculator.calculateGlobalRisk [0%Q] 3 == 30)%Q
  /\ (forall findings, globalRiskOf [] findings = 0)
  /\ (forall w db scan row now page,
        getScan db (scan_id scan) = Some row ->
        runs_afresh db scan ->
        fetchHtml w (scan_url scan) = Some page ->
        page_scripts page = [] ->
        res_libraries (snd (minimalAnalyzeAndPersist w db scan now)) = []
        /\ option_map scan_globalRiskScore
             (getScan (fst (minimalAnalyzeAndPersist w db scan now)) (scan_id scan))
           = Some 0).
Proof.
  split; [reflexivity|]. split; [reflexivity|].
  split; [vm_compute; reflexivity|]. split; [reflexivity|].
  intros. eapply minimal_analyzer_no_scripts; eassumption.
Qed.

Lemma C10_no_vulnerability_no_library_zero_risk_witness :
  res_libraries
    (snd (minimalAnalyzeAndPersist Scenarios.plain_world Scenarios.plain_db
            Scenarios.plain_scan 2000)) = []
  /\ option_map scan_globalRiskScore
       (getScan (fst (minimalAnalyzeAndPersist Scenarios.plain_world Scenarios.plain_db
                        Scenarios.plain_scan 2000)) (scan_id Scenarios.plain_scan))
     = Some 0.
Proof.
  apply (proj2 (proj2 (proj2 (proj2 C10_no_vulnerability_no_library_zero_risk)))
           Scenarios.plain_world Scenarios.plain_db Scenarios.plain_scan
           Scenarios.plain_scan 2000 (mkPage [("content-type", "text/html")] [] [])).
  - reflexivity.
  - left. discriminate.
  - vm_compute. reflexivity.
  - reflexivity.
Defined.

End AnalyzerProofs.

(* ================================================================== *)
(** * Shared utilities: properties *)
(* ================================================================== *)

Section SharedProofs.

Import Store SharedUtils UtilProps.
Local Open Scope string_scope.
Local Open Scope Z_scope.

(** X1: A higher score never gets a lower risk level. *)
Theorem getRiskLevel_monotone (s1 s2 : Q) :
  (s1 <= s2)%Q -> level_rank (getRiskLevel s1) <= level_rank (getRiskLevel s2).
Proof.
  intros H. unfold getRiskLevel.
  destruct (Qle_bool 80 s1) eqn:A1; destruct (Qle_bool 80 s2) eqn:A2;
  destruct (Qle_bool 60 s1) eqn:B1; destruct (Qle_bool 60 s2) eqn:B2;
  destruct (Qle_bool 30 s1) eqn:C1; destruct (Qle_bool 30 s2) eqn:C2;
  cbn; try lia; exfalso;
  repeat match goal with
         | E : Qle_bool _ _ = true |- _ => apply Qle_bool_iff in E
         | E : Qle_bool _ _ = false |- _ =>
             apply not_true_iff_false in E; rewrite Qle_bool_iff in E
         end; lra.
Qed.

Lemma getRiskLevel_monotone_witness :
  (45 <= 85)%Q /\ level_rank (getRiskLevel 45) <= level_rank (getRiskLevel 85).
Proof.
  split; [lra | apply (getRiskLevel_monotone 45 85); lra].
Defined.

(** ** Version comparison *)

Lemma compare_loop_values (n : nat) : forall i p q,
  compare_loop n i p q = -1 \/ compare_loop n i p q = 0 \/ compare_loop n i p q = 1.
Proof.
  induction n as [|n IH]; intros i p q; cbn [compare_loop]; [auto|].
  destruct (_ <? _); [auto|]. destruct (_ >? _); [auto|]. apply IH.
Qed.

Lemma compare_loop_refl (n : nat) : forall i p, compare_loop n i p p = 0.
Proof.
  induction n as [|n IH]; intros i p; cbn [compare_loop]; [reflexivity|].
  rewrite Z.gtb_ltb, Z.ltb_irrefl. apply IH.
Qed.

Lemma compare_loop_antisym (n : nat) : forall i p q,
  compare_loop n i p q = - compare_loop n i q p.
Proof.
  induction n as [|n IH]; intros i p q; cbn [compare_loop]; [reflexivity|].
  rewrite !Z.gtb_ltb.
  destruct (Z.ltb_spec (nth i p 0) (nth i q 0));
    destruct (Z.ltb_spec (nth i q 0) (nth i p 0)); try reflexivity; try lia.
  apply IH.
Qed.

Lemma compare_loop_trans (n : nat) : forall i p q r,
  compare_loop n i p q <= 0 -> compare_loop n i q r <= 0 ->
  compare_loop n i p r <= 0.
Proof.
  induction n as [|n IH]; intros i p q r; cbn [compare_loop]; [lia|].
  rewrite !Z.gtb_ltb.
  destruct (Z.ltb_spec (nth i p 0) (nth i q 0));
    destruct (Z.ltb_spec (nth i q 0) (nth i p 0));
    destruct (Z.ltb_spec (nth i q 0) (nth i r 0));
    destruct (Z.ltb_spec (nth i r 0) (nth i q 0));
    destruct (Z.ltb_spec (nth i p 0) (nth i r 0));
    destruct (Z.ltb_spec (nth i r 0) (nth i p 0)); try lia.
  apply IH.
Qed.

(** Past the end of both lists the loop only sees zeros. *)
Lemma compare_loop_past_end (k : nat) : forall i p q,
  (List.length p <= i)%nat -> (List.length q <= i)%nat -> compare_loop k i p q = 0.
Proof.
  induction k as [|k IH]; intros i p q Hp Hq; cbn [compare_loop]; [reflexivity|].
  rewrite (nth_overflow p 0 Hp), (nth_overflow q 0 Hq). cbn.
  apply IH; lia.
Qed.

Lemma compare_loop_extend (n : nat) : forall k i p q,
  (List.length p <= i + n)%nat -> (List.length q <= i + n)%nat ->
  compare_loop (n + k) i p q = compare_loop n i p q.
Proof.
  induction n as [|n IH]; intros k i p q Hp Hq.
  - cbn [Nat.add compare_loop]. apply compare_loop_past_end; lia.
  - cbn [Nat.add compare_loop].
    destruct (_ <? _); [reflexivity|]. destruct (_ >? _); [reflexivity|].
    apply IH; lia.
Qed.

(** The comparison does not depend on the bound, once the bound covers
    both lists. *)
Lemma compare_loop_bound (n : nat) (p q : list Z) :
  (List.length p <= n)%nat -> (List.length q <= n)%nat ->
  compare_loop n 0 p q
  = compare_loop (Nat.max (List.length p) (List.length q)) 0 p q.
Proof.
  intros Hp Hq.
  set (m := Nat.max (List.length p) (List.length q)).
  replace n with (m + (n - m))%nat by (unfold m; lia).
  apply compare_loop_extend; unfold m; lia.
Qed.

(** X2: [compareVersions] is a total preorder on version strings: it answers
    -1, 0 or 1, a version equals itself, swapping the arguments negates
    the answer, and "not greater" is transitive. *)
Theorem compareVersions_total_preorder :
  (forall a b, compareVersions a b = -1 \/ compareVersions a b = 0
               \/ compareVersions a b = 1)
  /\ (forall a, compareVersions a a = 0)
  /\ (forall a b, compareVersions a b = - compareVersions b a)
  /\ (forall a b c, compareVersions a b <= 0 -> compareVersions b c <= 0 ->
                    compareVersions a c <= 0).
Proof.
  unfold compareVersions. cbv zeta. repeat split.
  - intros a b. apply compare_loop_values.
  - intros a. apply compare_loop_refl.
  - intros a b. rewrite (Nat.max_comm (List.length (parseVersion b))).
    apply compare_loop_antisym.
  - intros a b c.
    set (p := parseVersion a). set (q := parseVersion b). set (r := parseVersion c).
    set (n := Nat.max (List.length p) (Nat.max (List.length q) (List.length r))).
    rewrite <- (compare_loop_bound n p q), <- (compare_loop_bound n q r),
      <- (compare_loop_bound n p r) by (unfold n; lia).
    apply compare_loop_trans.
Qed.

Lemma compareVersions_total_preorder_witness :
  compareVersions "1.2.0" "1.10" <= 0 /\ compareVersions "1.10" "2.0.0-rc1" <= 0
  /\ compareVersions "1.2.0" "2.0.0-rc1" <= 0.
Proof.
  split; [vm_compute; discriminate|]. split; [vm_compute; discriminate|].
  apply (proj2 (proj2 (proj2 compareVersions_total_preorder)) "1.2.0" "1.10" "2.0.0-rc1");
    vm_compute; discriminate.
Defined.

(** ** Version ranges *)

Lemma prefix_head_differs (a b : ascii) (p s : string) :
  a <> b -> String.prefix (String a p) (String b s) = false.
Proof.
  intros H. cbn [String.prefix]. destruct (ascii_dec a b); [contradiction|reflexivity].
Qed.

Lemma includes_plain (s : string) (c : ascii) (p : string) :
  plain_version s = true -> c = "<"%char \/ c = ">"%char ->
  Str.includes s (String c p) = false.
Proof.
  intros Hs Hc. induction s as [|d r IH]; [reflexivity|].
  cbn [plain_version] in Hs.
  apply andb_true_iff in Hs. destruct Hs as [Hs Hr].
  apply andb_true_iff in Hs. destruct Hs as [Hs He].
  apply andb_true_iff in Hs. destruct Hs as [Hl Hg].
  apply negb_true_iff, Ascii.eqb_neq in Hl, Hg.
  cbn [Str.includes]. rewrite (IH Hr), orb_false_r.
  apply prefix_head_differs. destruct Hc; subst c; congruence.
Qed.

Lemma prefix_sign_equal (c : ascii) (v : string) :
  plain_version v = true ->
  String.prefix (String c (String "=" EmptyString)) (String c v) = false.
Proof.
  intros Hv. cbn [String.prefix]. destruct (ascii_dec c c); [|reflexivity].
  destruct v as [|d r]; [reflexivity|].
  cbn [plain_version] in Hv.
  apply andb_true_iff in Hv. destruct Hv as [Hv _].
  apply andb_true_iff in Hv. destruct Hv as [_ He].
  apply negb_true_iff, Ascii.eqb_neq in He.
  apply prefix_head_differs. congruence.
Qed.

Lemma compareVersions_refl (a : string) : compareVersions a a = 0.
Proof. unfold compareVersions. cbv zeta. apply compare_loop_refl. Qed.

Lemma includes_of_prefix (p s : string) :
  String.prefix p s = true -> Str.includes s p = true.
Proof. intros H. destruct s; cbn [Str.includes]; rewrite H; reflexivity. Qed.

Lemma remove_first_prefix (p s : string) :
  String.prefix p s = true -> remove_first p s = Str.drop (String.length p) s.
Proof. intros H. destruct s; cbn [remove_first]; rewrite H; reflexivity. Qed.

Lemma includes_step (c : ascii) (s p : string) :
  String.prefix p (String c s) = false ->
  Str.includes (String c s) p = Str.includes s p.
Proof. intros H. cbn [Str.includes]. rewrite H. reflexivity. Qed.

Lemma prefix_same (p v : string) : String.prefix p (p ++ v) = true.
Proof.
  induction p as [|a p IH]; [destruct v; reflexivity|].
  cbn [append String.prefix]. destruct (ascii_dec a a); [exact IH|contradiction].
Qed.

(** X3: The bound of a range belongs to it exactly when the comparison sign
    allows equality: a version written without comparison sign and without
    surrounding white space is in the ranges ">=v" and "<=v" and outside
    "<v" and ">v"; and a range without comparison sign is met by the
    identical string only. *)
Theorem isVersionInRange_bounds (v : string) :
  plain_version v = true -> Str.trim v = v ->
  isVersionInRange v (">=" ++ v) = true
  /\ isVersionInRange v ("<=" ++ v) = true
  /\ isVersionInRange v ("<" ++ v) = false
  /\ isVersionInRange v (">" ++ v) = false
  /\ (forall version, isVersionInRange version v = String.eqb version v).
Proof.
  intros Hv Ht.
  pose proof (includes_plain v "<" "=" Hv (or_introl eq_refl)) as Hle.
  pose proof (includes_plain v ">" "=" Hv (or_intror eq_refl)) as Hge.
  pose proof (includes_plain v "<" "" Hv (or_introl eq_refl)) as Hlt.
  pose proof (includes_plain v ">" "" Hv (or_intror eq_refl)) as Hgt.
  pose proof (prefix_sign_equal "<" v Hv) as Hpl.
  pose proof (prefix_sign_equal ">" v Hv) as Hpg.
  assert (Heg : Str.includes (String "=" v) ">=" = false).
  { rewrite includes_step; [exact Hge | apply prefix_head_differs; discriminate]. }
  assert (Hel : Str.includes (String "=" v) "<=" = false).
  { rewrite includes_step; [exact Hle | apply prefix_head_differs; discriminate]. }
  unfold isVersionInRange. cbv zeta.
  repeat split.
  - rewrite (includes_of_prefix _ _ (prefix_same ">=" v)).
    rewrite (remove_first_prefix _ _ (prefix_same ">=" v)).
    change (Str.drop (String.length ">=") (">=" ++ v)) with v.
    rewrite Ht, compareVersions_refl. reflexivity.
  - change ("<=" ++ v) with (String "<" (String "=" v)).
    rewrite (includes_step "<" _ ">=") by (apply prefix_head_differs; discriminate).
    rewrite Heg.
    rewrite (includes_of_prefix "<=" (String "<" (String "=" v)) (prefix_same "<=" v)).
    rewrite (remove_first_prefix "<=" (String "<" (String "=" v)) (prefix_same "<=" v)).
    change (Str.drop (String.length "<=") (String "<" (String "=" v))) with v.
    rewrite Ht, compareVersions_refl. reflexivity.
  - change ("<" ++ v) with (String "<" v).
    rewrite (includes_step "<" _ ">=") by (apply prefix_head_differs; discriminate).
    rewrite Hge, (includes_step "<" _ "<=" Hpl), Hle.
    rewrite (includes_of_prefix "<" (String "<" v) (prefix_same "<" v)).
    rewrite (remove_first_prefix "<" (String "<" v) (prefix_same "<" v)).
    change (Str.drop (String.length "<") (String "<" v)) with v.
    rewrite Ht, compareVersions_refl. reflexivity.
  - change (">" ++ v) with (String ">" v).
    rewrite (includes_step ">" _ ">=" Hpg), Hge.
    rewrite (includes_step ">" _ "<=") by (apply prefix_head_differs; discriminate).
    rewrite Hle.
    rewrite (includes_step ">" _ "<") by (apply prefix_head_differs; discriminate).
    rewrite Hlt.
    rewrite (includes_of_prefix ">" (String ">" v) (prefix_same ">" v)).
    rewrite (remove_first_prefix ">" (String ">" v) (prefix_same ">" v)).
    change (Str.drop (String.length ">") (String ">" v)) with v.
    rewrite Ht, compareVersions_refl. reflexivity.
  - intros version. rewrite Hge, Hle, Hlt, Hgt. reflexivity.
Qed.

Lemma isVersionInRange_bounds_witness :
  isVersionInRange "1.12.4" (">=" ++ "1.12.4") = true
  /\ isVersionInRange "1.12.4" ("<=" ++ "1.12.4") = true
  /\ isVersionInRange "1.12.4" ("<" ++ "1.12.4") = false
  /\ isVersionInRange "1.12.4" (">" ++ "1.12.4") = false
  /\ (forall version, isVersionInRange version "1.12.4" = String.eqb version "1.12.4").
Proof.
  apply (isVersionInRange_bounds "1.12.4"); reflexivity.
Defined.

End SharedProofs.

(* ================================================================== *)
(** * Fingerprints and retry loops: properties *)
(* ================================================================== *)

Section HashProofs.

Import SharedUtils UtilProps.
Local Open Scope string_scope.
Local Open Scope Z_scope.

Lemma toInt32_range (z : Z) : - 2 ^ 31 <= toInt32 z < 2 ^ 31.
Proof.
  unfold toInt32.
  pose proof (Z.mod_pos_bound (z + 2 ^ 31) (2 ^ 32) ltac:(lia)). lia.
Qed.

(** Arithmetic under ToInt32 is arithmetic modulo 2^32. *)
Lemma toInt32_mul_add (a k b : Z) :
  toInt32 (toInt32 a * k + b) = toInt32 (a * k + b).
Proof.
  unfold toInt32. f_equal.
  rewrite (Z.mod_eq (a + 2 ^ 31) (2 ^ 32)) by lia.
  replace ((a + 2 ^ 31 - 2 ^ 32 * ((a + 2 ^ 31) / 2 ^ 32) - 2 ^ 31) * k + b + 2 ^ 31)
    with (a * k + b + 2 ^ 31 + (- ((a + 2 ^ 31) / 2 ^ 32) * k) * 2 ^ 32) by ring.
  apply Z_mod_plus_full.
Qed.

Lemma toInt32_idem (a : Z) : toInt32 (toInt32 a) = toInt32 a.
Proof.
  pose proof (toInt32_mul_add a 1 0) as H.
  rewrite !Z.mul_1_r, !Z.add_0_r in H. exact H.
Qed.

Lemma hash_step_31 (x : Z) (c : ascii) :
  hash_step (toInt32 x) c = toInt32 (31 * x + Z.of_nat (Str.code c)).
Proof.
  unfold hash_step, bitAnd, shiftLeft. cbv zeta.
  rewrite Z.land_diag, !toInt32_idem, Z.shiftl_mul_pow2 by lia.
  set (n := Z.of_nat (Str.code c)).
  replace (toInt32 (toInt32 x * 2 ^ 5) - toInt32 x + n)
    with (toInt32 (toInt32 x * 2 ^ 5) * 1 + (- toInt32 x + n)) by ring.
  rewrite toInt32_mul_add.
  replace (toInt32 x * 2 ^ 5 * 1 + (- toInt32 x + n))
    with (toInt32 x * 31 + n) by ring.
  rewrite toInt32_mul_add. f_equal. ring.
Qed.

Lemma hash_loop_poly31 (s : string) : forall x,
  hash_loop (toInt32 x) s = toInt32 (poly31 x s).
Proof.
  induction s as [|c r IH]; intros x; [reflexivity|].
  cbn [hash_loop poly31]. rewrite hash_step_31. apply IH.
Qed.

Lemma to_hex_length (k : nat) : forall fuel n acc,
  0 <= n < 16 ^ Z.of_nat (S k) ->
  (String.length (to_hex fuel n acc) <= S k + String.length acc)%nat.
Proof.
  induction k as [|k IH]; intros fuel n acc Hn.
  - destruct fuel as [|fuel]; cbn [to_hex]; [lia|].
    replace (n <? 16) with true by (symmetry; apply Z.ltb_lt; cbn in Hn; lia).
    cbn [String.length]. lia.
  - destruct fuel as [|fuel]; cbn [to_hex]; [lia|].
    destruct (Z.ltb_spec n 16); [cbn [String.length]; lia|].
    etransitivity; [apply IH|cbn [String.length]; lia].
    rewrite Nat2Z.inj_succ, Z.pow_succ_r in Hn by lia.
    split; [apply Z.div_pos; lia|].
    apply Z.div_lt_upper_bound; lia.
Qed.

Lemma to_hex_nonempty (fuel : nat) (n : Z) (acc : string) :
  (1 <= String.length (to_hex (S fuel) n acc))%nat.
Proof.
  revert n acc. induction fuel as [|fuel IH]; intros n acc.
  - cbn [to_hex]. destruct (n <? 16); cbn [String.length]; lia.
  - change (to_hex (S (S fuel)) n acc)
      with (if n <? 16 then String (hex_char (n mod 16)) acc
            else to_hex (S fuel) (n / 16) (String (hex_char (n mod 16)) acc)).
    destruct (n <? 16); [cbn [String.length]; lia | apply IH].
Qed.

Lemma fingerprint_loop_hash_loop (s : string) : forall h,
  Retry.fingerprint_loop h s = hash_loop h s.
Proof.
  induction s as [|c r IH]; intros h; [reflexivity|].
  cbn [Retry.fingerprint_loop hash_loop]. unfold hash_step. cbv zeta.
  apply IH.
Qed.

(** X4: [simpleHash] is the 32-bit polynomial hash of base 31: the loop
    computes s[0]*31^(n-1) + ... + s[n-1] reduced to a signed 32-bit integer,
    and the fingerprint is the hexadecimal text of its absolute value, of
    one to eight digits.  The worker's [generateScriptFingerprint] is the
    same function. *)
Theorem simpleHash_polynomial (str : string) :
  hash_loop 0 str = toInt32 (poly31 0 str)
  /\ simpleHash str = toString16 (Z.abs (toInt32 (poly31 0 str)))
  /\ (1 <= String.length (simpleHash str) <= 8)%nat
  /\ Retry.generateScriptFingerprint str = simpleHash str.
Proof.
  assert (Hw : Retry.generateScriptFingerprint str = simpleHash str).
  { unfold Retry.generateScriptFingerprint, simpleHash.
    rewrite fingerprint_loop_hash_loop. reflexivity. }
  rewrite Hw. clear Hw.
  cut (hash_loop 0 str = toInt32 (poly31 0 str)
       /\ simpleHash str = toString16 (Z.abs (toInt32 (poly31 0 str)))
       /\ (1 <= String.length (simpleHash str) <= 8)%nat).
  { intros [A [B C]]. split; [exact A|]. split; [exact B|]. split; [exact C|].
    reflexivity. }
  assert (H : hash_loop 0 str = toInt32 (poly31 0 str)).
  { change 0 with (toInt32 0) at 1. apply hash_loop_poly31. }
  split; [exact H|]. unfold simpleHash. rewrite H. split; [reflexivity|].
  unfold toString16. split; [apply to_hex_nonempty|].
  etransitivity; [apply (to_hex_length 7)|cbn [String.length]; lia].
  pose proof (toInt32_range (poly31 0 str)) as R.
  change (16 ^ Z.of_nat 8) with (2 ^ 32). lia.
Qed.

End HashProofs.

Section RetryProofs.

Import SharedUtils UtilProps Retry.
Local Open Scope string_scope.
Local Open Scope Z_scope.

Context {T : Type}.
Variable operation : nat -> Outcome T.

Lemma retry_from_calls (left : nat) : forall attempt delayMs m lastError slept,
  (1 <= attempt)%nat ->
  (run_calls (retry_from operation left attempt delayMs m lastError slept)
   <= attempt + left - 1)%nat.
Proof.
  induction left as [|left IH]; intros attempt delayMs m lastError slept Ha.
  - cbn. lia.
  - cbn [retry_from]. destruct (operation attempt); [cbn; lia|].
    destruct left as [|left']; [cbn; lia|].
    etransitivity; [apply IH; lia | lia].
Qed.

Lemma retry_from_step (left attempt : nat) (delayMs m : Z)
    (lastError : option string) (slept : Z) (error : string) :
  operation attempt = Rejects error ->
  retry_from operation (S (S left)) attempt delayMs m lastError slept
  = retry_from operation (S left) (S attempt) delayMs m (Some error)
               (slept + delayMs * m ^ (Z.of_nat attempt - 1)).
Proof.
  intros H. remember (S left) as k eqn:Hk. cbn [retry_from]. rewrite H.
  subst k. reflexivity.
Qed.

(** The loop up to the first call that resolves. *)
Lemma retry_from_first_success (n : nat) :
  forall left attempt delayMs m lastError slept value,
    (n < left)%nat ->
    rejects_from operation attempt n ->
    operation (attempt + n)%nat = Resolves value ->
    retry_from operation left attempt delayMs m lastError slept
    = mkRun (inl value) (attempt + n) (slept + backoff_sum delayMs m attempt n).
Proof.
  induction n as [|n IH]; intros left attempt delayMs m lastError slept value Hl Hr Hs.
  - destruct left as [|left]; [lia|]. cbn [retry_from].
    rewrite Nat.add_0_r in Hs. rewrite Hs. cbn [backoff_sum].
    rewrite Nat.add_0_r, Z.add_0_r. reflexivity.
  - destruct left as [|[|left]]; [lia|lia|].
    destruct (Hr attempt ltac:(lia)) as [e He].
    rewrite (retry_from_step left attempt delayMs m lastError slept e He).
    rewrite (IH (S left) (S attempt) delayMs m (Some e) _ value).
    + cbn [backoff_sum]. f_equal; [lia | ring].
    + lia.
    + intros i Hi. apply Hr. lia.
    + replace (S attempt + n)%nat with (attempt + S n)%nat by lia. exact Hs.
Qed.

(** The loop when every call rejects. *)
Lemma retry_from_exhausted (left : nat) :
  forall attempt delayMs m lastError slept error,
    rejects_from operation attempt left ->
    operation (attempt + left)%nat = Rejects error ->
    retry_from operation (S left) attempt delayMs m lastError slept
    = mkRun (inr (Some error)) (attempt + left)
            (slept + backoff_sum delayMs m attempt left).
Proof.
  induction left as [|left IH]; intros attempt delayMs m lastError slept error Hr He.
  - cbn [retry_from]. rewrite Nat.add_0_r in He. rewrite He.
    cbn [backoff_sum]. rewrite Nat.add_0_r, Z.add_0_r. reflexivity.
  - destruct (Hr attempt ltac:(lia)) as [e0 He0].
    rewrite (retry_from_step left attempt delayMs m lastError slept e0 He0).
    rewrite (IH (S attempt) delayMs m (Some e0) _ error).
    + cbn [backoff_sum]. f_equal; [lia | ring].
    + intros i Hi. apply Hr. lia.
    + replace (S attempt + left)%nat with (attempt + S left)%nat by lia. exact He.
Qed.

(** With a multiplier of 2 the sleeps add up to delay * 2^(a-1) * (2^n - 1). *)
Lemma backoff_sum_doubling (delayMs : Z) (n : nat) : forall attempt,
  (1 <= attempt)%nat ->
  backoff_sum delayMs 2 attempt n
  = delayMs * 2 ^ (Z.of_nat attempt - 1) * (2 ^ Z.of_nat n - 1).
Proof.
  induction n as [|n IH]; intros attempt Ha.
  - cbn [backoff_sum]. change (2 ^ Z.of_nat 0) with 1. ring.
  - cbn [backoff_sum]. rewrite IH by lia.
    rewrite !Nat2Z.inj_succ.
    replace (Z.succ (Z.of_nat attempt) - 1) with (Z.succ (Z.of_nat attempt - 1)) by lia.
    rewrite !Z.pow_succ_r by lia. ring.
Qed.

(** X5: [RetryUtils.withRetry] returns the value of the first call that
    resolves, provided it is among the first [maxAttempts] calls; it has
    then made exactly that many calls and slept
    delay * (m^0 + ... + m^(k-2)) milliseconds, which is
    delay * (2^(k-1) - 1) for the default multiplier 2. *)
Theorem withRetry_first_success (maxAttempts k : nat) (delayMs m : Z) (value : T) :
  (1 <= k <= maxAttempts)%nat ->
  rejects_from operation 1 (k - 1) ->
  operation k = Resolves value ->
  withRetry operation maxAttempts delayMs m
  = mkRun (inl value) k (backoff_sum delayMs m 1 (k - 1))
  /\ backoff_sum delayMs 2 1 (k - 1) = delayMs * (2 ^ (Z.of_nat k - 1) - 1).
Proof.
  intros Hk Hr Hs. split.
  - unfold withRetry.
    rewrite (retry_from_first_success (k - 1) maxAttempts 1 delayMs m None 0 value).
    + f_equal. lia.
    + lia.
    + exact Hr.
    + replace (1 + (k - 1))%nat with k by lia. exact Hs.
  - rewrite backoff_sum_doubling by lia.
    change (2 ^ (Z.of_nat 1 - 1)) with 1.
    replace (Z.of_nat (k - 1)) with (Z.of_nat k - 1) by lia. ring.
Qed.

(** X6: When all [maxAttempts] calls reject, [RetryUtils.withRetry] throws the
    error of the last one after exactly [maxAttempts] calls, having slept
    after each of them but the last. *)
Theorem withRetry_exhausted (maxAttempts : nat) (delayMs m : Z) (error : string) :
  (1 <= maxAttempts)%nat ->
  rejects_from operation 1 (maxAttempts - 1) ->
  operation maxAttempts = Rejects error ->
  withRetry operation maxAttempts delayMs m
  = mkRun (inr (Some error)) maxAttempts (backoff_sum delayMs m 1 (maxAttempts - 1)).
Proof.
  intros Hn Hr He. unfold withRetry.
  destruct maxAttempts as [|left]; [lia|].
  replace (S left - 1)%nat with left in * by lia.
  rewrite (retry_from_exhausted left 1 delayMs m None 0 error Hr).
  - reflexivity.
  - exact He.
Qed.

(** X7: Whatever the operation does, [RetryUtils.withRetry] calls it at most
    [maxAttempts] times; with no attempt allowed it is not called at all. *)
Theorem withRetry_calls_bounded (maxAttempts : nat) (delayMs m : Z) :
  (run_calls (withRetry operation maxAttempts delayMs m) <= maxAttempts)%nat.
Proof.
  unfold withRetry.
  etransitivity; [apply retry_from_calls; lia | lia].
Qed.

Lemma worker_retry_agrees (left : nat) : forall attempt delayMs lastError slept,
  (1 <= attempt)%nat ->
  worker_retry_from operation left attempt (delayMs * 2 ^ (Z.of_nat attempt - 1))
                    lastError slept
  = retry_from operation left attempt delayMs 2 lastError slept.
Proof.
  induction left as [|left IH]; intros attempt delayMs lastError slept Ha;
    [reflexivity|].
  cbn [worker_retry_from retry_from].
  destruct (operation attempt); [reflexivity|].
  destruct left as [|left']; [reflexivity|].
  rewrite <- (IH (S attempt)) by lia. f_equal.
  rewrite Nat2Z.inj_succ.
  replace (Z.succ (Z.of_nat attempt) - 1) with (Z.succ (Z.of_nat attempt - 1)) by lia.
  rewrite Z.pow_succ_r by lia. ring.
Qed.

(** X8: The worker's own retry loop, which doubles a delay variable, behaves
    in every respect like [RetryUtils.withRetry] with multiplier 2. *)
Theorem worker_withRetry_is_withRetry (maxAttempts : nat) (delayMs : Z) :
  worker_withRetry operation maxAttempts delayMs
  = withRetry operation maxAttempts delayMs 2.
Proof.
  unfold worker_withRetry, withRetry.
  rewrite <- (worker_retry_agrees maxAttempts 1 delayMs None 0) by lia.
  f_equal. change (2 ^ (Z.of_nat 1 - 1)) with 1. ring.
Qed.

Variable db_operation : nat -> DbOutcome T.

Lemma db_retry_step (left attempt : nat) (delayMs : Z) (lastError : option DbError)
    (slept : Z) (isHealthy : bool) (error : DbError) :
  db_operation attempt = DbRejects error ->
  isRetryable error = true ->
  db_retry_from db_operation (S (S left)) attempt delayMs lastError slept isHealthy
  = db_retry_from db_operation (S left) (S attempt) (delayMs * 2) (Some error)
                  (slept + delayMs) isHealthy.
Proof.
  intros H Hr. remember (S left) as k eqn:Hk. cbn [db_retry_from]. rewrite H.
  cbv zeta. rewrite Hr. subst k. reflexivity.
Qed.

Lemma db_retry_gives_up (n : nat) :
  forall left attempt delayMs lastError slept isHealthy error,
    (n < left)%nat ->
    retryable_rejects db_operation attempt n ->
    db_operation (attempt + n)%nat = DbRejects error ->
    isRetryable error = false \/ S n = left ->
    db_retry_from db_operation left attempt delayMs lastError slept isHealthy
    = mkDbRun (inr (Some error)) (attempt + n)
              (slept + delayMs * (2 ^ Z.of_nat n - 1))
              (if isRetryable error then false else isHealthy).
Proof.
  induction n as [|n IH];
    intros left attempt delayMs lastError slept isHealthy error Hl Hr He Hstop.
  - destruct left as [|left]; [lia|]. cbn [db_retry_from].
    rewrite Nat.add_0_r in He. rewrite He. cbv zeta.
    change (2 ^ Z.of_nat 0) with 1. rewrite Nat.add_0_r.
    replace (slept + delayMs * (1 - 1)) with slept by ring.
    destruct Hstop as [Hno | Hlast].
    + rewrite Hno. destruct left; reflexivity.
    + assert (left = 0%nat) by lia. subst left.
      destruct (isRetryable error); reflexivity.
  - destruct left as [|[|left]]; [lia|lia|].
    destruct (Hr attempt ltac:(lia)) as [e0 [He0 Hr0]].
    rewrite (db_retry_step left attempt delayMs lastError slept isHealthy e0 He0 Hr0).
    rewrite (IH (S left) (S attempt) (delayMs * 2) (Some e0) (slept + delayMs)
                isHealthy error).
    + f_equal; [lia|].
      rewrite Nat2Z.inj_succ, Z.pow_succ_r by lia. ring.
    + lia.
    + intros i Hi. apply Hr. lia.
    + replace (S attempt + n)%nat with (attempt + S n)%nat by lia. exact He.
    + destruct Hstop as [Hno | Hlast]; [left; exact Hno | right; lia].
Qed.

(** X9: [Database.withRetry] retries only connection errors and timeouts: it
    gives up at the first error of another kind, or at the last allowed
    attempt, and throws that error.  It has then slept
    delay * (2^(k-1) - 1) milliseconds, and it marks the pool unhealthy
    exactly when the error it gives up on was a retryable one. *)
Theorem db_withRetry_gives_up (maxAttempts k : nat) (delayMs : Z) (isHealthy : bool)
    (error : DbError) :
  (1 <= k <= maxAttempts)%nat ->
  retryable_rejects db_operation 1 (k - 1) ->
  db_operation k = DbRejects error ->
  isRetryable error = false \/ k = maxAttempts ->
  db_withRetry db_operation maxAttempts delayMs isHealthy
  = mkDbRun (inr (Some error)) k (delayMs * (2 ^ (Z.of_nat k - 1) - 1))
            (if isRetryable error then false else isHealthy).
Proof.
  intros Hk Hr He Hstop. unfold db_withRetry.
  rewrite (db_retry_gives_up (k - 1) maxAttempts 1 delayMs None 0 isHealthy error).
  - f_equal; [lia|]. replace (Z.of_nat (k - 1)) with (Z.of_nat k - 1) by lia. ring.
  - lia.
  - exact Hr.
  - replace (1 + (k - 1))%nat with k by lia. exact He.
  - destruct Hstop as [Hno | Hlast]; [left; exact Hno | right; lia].
Qed.

End RetryProofs.

Section RetryWitnesses.

Import SharedUtils UtilProps Retry.
Local Open Scope string_scope.
Local Open Scope Z_scope.

Lemma withRetry_first_success_witness :
  withRetry Scenarios2.third_time_lucky 5 1000 2
  = mkRun (inl 42) 3 (backoff_sum 1000 2 1 (3 - 1))
  /\ backoff_sum 1000 2 1 (3 - 1) = 1000 * (2 ^ (Z.of_nat 3 - 1) - 1).
Proof.
  apply (withRetry_first_success Scenarios2.third_time_lucky 5 3 1000 2 42).
  - lia.
  - intros i Hi. exists "ECONNRESET".
    assert (Hc : i = 1%nat \/ i = 2%nat) by (cbn in Hi; lia).
    destruct Hc; subst i; reflexivity.
  - reflexivity.
Defined.

Lemma withRetry_exhausted_witness :
  withRetry Scenarios2.always_down 3 1000 2
  = mkRun (inr (Some "ECONNREFUSED")) 3 (backoff_sum 1000 2 1 (3 - 1)).
Proof.
  apply (withRetry_exhausted Scenarios2.always_down 3 1000 2 "ECONNREFUSED").
  - lia.
  - intros i Hi. exists "ECONNREFUSED". reflexivity.
  - reflexivity.
Defined.

Lemma db_withRetry_gives_up_witness :
  db_withRetry Scenarios2.constraint_violation 3 1000 true
  = mkDbRun (inr (Some Scenarios2.unique_violation)) 2
            (1000 * (2 ^ (Z.of_nat 2 - 1) - 1))
            (if isRetryable Scenarios2.unique_violation then false else true).
Proof.
  apply (db_withRetry_gives_up Scenarios2.constraint_violation 3 2 1000 true
           Scenarios2.unique_violation).
  - lia.
  - intros i Hi. exists (mkDbError (Some "ECONNRESET") "read ECONNRESET").
    assert (Hc : i = 1%nat) by (cbn in Hi; lia). subst i.
    split; reflexivity.
  - reflexivity.
  - left. reflexivity.
Defined.

End RetryWitnesses.

(* ================================================================== *)
(** * Reports, deletion and the minimal router: properties *)
(* ================================================================== *)

Section ReportProofs.

Import Store TaskQueue ScanRoutes ScanReports UtilProps.
Local Open Scope string_scope.
Local Open Scope Z_scope.

Lemma Some_eq {A} (x y : A) : Some x = Some y -> x = y.
Proof. intros H. injection H as H. exact H. Qed.

Lemma len_nonneg {A} (l : list A) : 0 <= len l.
Proof. unfold len. lia. Qed.

Lemma len_cons {A} (x : A) (l : list A) : len (x :: l) = len l + 1.
Proof. unfold len. cbn [List.length]. lia. Qed.

Lemma len_app {A} (l1 l2 : list A) : len (l1 ++ l2) = len l1 + len l2.
Proof. unfold len. rewrite length_app. lia. Qed.

Lemma len_filter_le {A} (p : A -> bool) (l : list A) : len (filter p l) <= len l.
Proof.
  induction l as [|x l IH]; [reflexivity|].
  cbn [filter]. destruct (p x); rewrite !len_cons; lia.
Qed.

Lemma len_filter_split {A} (p : A -> bool) (l : list A) :
  len (filter p l) + len (filter (fun x => negb (p x)) l) = len l.
Proof.
  induction l as [|x l IH]; [reflexivity|].
  cbn [filter]. destruct (p x); cbn [negb]; rewrite !len_cons; lia.
Qed.

Lemma level_eqb_eq (a b : RiskLevel) : level_eqb a b = true <-> a = b.
Proof. destruct a, b; cbn; split; intros H; try reflexivity; discriminate. Qed.

Lemma entry_bump (k j : RiskLevel) (acc : list (RiskLevel * Z)) :
  entry k (bump j acc) = entry k acc + (if level_eqb j k then 1 else 0).
Proof.
  induction acc as [|[a n] rest IH].
  - cbn [bump entry]. destruct (level_eqb j k); lia.
  - destruct a, j, k; cbn [bump entry level_eqb]; rewrite ?IH; cbn [level_eqb]; lia.
Qed.

(** The counting loop yields, for every severity, the number of findings
    of that severity. *)
Lemma entry_counts (fs : list Finding) : forall acc k,
  entry k (fold_left (fun acc f => bump (finding_severity f) acc) fs acc)
  = entry k acc + len (filter (fun f => level_eqb (finding_severity f) k) fs).
Proof.
  induction fs as [|f fs IH]; intros acc k.
  - cbn [fold_left filter]. unfold len. cbn. lia.
  - cbn [fold_left filter]. rewrite IH, entry_bump.
    destruct (level_eqb (finding_severity f) k); rewrite ?len_cons; lia.
Qed.

Lemma sum_vulnerabilities_ge (libs : list Library) : forall a,
  a + len (filter (fun lib => len (lib_vulnerabilities lib) >? 0) libs)
  <= fold_left (fun sum lib => sum + len (lib_vulnerabilities lib)) libs a.
Proof.
  induction libs as [|l libs IH]; intros a.
  - cbn. unfold len. cbn. lia.
  - cbn [fold_left filter].
    specialize (IH (a + len (lib_vulnerabilities l))).
    pose proof (len_nonneg (lib_vulnerabilities l)).
    destruct (Z.gtb_spec (len (lib_vulnerabilities l)) 0); rewrite ?len_cons; lia.
Qed.

(** X10: In the answer of [getScanResults] the numbers fit together: the
    scripts are the inline and the external ones, no more libraries are
    vulnerable than there are libraries or vulnerabilities, and the risk
    distribution holds for each severity the number of findings of that
    severity, so that its entry for critical is the summary's count of
    critical findings. *)
Theorem getScanResults_summary_consistent (db : DB) (id : Z) (r : ResultsResponse) :
  getScanResults db id = Some r ->
  let s := rr_summary r in
  let d := rr_diagnostics r in
  sd_inline (diag_scripts d) + sd_external (diag_scripts d) = sd_total (diag_scripts d)
  /\ 0 <= sum_vulnerableLibraries s <= sum_totalLibraries s
  /\ sum_vulnerableLibraries s <= sum_totalVulnerabilities s
  /\ sum_totalLibraries s = ld_total (diag_libraries d)
  /\ (forall level,
        entry level (sum_riskDistribution s)
        = len (filter (fun f => level_eqb (finding_severity f) level) (rr_findings r)))
  /\ entry CRITICAL (sum_riskDistribution s) = sum_criticalFindings s
  /\ 0 <= sum_criticalFindings s <= len (rr_findings r).
Proof.
  unfold getScanResults. destruct (getScan db id) as [scan|]; [|discriminate].
  cbv zeta. cbn [sd_total ld_total].
  destruct (_ && _); destruct (_ && _); intros H; inversion H; subst r; clear H;
    cbn [rr_summary rr_diagnostics rr_findings diag_scripts diag_libraries
         sd_inline sd_external sd_total ld_total sum_vulnerableLibraries
         sum_totalLibraries sum_totalVulnerabilities sum_riskDistribution
         sum_criticalFindings];
    (split; [apply len_filter_split|]);
    (split; [split; [apply len_nonneg | apply len_filter_le]|]);
    (split; [apply (sum_vulnerabilities_ge _ 0)|]);
    (split; [reflexivity|]);
    (split; [intros level; rewrite entry_counts; cbn [entry]; lia|]);
    (split; [rewrite entry_counts; cbn [entry]; lia|]);
    (split; [apply len_nonneg | apply len_filter_le]).
Qed.

(** X11: The quality score of [getScanResults] takes one of six values; it is
    100 exactly for a scan with at least ten scripts and with libraries
    (more than two of them when there are over a hundred scripts), 0
    exactly for a scan with one to nine scripts and no library, and at
    most 60 whenever the scan is flagged as partial.  The clamp to
    [0, 100] is never active. *)
Theorem getScanResults_quality (db : DB) (id : Z) (r : ResultsResponse) :
  getScanResults db id = Some r ->
  let d := rr_diagnostics r in
  let scripts := sd_total (diag_scripts d) in
  let libraries := ld_total (diag_libraries d) in
  In (diag_qualityScore d) [0; 20; 40; 60; 80; 100]
  /\ (diag_qualityScore d = 100
      <-> 10 <= scripts /\ 1 <= libraries /\ (scripts <= 100 \/ 3 <= libraries))
  /\ (diag_qualityScore d = 0 <-> 1 <= scripts <= 9 /\ libraries = 0)
  /\ (diag_partialScan d = Some true -> diag_qualityScore d <= 60)
  /\ (diag_partialScan d = Some true <-> diag_anomalies d <> None).
Proof.
  unfold getScanResults. destruct (getScan db id) as [scan|]; [|discriminate].
  cbv zeta. cbn [sd_total ld_total].
  pose proof (len_nonneg (getScriptsByScan db id)) as Hs.
  pose proof (len_nonneg (getLibrariesByScan db id)) as Hl.
  set (ns := len (getScriptsByScan db id)) in *.
  set (nl := len (getLibrariesByScan db id)) in *.
  rewrite !Z.gtb_ltb.
  destruct (Z.ltb_spec 0 ns); destruct (Z.eqb_spec nl 0);
    destruct (Z.ltb_spec 100 ns); destruct (Z.leb_spec nl 2);
    destruct (Z.ltb_spec ns 10);
    cbn [andb app]; intros Hr; inversion Hr; subst r; clear Hr;
    cbn [rr_diagnostics diag_qualityScore diag_partialScan diag_anomalies
         diag_scripts diag_libraries sd_total ld_total In];
    try lia;
    (split; [cbn; tauto|]);
    (split; [split; [intros Hq; cbn in Hq; lia | intros Hq; cbn; lia]|]);
    (split; [split; [intros Hq; cbn in Hq; lia | intros Hq; cbn; lia]|]);
    (split; [intros Hp; try discriminate Hp; cbn; lia|]);
    (split; intros Hp; [try discriminate Hp; discriminate
                       | try reflexivity; contradiction Hp; reflexivity]).
Qed.

Ltac slide :=
  first [ apply Permutation_refl
        | etransitivity; [apply Permutation_middle|];
          apply Permutation_app_head; slide ].

(** Six tests of which every element passes exactly one split a list into
    six parts. *)
Lemma filter_partition6 {A} (p1 p2 p3 p4 p5 p6 : A -> bool) (l : list A) :
  (forall x, In x l ->
     (Props.flag (p1 x) + Props.flag (p2 x) + Props.flag (p3 x) + Props.flag (p4 x)
      + Props.flag (p5 x) + Props.flag (p6 x) = 1)%nat) ->
  Permutation l
    (filter p1 l ++ filter p2 l ++ filter p3 l ++ filter p4 l ++ filter p5 l
     ++ filter p6 l).
Proof.
  induction l as [|a l IH]; intros Hx; [constructor|].
  pose proof (Hx a (or_introl eq_refl)) as Ha.
  pose proof (IH (fun x hx => Hx x (or_intror hx))) as IH'.
  cbn [filter].
  destruct (p1 a), (p2 a), (p3 a), (p4 a), (p5 a), (p6 a);
    cbn [Props.flag] in Ha; try discriminate Ha; cbn [app];
    apply (Permutation_trans (perm_skip a IH')); slide.
Qed.

(** X12: [getScanSurface] sorts every finding of the scan into exactly one of
    its six categories, keeping the order inside each: together the
    categories are a rearrangement of the findings, their sizes add up to
    [totalFindings], and [stats.severity] holds for each severity the
    number of findings of that severity.  This does not depend on what
    [toUpperCase] makes of a type. *)
Theorem getScanSurface_partition (toUpperCase : string -> string) (db : DB) (id : Z)
    (resp : SurfaceResponse) :
  getScanSurface toUpperCase db id = Some resp ->
  let c := surf_categories resp in
  let n := surf_counts resp in
  Permutation (getFindingsByScan db id)
    (cat_forms c ++ cat_inlineEventHandlers c ++ cat_iframes c
     ++ cat_securityHeaders c ++ cat_securityCookies c ++ cat_other c)
  /\ n_forms n + n_inlineEventHandlers n + n_iframes n + n_securityHeaders n
     + n_securityCookies n + n_other n = surf_totalFindings resp
  /\ (forall level,
        entry level (surf_severity resp)
        = len (filter (fun f => level_eqb (finding_severity f) level)
                 (getFindingsByScan db id))).
Proof.
  unfold getScanSurface. destruct (getScan db id) as [scan|]; [|discriminate].
  cbv zeta. intros H. apply Some_eq in H. subst resp.
  cbn [surf_categories surf_counts surf_totalFindings surf_severity
       cat_forms cat_inlineEventHandlers cat_iframes cat_securityHeaders
       cat_securityCookies cat_other n_forms n_inlineEventHandlers n_iframes
       n_securityHeaders n_securityCookies n_other].
  assert (P : Permutation (getFindingsByScan db id)
    (filter (fun f => isOfType toUpperCase f CATEGORY_forms) (getFindingsByScan db id)
     ++ filter (fun f => isOfType toUpperCase f CATEGORY_inlineEventHandlers)
          (getFindingsByScan db id)
     ++ filter (fun f => isOfType toUpperCase f CATEGORY_iframes) (getFindingsByScan db id)
     ++ filter (fun f => isOfType toUpperCase f CATEGORY_securityHeaders)
          (getFindingsByScan db id)
     ++ filter (fun f => isOfType toUpperCase f CATEGORY_securityCookies)
          (getFindingsByScan db id)
     ++ filter (fun f =>
                  negb (existsb (String.eqb (toUpperCase (finding_type f)))
                          (CATEGORY_forms ++ CATEGORY_inlineEventHandlers
                           ++ CATEGORY_iframes ++ CATEGORY_securityHeaders
                           ++ CATEGORY_securityCookies)))
          (getFindingsByScan db id))).
  { apply filter_partition6. intros x _.
    unfold isOfType, CATEGORY_forms, CATEGORY_inlineEventHandlers, CATEGORY_iframes,
      CATEGORY_securityHeaders, CATEGORY_securityCookies.
    cbn [existsb app]. cbv zeta.
    generalize (toUpperCase (finding_type x)). intros t.
    destruct (String.eqb_spec t "FORM_SECURITY") as [E|_]; [subst t; reflexivity|].
    destruct (String.eqb_spec t "INLINE_EVENT_HANDLER") as [E|_];
      [subst t; reflexivity|].
    destruct (String.eqb_spec t "IFRAME_SECURITY") as [E|_]; [subst t; reflexivity|].
    destruct (String.eqb_spec t "SECURITY_HEADER") as [E|_]; [subst t; reflexivity|].
    destruct (String.eqb_spec t "SECURITY_COOKIE") as [E|_]; [subst t; reflexivity|].
    reflexivity. }
  split; [exact P|]. split.
  - apply Permutation_length in P. rewrite !length_app in P.
    unfold len. lia.
  - intros level. rewrite entry_counts. cbn [entry]. lia.
Qed.

Lemma getScanResults_summary_consistent_witness :
  exists r,
    getScanResults Scenarios.shop_analysed 1 = Some r
    /\ sd_inline (diag_scripts (rr_diagnostics r))
       + sd_external (diag_scripts (rr_diagnostics r))
       = sd_total (diag_scripts (rr_diagnostics r)).
Proof.
  eexists. split; [vm_compute; reflexivity|].
  match goal with
  | |- context [rr_diagnostics ?r] =>
      pose proof (getScanResults_summary_consistent Scenarios.shop_analysed 1 r) as H
  end.
  cbv zeta in H. apply H. vm_compute. reflexivity.
Defined.

Lemma getScanResults_quality_witness :
  exists r,
    getScanResults Scenarios.shop_analysed 1 = Some r
    /\ In (diag_qualityScore (rr_diagnostics r)) [0; 20; 40; 60; 80; 100].
Proof.
  eexists. split; [vm_compute; reflexivity|].
  match goal with
  | |- context [rr_diagnostics ?r] =>
      pose proof (getScanResults_quality Scenarios.shop_analysed 1 r) as H
  end.
  cbv zeta in H. apply H. vm_compute. reflexivity.
Defined.

Lemma getScanSurface_partition_witness :
  exists resp,
    getScanSurface (fun s => s) Scenarios.shop_analysed 1 = Some resp
    /\ n_forms (surf_counts resp) + n_inlineEventHandlers (surf_counts resp)
       + n_iframes (surf_counts resp) + n_securityHeaders (surf_counts resp)
       + n_securityCookies (surf_counts resp) + n_other (surf_counts resp)
       = surf_totalFindings resp.
Proof.
  eexists. split; [vm_compute; reflexivity|].
  match goal with
  | |- context [surf_counts ?r] =>
      pose proof (getScanSurface_partition (fun s => s) Scenarios.shop_analysed 1 r) as H
  end.
  cbv zeta in H. apply H. vm_compute. reflexivity.
Defined.

End ReportProofs.

(* ================================================================== *)
(** * Deletion, the minimal router and the worker: properties *)
(* ================================================================== *)

Section RouteProofs.

Import Store UrlValidator TaskQueue ScanRoutes ScanReports FindingTables UtilProps.
Local Open Scope string_scope.
Local Open Scope Z_scope.

Lemma find_filter_same {A} (g : A -> Z) (id : Z) (l : list A) :
  find (fun x => g x =? id) (filter (fun x => negb (g x =? id)) l) = None.
Proof.
  induction l as [|x l IH]; [reflexivity|].
  cbn [filter]. destruct (g x =? id) eqn:E; cbn [negb]; [exact IH|].
  cbn [find]. rewrite E. exact IH.
Qed.

Lemma find_filter_other {A} (g : A -> Z) (id other : Z) (l : list A) :
  other <> id ->
  find (fun x => g x =? other) (filter (fun x => negb (g x =? id)) l)
  = find (fun x => g x =? other) l.
Proof.
  intros Hne. induction l as [|x l IH]; [reflexivity|].
  cbn [filter find]. destruct (Z.eqb_spec (g x) id) as [E|E]; cbn [negb].
  - destruct (Z.eqb_spec (g x) other) as [E'|_]; [congruence | exact IH].
  - cbn [find]. destruct (g x =? other); [reflexivity | exact IH].
Qed.

Lemma filter_filter_same {A} (g : A -> Z) (id : Z) (l : list A) :
  filter (fun x => g x =? id) (filter (fun x => negb (g x =? id)) l) = [].
Proof.
  induction l as [|x l IH]; [reflexivity|].
  cbn [filter]. destruct (g x =? id) eqn:E; cbn [negb]; [exact IH|].
  cbn [filter]. rewrite E. exact IH.
Qed.

Lemma filter_filter_other {A} (g : A -> Z) (id other : Z) (l : list A) :
  other <> id ->
  filter (fun x => g x =? other) (filter (fun x => negb (g x =? id)) l)
  = filter (fun x => g x =? other) l.
Proof.
  intros Hne. induction l as [|x l IH]; [reflexivity|].
  cbn [filter]. destruct (Z.eqb_spec (g x) id) as [E|E]; cbn [negb].
  - destruct (Z.eqb_spec (g x) other) as [E'|_]; [congruence | exact IH].
  - cbn [filter]. destruct (g x =? other); [f_equal|]; exact IH.
Qed.

(** X13: [DELETE /api/scans/:id] on an existing scan answers 204 and removes the
    scan with its scripts, libraries and findings, so that the scan and its
    results are gone (a second deletion answers 404); the rows of every
    other scan are as before, and the scan's job stays in the queue. *)
Theorem deleteScan_removes_scan_only (app : App) (id : Z) (scan : Scan) :
  getScan (database app) id = Some scan ->
  let app' := fst (deleteScan app id) in
  snd (deleteScan app id) = 204
  /\ getScan (database app') id = None
  /\ getScanResults (database app') id = None
  /\ getLibrariesByScan (database app') id = []
  /\ getFindingsByScan (database app') id = []
  /\ getScriptsByScan (database app') id = []
  /\ snd (deleteScan app' id) = 404
  /\ taskQueue app' = taskQueue app
  /\ (forall other, other <> id ->
        getScan (database app') other = getScan (database app) other
        /\ getLibrariesByScan (database app') other
           = getLibrariesByScan (database app) other
        /\ getFindingsByScan (database app') other
           = getFindingsByScan (database app) other
        /\ getScriptsByScan (database app') other
           = getScriptsByScan (database app) other).
Proof.
  intros Hscan. unfold deleteScan at 1 2. rewrite Hscan.
  unfold Database.deleteScan. rewrite (getScan_exists _ _ _ Hscan).
  cbn [fst snd]. cbv zeta. cbn [database taskQueue].
  assert (Hgone : getScan
    (mkDB (filter (fun s => negb (scan_id s =? id)) (scans (database app)))
          (filter (fun s => negb (script_scanId s =? id)) (scripts (database app)))
          (filter (fun l => negb (lib_scanId l =? id)) (libraries (database app)))
          (filter (fun f => negb (finding_scanId f =? id)) (findings (database app)))
          (vulnerability_cache (database app)) (next_uuid (database app))
          (status_writes (database app))) id = None).
  { unfold getScan. cbn [scans]. apply find_filter_same. }
  split; [reflexivity|]. split; [exact Hgone|].
  split; [unfold getScanResults; rewrite Hgone; reflexivity|].
  split; [apply (filter_filter_same lib_scanId)|].
  split; [apply (filter_filter_same finding_scanId)|].
  split; [apply (filter_filter_same script_scanId)|].
  split; [unfold deleteScan; cbn [database]; rewrite Hgone; reflexivity|].
  split; [reflexivity|].
  intros other Hne. cbn [database].
  split; [apply (find_filter_other scan_id); exact Hne|].
  split; [apply (filter_filter_other lib_scanId); exact Hne|].
  split; [apply (filter_filter_other finding_scanId); exact Hne|].
  apply (filter_filter_other script_scanId); exact Hne.
Qed.

(** X14: The status route of the minimal router gives the status, progress and
    error of the main route whenever the scan is unfinished in the
    database or has no job in the queues.  (For a finished scan with a job
    the main route answers from the database alone; the minimal router
    still overlays the job's state.) *)
Theorem minimal_status_agrees (app : App) (id now : Z) (scan : Scan) :
  getScan (database app) id = Some scan ->
  terminal (scan_status scan) = false \/ getScanJobStatus (taskQueue app) id = None ->
  MinimalRouter.getScanStatus app id
  = option_map (fun r => MinimalRouter.mkStatusAnswer (resp_status r) (resp_progress r)
                           (resp_error r))
               (snd (getScanStatus app id now)).
Proof.
  intros Hscan Hcase.
  unfold MinimalRouter.getScanStatus, getScanStatus. rewrite Hscan. cbv zeta.
  cbn [snd option_map resp_status resp_progress resp_error].
  assert (Hjob : match scan_status scan with
                 | PENDING | RUNNING => getScanJobStatus (taskQueue app) id
                 | _ => None
                 end = getScanJobStatus (taskQueue app) id).
  { destruct Hcase as [Ht | Hn].
    - destruct (scan_status scan); try discriminate Ht; reflexivity.
    - rewrite Hn. destruct (scan_status scan); reflexivity. }
  rewrite Hjob.
  destruct (getScanJobStatus (taskQueue app) id) as [js|].
  - unfold effective_status.
    destruct (_ || _ || _); [reflexivity|].
    destruct (String.eqb (js_status js) "completed").
    + destruct (js_result js) as [[[|]]|]; reflexivity.
    + destruct (_ || _); reflexivity.
  - cbn [effective_status]. destruct (scan_status scan); reflexivity.
Qed.

(** X16: The worker's three tables know the same finding types: a type has the
    default title exactly when it has the default severity low.  The
    minimal analyzer's table agrees with the worker's except on the five
    types only the full analyzer produces, which it rates low, and it
    never rates a type higher than the worker does. *)
Theorem finding_severity_tables (type : FindingType) :
  (getFindingTitle type = "Security Finding" <-> getFindingSeverity type = LOW)
  /\ (mapFindingTypeToSeverity type = getFindingSeverity type <-> advanced type = false)
  /\ (advanced type = true -> mapFindingTypeToSeverity type = LOW)
  /\ level_rank (mapFindingTypeToSeverity type) <= level_rank (getFindingSeverity type).
Proof.
  destruct type; cbn;
    (split; [split; intros H; try reflexivity; discriminate H|]);
    (split; [split; intros H; try reflexivity; discriminate H|]);
    (split; [intros H; try reflexivity; discriminate H | lia]).
Qed.

Lemma deleteScan_removes_scan_only_witness :
  snd (deleteScan Scenarios.shop_rendering 1) = 204
  /\ getScan (database (fst (deleteScan Scenarios.shop_rendering 1))) 1 = None.
Proof.
  pose proof (deleteScan_removes_scan_only Scenarios.shop_rendering 1 Scenarios.shop_row
                eq_refl) as H.
  cbv zeta in H. split; [apply H | apply H].
Defined.

Lemma minimal_status_agrees_witness :
  MinimalRouter.getScanStatus Scenarios.shop_rendering 1
  = option_map (fun r => MinimalRouter.mkStatusAnswer (resp_status r) (resp_progress r)
                           (resp_error r))
               (snd (getScanStatus Scenarios.shop_rendering 1 1500)).
Proof.
  apply (minimal_status_agrees Scenarios.shop_rendering 1 1500 Scenarios.shop_row).
  - reflexivity.
  - left. reflexivity.
Defined.

End RouteProofs.

(* ================================================================== *)
(** * One run of the analysis worker: properties *)
(* ================================================================== *)

Section WorkerProofs.

Import Store AnalysisWorker.
Local Open Scope string_scope.
Local Open Scope Z_scope.

Lemma createScriptsBatch_frame (l : list Script) : forall db,
  scans (snd (createScriptsBatch db l)) = scans db
  /\ status_writes (snd (createScriptsBatch db l)) = status_writes db
  /\ findings (snd (createScriptsBatch db l)) = findings db
  /\ libraries (snd (createScriptsBatch db l)) = libraries db.
Proof.
  induction l as [|s l IH]; intros db; [repeat split|].
  cbn [createScriptsBatch]. unfold insert_script, uuidv4.
  match goal with
  | |- context [createScriptsBatch ?d l] =>
      specialize (IH d); destruct (createScriptsBatch d l) as [ids db']
  end.
  cbn [snd scans status_writes findings libraries] in *. exact IH.
Qed.

Lemma createLibrariesBatch_frame (l : list Library) : forall db,
  scans (snd (createLibrariesBatch db l)) = scans db
  /\ status_writes (snd (createLibrariesBatch db l)) = status_writes db
  /\ findings (snd (createLibrariesBatch db l)) = findings db
  /\ scripts (snd (createLibrariesBatch db l)) = scripts db.
Proof.
  induction l as [|s l IH]; intros db; [repeat split|].
  cbn [createLibrariesBatch]. unfold insert_library, uuidv4.
  match goal with
  | |- context [createLibrariesBatch ?d l] =>
      specialize (IH d); destruct (createLibrariesBatch d l) as [ids db']
  end.
  cbn [snd scans status_writes findings scripts] in *. exact IH.
Qed.

Lemma insert_findings_frame (l : list Finding) : forall db,
  scans (insert_findings db l) = scans db
  /\ status_writes (insert_findings db l) = status_writes db
  /\ libraries (insert_findings db l) = libraries db
  /\ scripts (insert_findings db l) = scripts db.
Proof.
  induction l as [|f l IH]; intros db; [repeat split|].
  cbn [insert_findings]. unfold createFinding, uuidv4. cbn [snd].
  match goal with
  | |- context [insert_findings ?d l] => specialize (IH d)
  end.
  cbn [scans status_writes libraries scripts] in IH. exact IH.
Qed.

Lemma getScan_after_risk (db : DB) (id risk : Z) (scan : Scan) :
  getScan db id = Some scan ->
  exists db',
    updateScanRiskScore db id risk = Some db'
    /\ getScan db' id
       = Some (mkScan (scan_id scan) (scan_url scan) (scan_status scan)
                 (scan_createdAt scan) (scan_startedAt scan) (scan_completedAt scan)
                 risk (scan_error scan))
    /\ status_writes db' = status_writes db.
Proof.
  intros H. unfold updateScanRiskScore. rewrite (getScan_exists db id scan H).
  eexists. split; [reflexivity|]. split; [|reflexivity].
  unfold getScan, set_scans. cbn [scans].
  apply (find_map_update
           (fun s => mkScan (scan_id s) (scan_url s) (scan_status s) (scan_createdAt s)
                       (scan_startedAt s) (scan_completedAt s) risk (scan_error s))
           id (scans db) scan); [reflexivity | exact H].
Qed.

(** X17: One run of [processAnalysisTask] on an existing scan writes the status
    running and then completed (or failed, when the analysis throws), in
    that order and nothing else.  Afterwards the row carries both
    timestamps and, on success, the rounded global risk score; its error
    text is the thrown message on failure, and on success whatever an
    earlier run had left there. *)
Theorem processAnalysisTask_outcome (db : DB) (id : Z) (scan : Scan) (t0 t1 : Z) :
  getScan db id = Some scan ->
  (forall a,
     let db' := processAnalysisTask db id (Analysed a) t0 t1 in
     getScan db' id
     = Some (mkScan (scan_id scan) (scan_url scan) COMPLETED (scan_createdAt scan)
               (Some t0) (Some t1) (JS.Math_round (an_riskScore a)) (scan_error scan))
     /\ status_writes db' = (status_writes db ++ [(id, RUNNING); (id, COMPLETED)])%list)
  /\ (forall message,
        let db' := processAnalysisTask db id (Thrown message) t0 t1 in
        getScan db' id
        = Some (mkScan (scan_id scan) (scan_url scan) FAILED (scan_createdAt scan)
                  (Some t0) (Some t1) (scan_globalRiskScore scan)
                  (if truthy (Some message) then Some message else scan_error scan))
        /\ status_writes db' = (status_writes db ++ [(id, RUNNING); (id, FAILED)])%list).
Proof.
  intros Hscan.
  pose proof (getScan_after_update db id RUNNING None t0 scan Hscan) as H1.
  pose proof (writes_after_update db id RUNNING None t0 (getScan_exists _ _ _ Hscan))
    as W1.
  split.
  - intros a db'. subst db'.
    unfold processAnalysisTask, AnalysisWorker.updateScanStatus.
    unfold saveEnhancedAnalysisResults. cbv zeta.
    set (db1 := update_status_stmt db id RUNNING None t0) in *.
    set (db2 := insert_findings
                  (snd (createLibrariesBatch
                          (snd (createScriptsBatch db1 (an_scripts a)))
                          (an_libraries a)))
                  (an_findings a)).
    assert (F : scans db2 = scans db1 /\ status_writes db2 = status_writes db1).
    { subst db2.
      destruct (insert_findings_frame (an_findings a)
                  (snd (createLibrariesBatch
                          (snd (createScriptsBatch db1 (an_scripts a)))
                          (an_libraries a)))) as [A1 [A2 _]].
      destruct (createLibrariesBatch_frame (an_libraries a)
                  (snd (createScriptsBatch db1 (an_scripts a)))) as [B1 [B2 _]].
      destruct (createScriptsBatch_frame (an_scripts a) db1) as [C1 [C2 _]].
      split; congruence. }
    destruct F as [F1 F2].
    assert (H2 : getScan db2 id = Some (update_status_row RUNNING None t0 scan)).
    { unfold getScan. rewrite F1. exact H1. }
    destruct (getScan_after_risk db2 id (JS.Math_round (an_riskScore a)) _ H2)
      as [db3 [Hup [H3 W3]]].
    rewrite Hup.
    rewrite (getScan_after_update db3 id COMPLETED None t1 _ H3).
    rewrite (writes_after_update db3 id COMPLETED None t1 (getScan_exists _ _ _ H3)).
    rewrite W3, F2, W1, <- app_assoc. split; reflexivity.
  - intros message db'. subst db'.
    unfold processAnalysisTask, AnalysisWorker.updateScanStatus.
    set (db1 := update_status_stmt db id RUNNING None t0) in *.
    rewrite (getScan_after_update db1 id FAILED (Some message) t1 _ H1).
    rewrite (writes_after_update db1 id FAILED (Some message) t1
               (getScan_exists _ _ _ H1)).
    rewrite W1, <- app_assoc. split; reflexivity.
Qed.

Lemma processAnalysisTask_outcome_witness :
  getScan (processAnalysisTask Scenarios.shop_created 1
             (Analysed Scenarios.shop_analysis) 2000 3000) 1
  = Some (mkScan 1 "https://shop.example/" COMPLETED 1000 (Some 2000) (Some 3000)
            (JS.Math_round (an_riskScore Scenarios.shop_analysis)) None)
  /\ status_writes (processAnalysisTask Scenarios.shop_created 1
                      (Analysed Scenarios.shop_analysis) 2000 3000)
     = (status_writes Scenarios.shop_created ++ [(1, RUNNING); (1, COMPLETED)])%list.
Proof.
  apply (proj1 (processAnalysisTask_outcome Scenarios.shop_created 1 Scenarios.shop_row
                  2000 3000 eq_refl) Scenarios.shop_analysis).
Defined.

End WorkerProofs.

(* ================================================================== *)
(** * The minimal analyzer as a whole: properties *)
(* ================================================================== *)

Section MinimalRunProofs.

Import Store UrlValidator MinimalAnalyzer.
Import Props.
Local Open Scope string_scope.
Local Open Scope Z_scope.

Lemma upsert_frame (db : DB) (name : string) (version : option string)
    (vs : list Vulnerability) (ttl now : Z) :
  let db' := upsertVulnerabilityCacheEntry db name version vs ttl now in
  scans db' = scans db /\ findings db' = findings db /\ libraries db' = libraries db
  /\ scripts db' = scripts db /\ next_uuid db' = next_uuid db
  /\ status_writes db' = status_writes db.
Proof.
  unfold upsertVulnerabilityCacheEntry. cbv zeta.
  destruct (existsb _ _); repeat split.
Qed.

Lemma enrichLibrary_frame (w : World) (now : Z) (db : DB) (lib : Library) :
  let db' := fst (enrichLibrary w now db lib) in
  scans db' = scans db /\ findings db' = findings db /\ next_uuid db' = next_uuid db
  /\ status_writes db' = status_writes db.
Proof.
  unfold enrichLibrary. cbv zeta.
  destruct (match getVulnerabilityCacheEntry _ _ _ _ with
            | Some cached => entry_vulnerabilities cached
            | None => []
            end); [|repeat split].
  destruct (if (lib_name lib =? "")%string then [] else osv w (lib_name lib) _);
    [repeat split|].
  cbn [fst].
  match goal with
  | |- context [upsertVulnerabilityCacheEntry ?d ?n ?v ?vs ?t ?k] =>
      destruct (upsert_frame d n v vs t k) as [A [B [_ [_ [C D]]]]]
  end.
  repeat split; assumption.
Qed.

Lemma enrichLibraries_frame (w : World) (now : Z) (libs : list Library) : forall db,
  let db' := fst (enrichLibraries w now db libs) in
  scans db' = scans db /\ findings db' = findings db /\ next_uuid db' = next_uuid db
  /\ status_writes db' = status_writes db.
Proof.
  induction libs as [|l libs IH]; intros db; [repeat split|].
  cbn [enrichLibraries].
  pose proof (enrichLibrary_frame w now db l) as F.
  destruct (enrichLibrary w now db l) as [db1 l'].
  specialize (IH db1).
  destruct (enrichLibraries w now db1 libs) as [db2 rest'].
  cbn [fst] in *. cbv zeta in *.
  destruct F as [F1 [F2 [F3 F4]]]. destruct IH as [I1 [I2 [I3 I4]]].
  repeat split; congruence.
Qed.

Lemma updateScanRiskScore_findings (db db' : DB) (id risk : Z) :
  updateScanRiskScore db id risk = Some db' -> findings db' = findings db.
Proof.
  unfold updateScanRiskScore. destruct (exists_scan db id); [|discriminate].
  intros H. injection H as <-. reflexivity.
Qed.

(** X18: When the validator refuses the scan's URL, [minimalAnalyzeAndPersist]
    does not fetch anything: whatever the page server and the vulnerability
    service would answer, it stores and returns the single finding
    "Failed to fetch target URL" and no library, and leaves the scan row
    alone. *)
Theorem minimal_analyzer_refused_target (w : World) (db : DB) (scan : Scan) (now : Z)
    (message : string) :
  runs_afresh db scan ->
  validateTargetUrl (net w) (scan_url scan) = inl message ->
  let failure :=
    mkFinding (Some (next_uuid db)) (scan_id scan) "ERROR" "Failed to fetch target URL"
              MODERATE None in
  snd (minimalAnalyzeAndPersist w db scan now) = mkResult [] [failure]
  /\ findings (fst (minimalAnalyzeAndPersist w db scan now))
     = (findings db ++ [failure])%list
  /\ scans (fst (minimalAnalyzeAndPersist w db scan now)) = scans db
  /\ libraries (fst (minimalAnalyzeAndPersist w db scan now)) = libraries db
  /\ (forall w', net w' = net w ->
        minimalAnalyzeAndPersist w' db scan now = minimalAnalyzeAndPersist w db scan now).
Proof.
  intros Hfresh Hrefused.
  assert (Hrun : forall w', net w' = net w ->
            minimalAnalyzeAndPersist w' db scan now
            = (snd (createFinding db
                      (mkFinding None (scan_id scan) "ERROR" "Failed to fetch target URL"
                                 MODERATE None)),
               mkResult [] [mkFinding (Some (next_uuid db)) (scan_id scan) "ERROR"
                              "Failed to fetch target URL" MODERATE None])).
  { intros w' Hnet. unfold minimalAnalyzeAndPersist. cbv zeta.
    rewrite (short_circuit_test db scan Hfresh).
    unfold fetchHtml. rewrite Hnet, Hrefused. reflexivity. }
  cbv zeta. rewrite (Hrun w eq_refl).
  split; [reflexivity|]. split; [reflexivity|]. split; [reflexivity|].
  split; [reflexivity|].
  intros w' Hnet. apply Hrun. exact Hnet.
Qed.

Lemma minimal_analyzer_refused_target_witness :
  snd (minimalAnalyzeAndPersist Scenarios.plain_world Scenarios.plain_db
         Scenarios2.intranet_scan 2000)
  = mkResult [] [mkFinding (Some (next_uuid Scenarios.plain_db))
                   (scan_id Scenarios2.intranet_scan) "ERROR"
                   "Failed to fetch target URL" MODERATE None].
Proof.
  apply (minimal_analyzer_refused_target Scenarios.plain_world Scenarios.plain_db
           Scenarios2.intranet_scan 2000 "Invalid URL").
  - left. discriminate.
  - reflexivity.
Defined.

(** What a full run stores in table [findings]. *)
Lemma minimal_full_run_findings (w : World) (db : DB) (scan : Scan) (now : Z)
    (page : Page) :
  runs_afresh db scan ->
  fetchHtml w (scan_url scan) = Some page ->
  exists infos,
    findings (fst (minimalAnalyzeAndPersist w db scan now)) = (findings db ++ infos)%list
    /\ (1 <= List.length infos <= 3)%nat
    /\ Forall (fun f => finding_type f = "INFO" /\ finding_scanId f = scan_id scan) infos
    /\ exists shown,
         res_findings (snd (minimalAnalyzeAndPersist w db scan now))
         = ((page_htmlFindings page
             ++ headerFindings (scan_id scan)
                  (option_map url_protocol (new_URL (net w) (scan_url scan)))
                  (page_headers page)
             ++ integrityFindings (scan_id scan) (page_scripts page)) ++ shown)%list
         /\ shown = infos.
Proof.
  intros Hfresh Hfetch.
  unfold minimalAnalyzeAndPersist. cbv zeta.
  rewrite (short_circuit_test db scan Hfresh), Hfetch.
  set (dbS := snd (createScriptsBatch db (map (scriptOf (scan_id scan)) (page_scripts page)))).
  pose proof (createScriptsBatch_frame (map (scriptOf (scan_id scan)) (page_scripts page)) db)
    as [_ [_ [FS _]]].
  fold dbS in FS.
  pose proof (createLibrariesBatch_frame
                (map (libraryOf (scan_id scan)) (page_scripts page)) dbS) as [_ [_ [FL _]]].
  destruct (createLibrariesBatch dbS (map (libraryOf (scan_id scan)) (page_scripts page)))
    as [ids dbL].
  cbn [snd] in FL.
  pose proof (enrichLibraries_frame w now
                (with_ids (map (libraryOf (scan_id scan)) (page_scripts page)) ids) dbL)
    as [_ [FE _]].
  destruct (enrichLibraries w now dbL
              (with_ids (map (libraryOf (scan_id scan)) (page_scripts page)) ids))
    as [dbE libs].
  cbn [fst] in FE.
  assert (F0 : findings dbE = findings db) by congruence.
  clear FS FL FE.
  unfold createFinding, uuidv4. cbn [findings scans scripts libraries
    vulnerability_cache next_uuid status_writes].
  destruct (negb (Nat.eqb (List.length (filter sf_isThirdParty (page_scripts page))) 0)
            && truthy (option_map url_hostname (new_URL (net w) (scan_url scan))));
    destruct (negb (Nat.eqb (List.length (filter sf_isInsecure (page_scripts page))) 0));
    cbn [findings scans scripts libraries vulnerability_cache next_uuid status_writes];
    match goal with
    | |- context [updateScanRiskScore ?d ?i ?g] =>
        destruct (updateScanRiskScore d i g) as [dbU|] eqn:EU;
          cbn [fst snd res_findings];
          try rewrite (updateScanRiskScore_findings _ _ _ _ EU)
    end;
    cbn [findings]; rewrite F0, <- ?app_assoc;
    eexists; (split; [reflexivity|]);
    (split; [cbn [List.length app]; lia|]);
    (split; [cbn [app]; repeat constructor|]);
    eexists; (split; [rewrite <- ?app_assoc; reflexivity | reflexivity]).
Qed.

(** X19: A full run of [minimalAnalyzeAndPersist] returns the findings of the
    page, its headers and its script tags, but stores none of them: the
    only rows it adds to table [findings] are its one to three summary
    findings of type INFO, which it returns last. *)
Theorem minimal_analyzer_stores_summaries_only (w : World) (db : DB) (scan : Scan)
    (now : Z) (page : Page) :
  runs_afresh db scan ->
  fetchHtml w (scan_url scan) = Some page ->
  exists infos,
    findings (fst (minimalAnalyzeAndPersist w db scan now)) = (findings db ++ infos)%list
    /\ (1 <= List.length infos <= 3)%nat
    /\ Forall (fun f => finding_type f = "INFO" /\ finding_scanId f = scan_id scan) infos
    /\ res_findings (snd (minimalAnalyzeAndPersist w db scan now))
       = ((page_htmlFindings page
           ++ headerFindings (scan_id scan)
                (option_map url_protocol (new_URL (net w) (scan_url scan)))
                (page_headers page)
           ++ integrityFindings (scan_id scan) (page_scripts page)) ++ infos)%list.
Proof.
  intros Hfresh Hfetch.
  destruct (minimal_full_run_findings w db scan now page Hfresh Hfetch)
    as [infos [H1 [H2 [H3 [shown [H4 H5]]]]]].
  subst shown. exists infos. repeat split; try assumption; apply H2.
Qed.

Lemma minimal_analyzer_stores_summaries_only_witness :
  exists infos,
    findings (fst (minimalAnalyzeAndPersist Scenarios.plain_world Scenarios.plain_db
                     Scenarios.plain_scan 2000))
    = (findings Scenarios.plain_db ++ infos)%list
    /\ (1 <= List.length infos <= 3)%nat.
Proof.
  destruct (minimal_analyzer_stores_summaries_only Scenarios.plain_world
              Scenarios.plain_db Scenarios.plain_scan 2000
              (mkPage [("content-type", "text/html")] [] []))
    as [infos [H1 [H2 _]]].
  - left. discriminate.
  - vm_compute. reflexivity.
  - exists infos. split; [exact H1 | exact H2].
Defined.

(** X20: Asked a second time for a completed scan, [minimalAnalyzeAndPersist]
    answers from the database and writes nothing; as the first run stored
    only its summaries, the second answer lists only those findings of
    type INFO. *)
Theorem minimal_analyzer_second_run (w : World) (db : DB) (scan : Scan) (now later : Z)
    (page : Page) :
  scan_status scan = COMPLETED ->
  getLibrariesByScan db (scan_id scan) = [] ->
  getFindingsByScan db (scan_id scan) = [] ->
  fetchHtml w (scan_url scan) = Some page ->
  let db1 := fst (minimalAnalyzeAndPersist w db scan now) in
  fst (minimalAnalyzeAndPersist w db1 scan later) = db1
  /\ res_findings (snd (minimalAnalyzeAndPersist w db1 scan later))
     = getFindingsByScan db1 (scan_id scan)
  /\ Forall (fun f => finding_type f = "INFO")
            (res_findings (snd (minimalAnalyzeAndPersist w db1 scan later)))
  /\ (1 <= List.length (res_findings (snd (minimalAnalyzeAndPersist w db1 scan later)))
      <= 3)%nat.
Proof.
  intros Hs Hl Hf Hfetch db1.
  destruct (minimal_full_run_findings w db scan now page
              (or_intror (conj Hl Hf)) Hfetch)
    as [infos [H1 [H2 [H3 _]]]].
  fold db1 in H1.
  assert (Hrows : getFindingsByScan db1 (scan_id scan) = infos).
  { unfold getFindingsByScan in *. rewrite H1, filter_app, Hf. cbn [app].
    clear H1 H2. induction infos as [|f infos IH]; [reflexivity|].
    inversion H3 as [|? ? [_ Hid] Hrest]; subst.
    cbn [filter]. rewrite Hid, Z.eqb_refl. f_equal. apply IH. exact Hrest. }
  assert (Hne : getFindingsByScan db1 (scan_id scan) <> []).
  { rewrite Hrows. destruct infos; [cbn in H2; lia | discriminate]. }
  rewrite (minimal_analyzer_short_circuit w db1 scan later Hs (or_intror Hne)).
  cbn [fst snd res_findings]. rewrite Hrows.
  split; [reflexivity|]. split; [reflexivity|]. split; [|exact H2].
  apply Forall_forall. intros f Hin.
  rewrite Forall_forall in H3. apply (H3 f Hin).
Qed.

Lemma minimal_analyzer_second_run_witness :
  fst (minimalAnalyzeAndPersist Scenarios.plain_world
         (fst (minimalAnalyzeAndPersist Scenarios.plain_world Scenarios2.plain_done_db
                 Scenarios2.plain_done 2000))
         Scenarios2.plain_done 9000)
  = fst (minimalAnalyzeAndPersist Scenarios.plain_world Scenarios2.plain_done_db
           Scenarios2.plain_done 2000).
Proof.
  apply (minimal_analyzer_second_run Scenarios.plain_world Scenarios2.plain_done_db
           Scenarios2.plain_done 2000 9000 (mkPage [("content-type", "text/html")] [] [])).
  - reflexivity.
  - reflexivity.
  - reflexivity.
  - vm_compute. reflexivity.
Defined.

End MinimalRunProofs.

(* ================================================================== *)
(** * More on the vulnerability cache and on the cooldown *)
(* ================================================================== *)

Section CacheFrameProofs.

Import Store.
Local Open Scope string_scope.
Local Open Scope Z_scope.

Lemma option_string_eqb_eq (a b : option string) :
  option_string_eqb a b = true <-> a = b.
Proof.
  destruct a as [x|], b as [y|]; cbn; split; intros H;
    try reflexivity; try discriminate.
  - apply String.eqb_eq in H. congruence.
  - injection H as ->. apply String.eqb_refl.
Qed.

Lemma cache_matches_not_conflicts (packageName packageName' : string)
    (version version' : option string) (r : CacheRow) :
  packageName' <> packageName \/ version' <> version ->
  cache_conflicts packageName version r = true ->
  cache_matches packageName' version' r = false.
Proof.
  intros Hne Hc. unfold cache_conflicts in Hc. unfold cache_matches.
  destruct version as [v|]; [|discriminate].
  destruct (cache_version r) as [x|] eqn:Ex; [|discriminate].
  apply andb_true_iff in Hc. destruct Hc as [Hn Hv].
  apply String.eqb_eq in Hn. apply String.eqb_eq in Hv. subst x.
  destruct (String.eqb_spec (cache_packageName r) packageName') as [En|_];
    [|reflexivity].
  destruct (option_string_eqb (Some v) version') eqn:Eo; [|reflexivity].
  apply option_string_eqb_eq in Eo. exfalso.
  destruct Hne as [H | H]; apply H; congruence.
Qed.

Lemma filter_matches_updated_other (packageName packageName' : string)
    (version version' : option string) (vulnerabilities : list Vulnerability)
    (ttl now : Z) (rows : list CacheRow) :
  packageName' <> packageName \/ version' <> version ->
  filter (cache_matches packageName' version')
    (map (fun r => if cache_conflicts packageName version r
                   then mkCacheRow (cache_packageName r) (cache_version r)
                          vulnerabilities now (Some ttl)
                   else r) rows)
  = filter (cache_matches packageName' version') rows.
Proof.
  intros Hne. induction rows as [|r rest IH]; [reflexivity|].
  cbn [map filter].
  destruct (cache_conflicts packageName version r) eqn:Ec.
  - pose proof (cache_matches_not_conflicts _ _ _ _ r Hne Ec) as Hm.
    rewrite Hm.
    replace (cache_matches packageName' version'
               (mkCacheRow (cache_packageName r) (cache_version r) vulnerabilities now
                  (Some ttl))) with false by (symmetry; exact Hm).
    exact IH.
  - destruct (cache_matches packageName' version' r); [f_equal|]; exact IH.
Qed.

(** X21: Writing the cache entry of one (package, version) key leaves the
    entries of every other key as they were, whatever the time of the
    read. *)
Theorem cache_upsert_frame (db : DB) (packageName packageName' : string)
    (version version' : option string) (vulnerabilities : list Vulnerability)
    (ttl t now : Z) :
  packageName' <> packageName \/ version' <> version ->
  getVulnerabilityCacheEntry
    (upsertVulnerabilityCacheEntry db packageName version vulnerabilities ttl t)
    packageName' version' now
  = getVulnerabilityCacheEntry db packageName' version' now.
Proof.
  intros Hne. unfold upsertVulnerabilityCacheEntry, getVulnerabilityCacheEntry.
  cbv zeta.
  destruct (existsb (cache_conflicts packageName version) (vulnerability_cache db)).
  - unfold set_cache. cbn [vulnerability_cache].
    rewrite (filter_matches_updated_other _ _ _ _ _ _ _ _ Hne). reflexivity.
  - unfold set_cache. cbn [vulnerability_cache]. rewrite filter_app.
    cbn [filter]. unfold cache_matches at 2. cbn [cache_packageName cache_version].
    destruct (String.eqb_spec packageName packageName') as [En|_].
    + destruct (option_string_eqb version version') eqn:Eo.
      * apply option_string_eqb_eq in Eo. exfalso.
        destruct Hne as [H | H]; apply H; congruence.
      * cbn [andb]. rewrite app_nil_r. reflexivity.
    + cbn [andb]. rewrite app_nil_r. reflexivity.
Qed.

Lemma cache_upsert_frame_witness :
  getVulnerabilityCacheEntry
    (upsertVulnerabilityCacheEntry Scenarios.cache_after_first "jquery" (Some "1.12.4")
       [Scenarios.advisory_new] 60 100)
    "lodash" None 500
  = getVulnerabilityCacheEntry Scenarios.cache_after_first "lodash" None 500.
Proof.
  apply (cache_upsert_frame Scenarios.cache_after_first "jquery" "lodash"
           (Some "1.12.4") None [Scenarios.advisory_new] 60 100 500).
  left. discriminate.
Defined.

(** X22: For a key with a version the cache keeps one entry: an upsert adds a
    row only when the key has none, a read after it returns exactly the
    list just written until ttl seconds have passed and nothing after
    that, and so of two upserts the later one is the one read. *)
Theorem cache_versioned_upsert (db : DB) (packageName version : string)
    (vulnerabilities : list Vulnerability) (ttl t now : Z) :
  let db' :=
    upsertVulnerabilityCacheEntry db packageName (Some version) vulnerabilities ttl t in
  getVulnerabilityCacheEntry db' packageName (Some version) now
  = (if now >? t + ttl * 1000 then None else Some (mkCacheEntry vulnerabilities t ttl))
  /\ List.length (filter (cache_matches packageName (Some version))
                    (vulnerability_cache db'))
     = Nat.max 1 (List.length (filter (cache_matches packageName (Some version))
                                 (vulnerability_cache db)))
  /\ (forall older ttl0 t0,
        getVulnerabilityCacheEntry
          (upsertVulnerabilityCacheEntry
             (upsertVulnerabilityCacheEntry db packageName (Some version) older ttl0 t0)
             packageName (Some version) vulnerabilities ttl t)
          packageName (Some version) now
        = getVulnerabilityCacheEntry db' packageName (Some version) now).
Proof.
  cbv zeta. split; [apply cache_read_after_upsert_versioned|]. split.
  - unfold upsertVulnerabilityCacheEntry.
    destruct (existsb (cache_conflicts packageName (Some version))
                (vulnerability_cache db)) eqn:E.
    + unfold set_cache. cbn [vulnerability_cache].
      rewrite filter_updated_rows, length_map.
      pose proof (filter_some_when_conflict _ _ _ E) as Hne.
      destruct (filter (cache_matches packageName (Some version))
                  (vulnerability_cache db)); [contradiction|].
      cbn [List.length]. lia.
    + unfold set_cache. cbn [vulnerability_cache]. rewrite filter_app.
      rewrite (filter_none_when_no_conflict _ _ _ E).
      cbn [filter app]. unfold cache_matches, option_string_eqb.
      cbn [cache_packageName cache_version]. rewrite !String.eqb_refl. reflexivity.
  - intros older ttl0 t0. rewrite !cache_read_after_upsert_versioned. reflexivity.
Qed.

End CacheFrameProofs.

Section CooldownWindowProofs.

Import Store TaskQueue ScanRoutes UrlValidator UtilProps.
Local Open Scope string_scope.
Local Open Scope Z_scope.

Lemma insert_desc_In (s x : Scan) (l : list Scan) :
  In x (insert_desc s l) <-> x = s \/ In x l.
Proof.
  induction l as [|h t IH]; cbn [insert_desc In]; [intuition congruence|].
  destruct (scan_createdAt h <? scan_createdAt s); cbn [In]; [intuition congruence|].
  rewrite IH. intuition congruence.
Qed.

Lemma insert_desc_descending (s : Scan) (l : list Scan) :
  descending l -> descending (insert_desc s l).
Proof.
  induction l as [|h t IH]; intros Hd.
  - cbn. split; [intros x []|exact I].
  - cbn [insert_desc]. destruct Hd as [Hh Ht].
    destruct (Z.ltb_spec (scan_createdAt h) (scan_createdAt s)) as [Hlt|Hge].
    + split; [|split; assumption].
      intros x [<-|Hx]; [lia|]. specialize (Hh x Hx). lia.
    + split; [|apply IH; exact Ht].
      intros x Hx. apply insert_desc_In in Hx. destruct Hx as [->|Hx]; [lia|].
      apply Hh. exact Hx.
Qed.

Lemma order_fold (l : list Scan) : forall acc,
  descending acc ->
  descending (fold_left (fun acc s => insert_desc s acc) l acc)
  /\ (forall x, In x (fold_left (fun acc s => insert_desc s acc) l acc)
                <-> In x l \/ In x acc).
Proof.
  induction l as [|s l IH]; intros acc Hd.
  - cbn [fold_left In]. split; [exact Hd | intuition].
  - cbn [fold_left]. destruct (IH (insert_desc s acc) (insert_desc_descending s acc Hd))
      as [H1 H2].
    split; [exact H1|]. intros x. rewrite H2, insert_desc_In. cbn [In].
    intuition congruence.
Qed.

(** The first row of [ORDER BY created_at DESC] is a newest one. *)
Lemma order_head_newest (l : list Scan) (h : Scan) (t : list Scan) :
  order_by_created_desc l = h :: t ->
  In h l /\ forall x, In x l -> scan_createdAt x <= scan_createdAt h.
Proof.
  unfold order_by_created_desc. intros H.
  destruct (order_fold l [] I) as [Hd Hin]. rewrite H in Hd, Hin.
  split.
  - destruct (proj1 (Hin h) (or_introl eq_refl)) as [Hh|[]]. exact Hh.
  - intros x Hx.
    destruct (proj2 (Hin x) (or_introl Hx)) as [<-|Hx']; [lia|].
    apply (proj1 Hd). exact Hx'.
Qed.

(** X23: Once a scan of a URL has been accepted at time t, and no row of the
    database is dated later than t, a further request for the same URL at
    a time t' >= t is refused with 429 exactly while t' < t + 1000 *
    cooldown, and accepted with 201 from then on; a refusal changes
    nothing and announces the remaining time, rounded up to seconds. *)
Theorem cooldown_window_exact (net : Net) (env : option string) (app app1 : App)
    (body : ScanRequest) (t t' id : Z) (status : ScanStatus) (url : string) :
  createScan net env app body t = (app1, Created id status url) ->
  (forall s, In s (scans (database app)) -> scan_createdAt s <= t) ->
  t <= t' ->
  http_status (snd (createScan net env app1 body t'))
  = (if t' <? t + 1000 * cooldownSeconds env then 429 else 201)
  /\ (t' < t + 1000 * cooldownSeconds env ->
      createScan net env app1 body t'
      = (app1, TooManyScans
                 (JS.Math_ceil (inject_Z (cooldownSeconds env) - ((t' - t) # 1000))%Q))).
Proof.
  intros Hcreate Hmono Ht.
  unfold createScan in Hcreate |- *.
  destruct (schema_ok net body) eqn:Hs; cbn [negb] in *; [|discriminate].
  set (u := match req_url body with Some u => u | None => "" end) in *.
  destruct (validateTargetUrl net u) as [m|parsed] eqn:Hv; [discriminate|].
  destruct (cooldown_check (database app) env u t) as [r|]; [discriminate|].
  unfold Store.createScan, uuidv4 in Hcreate. cbn in Hcreate.
  injection Hcreate as Happ Hid Hstatus Hurl. subst app1.
  cbn [database].
  unfold cooldown_check. cbv zeta.
  destruct (Z.ltb_spec 0 (cooldownSeconds env)) as [Hpos|Hoff].
  - unfold getRecentScansByUrl, log_status, set_scans. cbn [scans].
    rewrite filter_app. cbn [filter scan_url].
    rewrite String.eqb_refl.
    set (row := mkScan (next_uuid (database app)) u PENDING t None None 0 None).
    destruct (order_by_created_desc
                (filter (fun s => (scan_url s =? u)%string) (scans (database app))
                 ++ [row])) as [|latest rest] eqn:Eo.
    + exfalso. unfold order_by_created_desc in Eo.
      destruct (order_fold
                  (filter (fun s => (scan_url s =? u)%string) (scans (database app))
                   ++ [row]) [] I) as [_ Hin].
      rewrite Eo in Hin. apply (proj2 (Hin row)). left.
      apply in_or_app. right. left. reflexivity.
    + destruct (order_head_newest _ _ _ Eo) as [Hin Hmax].
      assert (Hlatest : scan_createdAt latest = t).
      { apply Z.le_antisymm.
        - apply in_app_or in Hin. destruct Hin as [Hin|[<-|[]]]; [|reflexivity].
          apply filter_In in Hin. apply Hmono. apply Hin.
        - apply (Hmax row). apply in_or_app. right. left. reflexivity. }
      cbn [firstn]. rewrite Hlatest.
      destruct (Qlt_le_dec ((t' - t) # 1000) (inject_Z (cooldownSeconds env)))
        as [Hlt|Hge].
      * apply diff_lt_cooldown in Hlt.
        replace (t' <? t + 1000 * cooldownSeconds env) with true
          by (symmetry; apply Z.ltb_lt; lia).
        split; [reflexivity|]. intros _. reflexivity.
      * assert (Hout : ~ t' - t < 1000 * cooldownSeconds env).
        { intros Hc. apply diff_lt_cooldown in Hc. apply (Qle_not_lt _ _ Hge Hc). }
        replace (t' <? t + 1000 * cooldownSeconds env) with false
          by (symmetry; apply Z.ltb_ge; lia).
        split; [|intros Hc; exfalso; lia].
        destruct (Store.createScan _ _ _ _) as [i d]. reflexivity.
  - replace (t' <? t + 1000 * cooldownSeconds env) with false
      by (symmetry; apply Z.ltb_ge; lia).
    split; [|intros Hc; exfalso; lia].
    destruct (Store.createScan _ _ _ _) as [i d]. reflexivity.
Qed.

Lemma cooldown_window_exact_witness :
  http_status (snd (createScan Scenarios.public_net None Scenarios.shop_scanned_once
                      Scenarios.shop_request 31000))
  = (if 31000 <? 1000 + 1000 * cooldownSeconds None then 429 else 201).
Proof.
  apply (cooldown_window_exact Scenarios.public_net None
           (mkApp Store.empty (mkQueue [] [])) Scenarios.shop_scanned_once
           Scenarios.shop_request 1000 31000 1 PENDING "https://shop.example/").
  - vm_compute. reflexivity.
  - intros s [].
  - lia.
Defined.

End CooldownWindowProofs.

(* ================================================================== *)
(** * What the validator guarantees, and the range of the scores *)
(* ================================================================== *)

Section ValidatorProofs.

Import Store UrlValidator TaskQueue ScanRoutes MinimalAnalyzer.
Local Open Scope string_scope.
Local Open Scope Z_scope.

(** X24: A URL that [validateTargetUrl] accepts is the parsed input; its scheme
    is http or https, its host is none of the three local names, the
    resolver answered for the host, and none of the addresses it gave is
    one [isPrivateIp] flags: in particular none is an IPv4 address of
    10/8, 127/8, 169.254/16, 172.16/12 or 192.168/16. *)
Theorem validateTargetUrl_accepts_only (net : Net) (rawUrl : string) (parsed : URL) :
  validateTargetUrl net rawUrl = inr parsed ->
  let protocol := Str.toLowerCase (url_protocol parsed) in
  let hostname := Str.toLowerCase (url_hostname parsed) in
  new_URL net rawUrl = Some parsed
  /\ (protocol = "http:" \/ protocol = "https:")
  /\ hostname <> "localhost" /\ hostname <> "127.0.0.1" /\ hostname <> "::1"
  /\ exists records,
       dns_lookup net hostname = Addresses records
       /\ (forall ip, In ip records -> isPrivateIp ip = false)
       /\ (forall o1 o2 o3 o4,
             0 <= o1 <= 255 -> 0 <= o2 <= 255 -> 0 <= o3 <= 255 -> 0 <= o4 <= 255 ->
             In (dotted o1 o2 o3 o4) records -> spec_private_v4 o1 o2 = false).
Proof.
  unfold validateTargetUrl.
  destruct (new_URL net rawUrl) as [u|]; [|discriminate].
  destruct (String.eqb_spec (Str.toLowerCase (url_protocol u)) "http:") as [Ep|Ep];
    destruct (String.eqb_spec (Str.toLowerCase (url_protocol u)) "https:") as [Es|Es];
    cbn [negb andb]; try discriminate;
    (destruct (String.eqb_spec (Str.toLowerCase (url_hostname u)) "localhost")
       as [E1|E1]; [discriminate|]);
    (destruct (String.eqb_spec (Str.toLowerCase (url_hostname u)) "127.0.0.1")
       as [E2|E2]; [discriminate|]);
    (destruct (String.eqb_spec (Str.toLowerCase (url_hostname u)) "::1")
       as [E3|E3]; [discriminate|]);
    cbn [orb];
    (destruct (dns_lookup net (Str.toLowerCase (url_hostname u))) as [records|code]
       eqn:Ed; [|destruct (_ || _); discriminate]);
    (destruct (existsb isPrivateIp records) eqn:Ex; [discriminate|]);
    intros H; injection H as <-; cbv zeta;
    (split; [reflexivity|]);
    (split; [first [left; assumption | right; assumption]|]);
    (split; [assumption|]); (split; [assumption|]); (split; [assumption|]);
    exists records; (split; [exact Ed|]);
    assert (Hall : forall ip, In ip records -> isPrivateIp ip = false)
      by (intros ip Hin; destruct (isPrivateIp ip) eqn:Ei; [|reflexivity];
          assert (Hc : existsb isPrivateIp records = true)
            by (apply existsb_exists; exists ip; split; assumption);
          congruence);
    (split; [exact Hall|]);
    intros o1 o2 o3 o4 H1 H2 H3 H4 Hin;
    rewrite <- (isPrivateIp_dotted o1 o2 o3 o4 H1 H2 H3 H4);
    apply Hall; exact Hin.
Qed.

Lemma validateTargetUrl_accepts_only_witness :
  new_URL Scenarios.public_net "https://shop.example/"
  = Some (mkURL "https:" "shop.example")
  /\ exists records,
       dns_lookup Scenarios.public_net "shop.example" = Addresses records
       /\ forall ip, In ip records -> isPrivateIp ip = false.
Proof.
  destruct (validateTargetUrl_accepts_only Scenarios.public_net "https://shop.example/"
              (mkURL "https:" "shop.example"))
    as [H1 [_ [_ [_ [_ [records [H2 [H3 _]]]]]]]].
  - vm_compute. reflexivity.
  - split; [exact H1|]. exists records. split; [exact H2 | exact H3].
Defined.

(** X25: A host that resolves to an IPv4 address of a private, loopback or
    link-local range is never scanned: [POST /api/scans] answers 400 and
    leaves the database and the queue untouched, and the minimal analyzer
    does not fetch the page. *)
Theorem private_ipv4_never_scanned (net : Net) (url : string) (parsed : URL)
    (records : list string) (o1 o2 o3 o4 : Z) :
  new_URL net url = Some parsed ->
  dns_lookup net (Str.toLowerCase (url_hostname parsed)) = Addresses records ->
  0 <= o1 <= 255 -> 0 <= o2 <= 255 -> 0 <= o3 <= 255 -> 0 <= o4 <= 255 ->
  spec_private_v4 o1 o2 = true ->
  In (dotted o1 o2 o3 o4) records ->
  (forall env app body now,
     req_url body = Some url ->
     fst (createScan net env app body now) = app
     /\ http_status (snd (createScan net env app body now)) = 400)
  /\ (forall w, MinimalAnalyzer.net w = net -> fetchHtml w url = None).
Proof.
  intros Hp Hd H1 H2 H3 H4 Hs Hin.
  assert (Hex : existsb isPrivateIp records = true).
  { apply existsb_exists. exists (dotted o1 o2 o3 o4). split; [exact Hin|].
    rewrite isPrivateIp_dotted by assumption. exact Hs. }
  destruct (validate_rejects_flagged_record net url parsed records Hp Hd Hex)
    as [m Hm].
  split.
  - intros env app body now Hu.
    exact (createScan_refused_target net env app body now url m Hu Hm).
  - intros w Hw. unfold fetchHtml. rewrite Hw, Hm. reflexivity.
Qed.

Lemma private_ipv4_never_scanned_witness :
  fetchHtml Scenarios2.router_world "http://router.example/" = None.
Proof.
  apply (private_ipv4_never_scanned Scenarios2.router_net "http://router.example/"
           (mkURL "http:" "router.example") ["192.168.1.1"] 192 168 1 1).
  - reflexivity.
  - reflexivity.
  - lia.
  - lia.
  - lia.
  - lia.
  - reflexivity.
  - left. reflexivity.
  - reflexivity.
Defined.

End ValidatorProofs.

Section ScoreRangeProofs.

Import Store RiskCalculator MinimalAnalyzer.
Local Open Scope Z_scope.

Lemma Math_round_range (x : Q) : (0 <= x <= 100)%Q -> 0 <= JS.Math_round x <= 100.
Proof.
  intros [Hlo Hhi]. split.
  - change 0 with (JS.Math_round 0%Q). apply Math_round_mono. exact Hlo.
  - change 100 with (JS.Math_round 100%Q). apply Math_round_mono. exact Hhi.
Qed.

Lemma calculateLibraryRisk_range (vs : list VulnInput) (confidence : Q) (exploit : bool) :
  (0 <= calculateLibraryRisk vs confidence exploit <= 100)%Q.
Proof.
  unfold calculateLibraryRisk. destruct vs as [|v vs].
  - split; [apply Qle_refl | discriminate].
  - cbv zeta. apply clamp_range.
Qed.

Lemma calculateGlobalRisk_range (risks : list Q) (criticalFindings : Q) :
  (0 <= calculateGlobalRisk risks criticalFindings <= 100)%Q.
Proof.
  unfold calculateGlobalRisk. destruct risks as [|r rs].
  - split; [apply Qle_refl | discriminate].
  - cbv zeta. apply clamp_range.
Qed.

(** X26: Every risk score the analyzers store is an integer from 0 to 100: the
    rounded library and global scores of [RiskCalculator], hence the
    score the enrichment gives a library and the global score of a scan.
    The preliminary score of a detected script is 10, 40, 50 or 80, so
    its cap at 100 is never reached. *)
Theorem risk_scores_in_range :
  (forall vs confidence exploit,
     0 <= JS.Math_round (calculateLibraryRisk vs confidence exploit) <= 100)
  /\ (forall risks criticalFindings,
        0 <= JS.Math_round (calculateGlobalRisk risks criticalFindings) <= 100)
  /\ (forall lib inputs, 0 <= enrichedRiskScore lib inputs <= 100)
  /\ (forall libraries findings, 0 <= globalRiskOf libraries findings <= 100)
  /\ (forall scanId s, In (lib_riskScore (libraryOf scanId s)) [10; 40; 50; 80]).
Proof.
  split; [intros; apply Math_round_range, calculateLibraryRisk_range|].
  split; [intros; apply Math_round_range, calculateGlobalRisk_range|].
  split; [intros; apply Math_round_range, calculateLibraryRisk64_range|].
  split.
  - intros libraries findings. unfold globalRiskOf. cbv zeta.
    destruct (map _ libraries); [lia|].
    apply Math_round_range, calculateGlobalRisk_range.
  - intros scanId s. unfold libraryOf. cbv zeta. cbn [lib_riskScore].
    destruct (sf_isThirdParty s), (sf_isInsecure s); cbn; tauto.
Qed.

End ScoreRangeProofs.

(* ================================================================== *)
(** * Polling the status of a scan: properties *)
(* ================================================================== *)

Section PollingProofs.

Import Store UrlValidator TaskQueue ScanRoutes.
Import Props.
Local Open Scope string_scope.
Local Open Scope Z_scope.

(** Overlaying the queue state on its own result changes nothing. *)
Lemma effective_status_stable (s : ScanStatus) (job : option JobStatus) :
  effective_status (effective_status s job) job = effective_status s job.
Proof.
  unfold effective_status. destruct job as [js|]; [|reflexivity].
  destruct (_ || _ || _); [reflexivity|].
  destruct (String.eqb (js_status js) "completed").
  - destruct (js_result js) as [r|]; [destruct (negb (result_success r))|]; reflexivity.
  - destruct (_ || _); reflexivity.
Qed.

(** X27: Polling is idempotent: as long as the queue does not change, a second
    request to the status endpoint gets the status of the first and writes
    nothing, and what the first request wrote, if anything, moved the scan
    strictly forward in the lifecycle. *)
Theorem status_poll_idempotent (app : App) (id now later : Z) (scan : Scan) :
  getScan (database app) id = Some scan ->
  let app1 := fst (getScanStatus app id now) in
  fst (getScanStatus app1 id later) = app1
  /\ option_map resp_status (snd (getScanStatus app1 id later))
     = option_map resp_status (snd (getScanStatus app id now))
  /\ (status_writes (database app1) = status_writes (database app)
      \/ exists s, status_writes (database app1)
                   = (status_writes (database app) ++ [(id, s)])%list
                   /\ rank (scan_status scan) < rank s).
Proof.
  intros Hscan app1.
  split; [|split; [|apply (reconciliation_moves_forward app id now scan Hscan)]].
  - subst app1. destruct (terminal (scan_status scan)) eqn:Hterm.
    + rewrite (getScanStatus_finished app id now scan Hscan Hterm). cbn [fst].
      rewrite (getScanStatus_finished app id later scan Hscan Hterm). reflexivity.
    + destruct (getScanStatus_unfinished app id now scan Hscan Hterm) as [Hfst _].
      rewrite Hfst. clear Hfst.
      set (job := getScanJobStatus (taskQueue app) id).
      set (eff := effective_status (scan_status scan) job).
      destruct (status_eqb eff (scan_status scan)) eqn:E.
      * rewrite app_eta.
        destruct (getScanStatus_unfinished app id later scan Hscan Hterm) as [Hfst _].
        rewrite Hfst. fold job. fold eff. rewrite E. apply app_eta.
      * pose proof (getScan_after_update (database app) id eff
                      (reconciled_error scan job) now scan Hscan) as Hrow.
        set (db1 := update_status_stmt (database app) id eff
                      (reconciled_error scan job) now) in *.
        set (row := update_status_row eff (reconciled_error scan job) now scan) in *.
        assert (Hst : scan_status row = eff) by reflexivity.
        destruct (terminal eff) eqn:Hte.
        { rewrite (getScanStatus_finished (mkApp db1 (taskQueue app)) id later row
                     Hrow); [reflexivity|]. rewrite Hst. exact Hte. }
        { destruct (getScanStatus_unfinished (mkApp db1 (taskQueue app)) id later row
                      Hrow) as [Hfst _]; [rewrite Hst; exact Hte|].
          rewrite Hfst. cbn [database taskQueue]. fold job. rewrite Hst.
          unfold eff at 1 2. rewrite effective_status_stable. fold eff.
          replace (status_eqb eff eff) with true
            by (symmetry; apply status_eqb_eq; reflexivity).
          reflexivity. }
  - subst app1. destruct (terminal (scan_status scan)) eqn:Hterm.
    + rewrite (getScanStatus_finished app id now scan Hscan Hterm). cbn [fst].
      rewrite (getScanStatus_finished app id later scan Hscan Hterm). reflexivity.
    + destruct (getScanStatus_unfinished app id now scan Hscan Hterm) as [Hfst Hsnd].
      rewrite Hfst, Hsnd. clear Hfst Hsnd.
      set (job := getScanJobStatus (taskQueue app) id).
      set (eff := effective_status (scan_status scan) job).
      destruct (status_eqb eff (scan_status scan)) eqn:E.
      * rewrite app_eta.
        destruct (getScanStatus_unfinished app id later scan Hscan Hterm) as [_ Hsnd].
        exact Hsnd.
      * pose proof (getScan_after_update (database app) id eff
                      (reconciled_error scan job) now scan Hscan) as Hrow.
        set (db1 := update_status_stmt (database app) id eff
                      (reconciled_error scan job) now) in *.
        set (row := update_status_row eff (reconciled_error scan job) now scan) in *.
        assert (Hst : scan_status row = eff) by reflexivity.
        destruct (terminal eff) eqn:Hte.
        { rewrite (getScanStatus_finished (mkApp db1 (taskQueue app)) id later row
                     Hrow); [reflexivity|]. rewrite Hst. exact Hte. }
        { destruct (getScanStatus_unfinished (mkApp db1 (taskQueue app)) id later row
                      Hrow) as [_ Hsnd]; [rewrite Hst; exact Hte|].
          rewrite Hsnd. cbn [taskQueue]. fold job. rewrite Hst.
          unfold eff. rewrite effective_status_stable. reflexivity. }
Qed.

Lemma status_poll_idempotent_witness :
  fst (getScanStatus (fst (getScanStatus Scenarios.shop_rendering 1 1500)) 1 1600)
  = fst (getScanStatus Scenarios.shop_rendering 1 1500).
Proof.
  apply (status_poll_idempotent Scenarios.shop_rendering 1 1500 1600 Scenarios.shop_row).
  reflexivity.
Defined.

Lemma find_app_fresh {A} (p : A -> bool) (l : list A) (x : A) :
  find p l = None -> p x = true -> find p (l ++ [x]) = Some x.
Proof.
  intros Hn Hx. induction l as [|a l IH].
  - cbn. rewrite Hx. reflexivity.
  - cbn [find app] in *. destruct (p a); [discriminate | apply IH; exact Hn].
Qed.

(** X28: Right after [POST /api/scans] has accepted a scan (under a fresh
    identifier and with no old job of that name) the row is pending and the
    job is waiting; the first request to the status endpoint then answers
    running, stage queued, progress 0, and sets the row to running with
    [started_at], although no worker has taken the job. *)
Theorem status_after_create (net : Net) (env : option string) (app app1 : App)
    (body : ScanRequest) (t t' id : Z) (status : ScanStatus) (url : string) :
  createScan net env app body t = (app1, Created id status url) ->
  getScan (database app) (next_uuid (database app)) = None ->
  getJob (taskQueue app) (next_uuid (database app)) = None ->
  id = next_uuid (database app)
  /\ status = PENDING
  /\ getScan (database app1) id = Some (mkScan id url PENDING t None None 0 None)
  /\ getJob (taskQueue app1) id = Some (mkJob id "waiting" 0 None None)
  /\ snd (getScanStatus app1 id t') = Some (mkStatusResponse RUNNING 0 "queued" None)
  /\ getScan (database (fst (getScanStatus app1 id t'))) id
     = Some (mkScan id url RUNNING t (Some t') None 0 None).
Proof.
  intros Hcreate Hfresh Hjob.
  unfold createScan in Hcreate.
  destruct (schema_ok net body); cbn [negb] in Hcreate; [|discriminate].
  set (u := match req_url body with Some u => u | None => "" end) in *.
  destruct (validateTargetUrl net u); [discriminate|].
  destruct (cooldown_check (database app) env u t); [discriminate|].
  unfold Store.createScan, uuidv4 in Hcreate. cbn in Hcreate.
  injection Hcreate as Happ Hid Hstatus Hurl. subst app1 id status url.
  set (id := next_uuid (database app)) in *.
  set (row := mkScan id u PENDING t None None 0 None).
  assert (Hrow : getScan
            (log_status
               (set_scans
                  (mkDB (scans (database app)) (scripts (database app))
                        (libraries (database app)) (findings (database app))
                        (vulnerability_cache (database app)) (id + 1)
                        (status_writes (database app)))
                  (scans (database app) ++ [row])) id PENDING) id = Some row).
  { unfold getScan, log_status, set_scans. cbn [scans].
    apply find_app_fresh; [exact Hfresh | apply Z.eqb_refl]. }
  assert (Hq : getJob (addScanJob (taskQueue app) id) id
               = Some (mkJob id "waiting" 0 None None)).
  { unfold addScanJob. rewrite Hjob. unfold getJob. cbn [scanQueue].
    apply find_app_fresh; [exact Hjob | apply Z.eqb_refl]. }
  split; [reflexivity|]. split; [reflexivity|].
  cbn [database taskQueue].
  split; [exact Hrow|]. split; [exact Hq|].
  unfold getScanStatus. cbn [database taskQueue]. rewrite Hrow.
  cbn [scan_status row]. unfold getScanJobStatus. rewrite Hq.
  cbn -[update_status_stmt getScan log_status set_scans].
  unfold Store.updateScanStatus. rewrite (getScan_exists _ _ _ Hrow).
  split; [reflexivity|].
  rewrite (getScan_after_update _ id RUNNING None t' row Hrow). reflexivity.
Qed.

Lemma status_after_create_witness :
  snd (getScanStatus Scenarios.shop_scanned_once 1 1200)
  = Some (mkStatusResponse RUNNING 0 "queued" None).
Proof.
  apply (status_after_create Scenarios.public_net None
           (mkApp Store.empty (mkQueue [] [])) Scenarios.shop_scanned_once
           Scenarios.shop_request 1000 1200 1 PENDING "https://shop.example/").
  - vm_compute. reflexivity.
  - reflexivity.
  - reflexivity.
Defined.

(** X29: A scan that the database has as pending or running, whose job is gone
    from the scan queue and sits in the dead-letter queue, is reported
    failed, progress 100, with the error of the dead-letter entry unless
    the row has one already; the request writes failed, that error and
    [completed_at] to the row. *)
Theorem dead_letter_reported_failed (app : App) (id now : Z) (scan : Scan)
    (deadJob : DeadJob) :
  getScan (database app) id = Some scan ->
  terminal (scan_status scan) = false ->
  getJob (taskQueue app) id = None ->
  find (fun j => dead_scanId j =? id) (deadLetterQueue (taskQueue app)) = Some deadJob ->
  snd (getScanStatus app id now)
  = Some (mkStatusResponse FAILED 100 "failed"
            (or_else (scan_error scan) (dead_error deadJob)))
  /\ getScan (database (fst (getScanStatus app id now))) id
     = Some (mkScan (scan_id scan) (scan_url scan) FAILED (scan_createdAt scan)
               (scan_startedAt scan) (Some now) (scan_globalRiskScore scan)
               (if truthy (scan_error scan) then scan_error scan
                else if truthy (dead_error deadJob) then dead_error deadJob
                else scan_error scan)).
Proof.
  intros Hscan Hterm Hjob Hdead.
  assert (Hjs : getScanJobStatus (taskQueue app) id
                = Some (mkJobStatus "dead-letter" 100 None (dead_error deadJob))).
  { unfold getScanJobStatus. rewrite Hjob, Hdead. reflexivity. }
  destruct (getScanStatus_unfinished app id now scan Hscan Hterm) as [Hfst _].
  rewrite Hjs in Hfst.
  change (effective_status (scan_status scan)
            (Some (mkJobStatus "dead-letter" 100 None (dead_error deadJob))))
    with FAILED in Hfst.
  split.
  - unfold getScanStatus. rewrite Hscan.
    replace (match scan_status scan with
             | PENDING | RUNNING => getScanJobStatus (taskQueue app) id
             | _ => None
             end) with (Some (mkJobStatus "dead-letter" 100 None (dead_error deadJob)))
      by (rewrite <- Hjs; destruct (scan_status scan); try discriminate; reflexivity).
    reflexivity.
  - rewrite Hfst. cbn [database].
    replace (status_eqb FAILED (scan_status scan)) with false
      by (destruct (scan_status scan); try discriminate; reflexivity).
    rewrite (getScan_after_update _ id FAILED _ now scan Hscan).
    unfold update_status_row, reconciled_error, or_else. cbn [js_error js_result].
    destruct (scan_error scan) as [[|c1 s1]|];
      destruct (dead_error deadJob) as [[|c2 s2]|]; reflexivity.
Qed.

Lemma dead_letter_reported_failed_witness :
  snd (getScanStatus Scenarios2.shop_abandoned 1 9000)
  = Some (mkStatusResponse FAILED 100 "failed"
            (or_else (scan_error Scenarios.shop_row)
                     (dead_error (mkDeadJob 1 (Some "Renderer crashed"))))).
Proof.
  apply (dead_letter_reported_failed Scenarios2.shop_abandoned 1 9000 Scenarios.shop_row
           (mkDeadJob 1 (Some "Renderer crashed"))).
  - reflexivity.
  - reflexivity.
  - reflexivity.
  - reflexivity.
Defined.

End PollingProofs.

(* ================================================================== *)
(** * The circuit breaker: properties *)
(* ================================================================== *)

Section BreakerProofs.

Import SharedUtils CircuitBreaker.
Local Open Scope string_scope.
Local Open Scope Z_scope.

Context {T : Type}.

Lemma execute_keeps_settings (cb : Breaker) (now later : Z) (operation : Outcome T) :
  failureThreshold (fst (execute cb now operation later)) = failureThreshold cb
  /\ recoveryTimeout (fst (execute cb now operation later)) = recoveryTimeout cb.
Proof.
  unfold execute. cbv zeta.
  destruct (state cb); try destruct (_ >? _); destruct operation; split; reflexivity.
Qed.

(** One call keeps the breaker closed or open, open exactly when the
    failures have reached the threshold. *)
Lemma execute_invariant (cb : Breaker) (now later : Z) (operation : Outcome T) :
  1 <= failureThreshold cb ->
  state cb <> HALF_OPEN ->
  (state cb = OPEN <-> failureThreshold cb <= failures cb) ->
  let cb' := fst (execute cb now operation later) in
  state cb' <> HALF_OPEN
  /\ (state cb' = OPEN <-> failureThreshold cb' <= failures cb').
Proof.
  intros Hthr Hh Hopen. unfold execute. cbv zeta.
  destruct (state cb) eqn:Es.
  - destruct operation as [v|e]; cbn [fst onSuccess onFailure state failures
                                           failureThreshold].
    + split; [discriminate|]. split; [discriminate | lia].
    + rewrite Es. rewrite Z.geb_leb.
      destruct (Z.leb_spec (failureThreshold cb) (failures cb + 1)).
      * split; [discriminate|]. split; [lia | reflexivity].
      * split; [discriminate|]. split; [discriminate | lia].
  - assert (Hf : failureThreshold cb <= failures cb) by (apply Hopen; reflexivity).
    destruct (now - lastFailureTime cb >? recoveryTimeout cb).
    + destruct operation as [v|e]; cbn [fst onSuccess onFailure state failures
                                             failureThreshold].
      * split; [discriminate|]. split; [discriminate | lia].
      * rewrite Z.geb_leb.
        destruct (Z.leb_spec (failureThreshold cb) (failures cb + 1)); [|lia].
        split; [discriminate|]. split; [lia | reflexivity].
    + cbn [fst]. rewrite Es. split; [discriminate|]. split; [intros _; exact Hf|].
      reflexivity.
  - contradiction Hh. reflexivity.
Qed.

Lemma run_invariant (calls : list (Z * Outcome T * Z)) : forall cb,
  1 <= failureThreshold cb ->
  state cb <> HALF_OPEN ->
  (state cb = OPEN <-> failureThreshold cb <= failures cb) ->
  state (run cb calls) <> HALF_OPEN
  /\ (state (run cb calls) = OPEN <-> failureThreshold cb <= failures (run cb calls))
  /\ failureThreshold (run cb calls) = failureThreshold cb
  /\ recoveryTimeout (run cb calls) = recoveryTimeout cb.
Proof.
  induction calls as [|[[now operation] later] rest IH]; intros cb Hthr Hh Hopen.
  - cbn [run]. repeat split; try assumption; apply Hopen.
  - cbn [run].
    destruct (execute_keeps_settings cb now later operation) as [K1 K2].
    destruct (execute_invariant cb now later operation Hthr Hh Hopen) as [I1 I2].
    destruct (IH (fst (execute cb now operation later))) as [J1 [J2 [J3 J4]]].
    + rewrite K1. exact Hthr.
    + exact I1.
    + exact I2.
    + rewrite K1 in J2, J3. rewrite K2 in J4.
      split; [exact J1|]. split; [exact J2|]. split; [exact J3 | exact J4].
Qed.

(** X30: A circuit breaker with a threshold of at least 1 is, between calls,
    either closed or open, and open exactly when its failures have reached
    the threshold, whatever the sequence of calls and outcomes.  While it
    is open and the recovery timeout has not passed, [execute] refuses
    without calling the operation and without changing the breaker; a call
    that succeeds leaves it closed with no failure counted. *)
Theorem circuit_breaker_invariant (failureThreshold recoveryTimeout : Z)
    (calls : list (Z * Outcome T * Z)) :
  1 <= failureThreshold ->
  let cb := run (create failureThreshold recoveryTimeout) calls in
  state cb <> HALF_OPEN
  /\ (state cb = OPEN <-> failureThreshold <= failures cb)
  /\ (forall now (operation : Outcome T) later,
        state cb = OPEN -> now - lastFailureTime cb <= recoveryTimeout ->
        execute cb now operation later = (cb, Refused))
  /\ (forall now (value : T) later,
        (state cb = OPEN -> now - lastFailureTime cb > recoveryTimeout) ->
        snd (execute cb now (Resolves value) later) = Returned value
        /\ state (fst (execute cb now (Resolves value) later)) = CLOSED
        /\ failures (fst (execute cb now (Resolves value) later)) = 0).
Proof.
  intros Hthr cb.
  destruct (run_invariant calls (create failureThreshold recoveryTimeout))
    as [J1 [J2 [J3 J4]]].
  - exact Hthr.
  - discriminate.
  - cbn. split; [discriminate | lia].
  - fold cb in J1, J2, J3, J4. cbn [create CircuitBreaker.failureThreshold
                                     CircuitBreaker.recoveryTimeout] in J2, J3, J4.
    split; [exact J1|]. split; [exact J2|]. split.
    + intros now operation later Ho Hwait. unfold execute. cbv zeta.
      rewrite Ho, J4.
      replace (now - lastFailureTime cb >? recoveryTimeout) with false
        by (symmetry; rewrite Z.gtb_ltb; apply Z.ltb_ge; exact Hwait).
      reflexivity.
    + intros now value later Hready. unfold execute. cbv zeta.
      destruct (state cb) eqn:Es.
      * repeat split.
      * rewrite J4.
        replace (now - lastFailureTime cb >? recoveryTimeout) with true
          by (symmetry; rewrite Z.gtb_ltb; apply Z.ltb_lt;
              specialize (Hready eq_refl); lia).
        repeat split.
      * contradiction J1. reflexivity.
Qed.

End BreakerProofs.

Section BreakerWitness.

Import SharedUtils CircuitBreaker.
Local Open Scope string_scope.
Local Open Scope Z_scope.

Lemma circuit_breaker_invariant_witness :
  state (run (create 2 60000) Scenarios2.two_failures) <> HALF_OPEN
  /\ (state (run (create 2 60000) Scenarios2.two_failures) = OPEN
      <-> 2 <= failures (run (create 2 60000) Scenarios2.two_failures)).
Proof.
  pose proof (circuit_breaker_invariant 2 60000 Scenarios2.two_failures) as H.
  cbv zeta in H. split; apply H; lia.
Defined.

End BreakerWitness.
